(** * A file-per-record JSON store: the driver of [main.go]

    The development embeds the storage driver of [main.go] ([New], [Write],
    [Read], [ReadAll], [Delete], [getOrCreateMutex], [stat]) as state-passing
    functions over a model of the parts of the Go runtime it calls:
    [path/filepath] on strings, the [os] file operations on a directory tree,
    [sync.Mutex] objects and the [encoding/json] codec as an interface. *)

From Stdlib Require Import Ascii String.
From stdpp Require Import gmap strings list sorting.

Local Open Scope string_scope.

(** ** [path/filepath] (Unix) *)

Module filepath.

Definition is_sep (c : ascii) : bool := Ascii.eqb c "/"%char.

(** [strings.Split(s, "/")] as a first element and the remaining ones. *)
Fixpoint split_first (s : string) : string * list string :=
  match s with
  | EmptyString => (EmptyString, [])
  | String c s' =>
      let '(h, t) := split_first s' in
      if is_sep c then (EmptyString, h :: t) else (String c h, t)
  end.

Definition split (s : string) : list string :=
  let '(h, t) := split_first s in h :: t.

(** [strings.Join(elems, "/")]. *)
Definition join (elems : list string) : string := String.concat "/" elems.

Definition rooted (path : string) : bool :=
  match path with
  | String c _ => is_sep c
  | EmptyString => false
  end.

(** One element of the path applied to the elements kept so far (the last
    one kept is the head): empty and [.] elements are dropped, [..] removes
    the element before it, is dropped at the root and is kept at the start
    of a relative path. *)
Definition clean_step (r : bool) (kept : list string) (e : string) : list string :=
  if (e =? "")%string || (e =? ".")%string then kept
  else if (e =? "..")%string then
    match kept with
    | top :: rest => if (top =? "..")%string then e :: kept else rest
    | [] => if r then [] else [e]
    end
  else e :: kept.

Definition clean_elems (r : bool) (elems : list string) : list string :=
  fold_left (clean_step r) elems [].

Definition render (r : bool) (kept : list string) : string :=
  if r then "/" +:+ join (rev kept)
  else match kept with
       | [] => "."
       | _ => join (rev kept)
       end.

(** [filepath.Clean]. *)
Definition Clean (path : string) : string :=
  if (path =? "")%string then "."
  else render (rooted path) (clean_elems (rooted path) (split path)).

(** [filepath.Join]: empty elements before the first non-empty one are
    ignored, the rest is joined with the separator and cleaned. *)
Fixpoint Join (elem : list string) : string :=
  match elem with
  | [] => ""
  | e :: rest => if (e =? "")%string then Join rest else Clean (join elem)
  end.

(** A single ordinary path element. *)
Definition no_sep (n : string) : bool :=
  forallb (fun c => negb (is_sep c)) (list_ascii_of_string n).

Definition plain (n : string) : bool :=
  no_sep n && negb (n =? "")%string && negb (n =? ".")%string && negb (n =? "..")%string.

End filepath.


(** ** Go values shared by the packages below *)

Inductive Errno :=
  ENOENT | ENOTDIR | EISDIR | EEXIST | ENOTEMPTY | EINVAL | EBUSY | ENOSPC.

(** Values of Go's [error] interface that this program can see. *)
Inductive error :=
  | Errorf (msg : string)                        (* fmt.Errorf *)
  | PathError (op path : string) (err : Errno)   (* *fs.PathError *)
  | LinkError (op old new : string) (err : Errno) (* *os.LinkError *)
  | CodecError (msg : string).                   (* the errors of encoding/json *)

(** The result of a library call that returns [(x, error)]. *)
Inductive result (A : Type) :=
  | Ok (a : A)
  | Err (e : error).
Arguments Ok {A} a.
Arguments Err {A} e.

Definition TAB : string := String "009"%char "".
Definition NL : string := String "010"%char "".

(** ** The process: file tree, console and mutex objects *)

Inductive node :=
  | File (data : string)
  | Dir.

(** An absolute location is the list of its elements, the last one first:
    the parent of [n :: p] is [p] and the root directory is [[]]. *)
Record World := {
  files : gmap (list string) node;  (* every entry below the root directory *)
  cwd : list string;                (* the working directory *)
  space : option nat;               (* bytes the device still accepts; None: no limit *)
  stdout : list string;             (* lines printed so far, the first one first *)
  held : gset nat;                  (* the sync.Mutex objects that are locked *)
  next_mutex : nat                  (* the next sync.Mutex object to allocate *)
}.

Definition set_files (f : gmap (list string) node) (w : World) : World :=
  {| files := f; cwd := cwd w; space := space w; stdout := stdout w;
     held := held w; next_mutex := next_mutex w |}.
Definition set_space (n : option nat) (w : World) : World :=
  {| files := files w; cwd := cwd w; space := n; stdout := stdout w;
     held := held w; next_mutex := next_mutex w |}.
Definition set_stdout (o : list string) (w : World) : World :=
  {| files := files w; cwd := cwd w; space := space w; stdout := o;
     held := held w; next_mutex := next_mutex w |}.
Definition set_held (h : gset nat) (w : World) : World :=
  {| files := files w; cwd := cwd w; space := space w; stdout := stdout w;
     held := h; next_mutex := next_mutex w |}.
Definition set_next_mutex (n : nat) (w : World) : World :=
  {| files := files w; cwd := cwd w; space := space w; stdout := stdout w;
     held := held w; next_mutex := n |}.

(** ** [fmt] *)

Module fmt.
(** [fmt.Println] of one string. *)
Definition Println (line : string) (w : World) : World :=
  set_stdout (stdout w ++ [line +:+ NL]) w.
End fmt.

(** ** [sync] *)

Module sync.
(** A [*sync.Mutex]: the address of the mutex object. *)
Definition Mutex := nat.

(** [&sync.Mutex{}]: a new, unlocked mutex. *)
Definition new_Mutex (w : World) : Mutex * World :=
  (next_mutex w, set_next_mutex (S (next_mutex w)) w).

(** [m.Lock()]. In a sequential run nobody can release a mutex that is
    held, so locking it never returns: [None]. *)
Definition Lock (m : Mutex) (w : World) : option World :=
  if decide (m ∈ held w) then None else Some (set_held ({[m]} ∪ held w) w).

(** [m.Unlock()]; unlocking an unlocked mutex is a fatal error: [None]. *)
Definition Unlock (m : Mutex) (w : World) : option World :=
  if decide (m ∈ held w) then Some (set_held (held w ∖ {[m]}) w) else None.
End sync.

(** ** [os] *)

Module os.

Inductive FileMode := ModeDir | ModeRegular | ModeIrregular.

Definition IsDir (m : FileMode) : bool :=
  match m with ModeDir => true | _ => false end.
Definition IsRegular (m : FileMode) : bool :=
  match m with ModeRegular => true | _ => false end.

Record FileInfo := { Size : nat; Mode : FileMode }.

Definition info_of (n : node) : FileInfo :=
  match n with
  | File data => {| Size := String.length data; Mode := ModeRegular |}
  | Dir => {| Size := 0; Mode := ModeDir |}
  end.

(** [os.IsNotExist]. *)
Definition IsNotExist (e : error) : bool :=
  match e with
  | PathError _ _ ENOENT | LinkError _ _ _ ENOENT => true
  | _ => false
  end.

(** The location a path names: from the root or from the working
    directory, one element at a time. The paths of this program are
    cleaned, so that [..] elements only come first. *)
Definition walk_step (cur : list string) (e : string) : list string :=
  if (e =? "")%string || (e =? ".")%string then cur
  else if (e =? "..")%string then tail cur
  else e :: cur.

Definition abspath (w : World) (name : string) : list string :=
  fold_left walk_step (filepath.split name)
    (if filepath.rooted name then [] else cwd w).

(** What is found at a location: every directory on the way must exist
    and be a directory. *)
Fixpoint locate (fs : gmap (list string) node) (q : list string) : Errno + node :=
  match q with
  | [] => inr Dir
  | _ :: parent =>
      match locate fs parent with
      | inl e => inl e
      | inr (File _) => inl ENOTDIR
      | inr Dir =>
          match fs !! q with
          | Some n => inr n
          | None => inl ENOENT
          end
      end
  end.

Definition lookup_name (w : World) (name : string) : Errno + node :=
  if (name =? "")%string then inl ENOENT else locate (files w) (abspath w name).

(** [os.Stat]. *)
Definition Stat (name : string) (w : World) : result FileInfo :=
  match lookup_name w name with
  | inl e => Err (PathError "stat" name e)
  | inr n => Ok (info_of n)
  end.

(** [os.ReadFile]. *)
Definition ReadFile (name : string) (w : World) : result string :=
  match lookup_name w name with
  | inl e => Err (PathError "open" name e)
  | inr Dir => Err (PathError "read" name EISDIR)
  | inr (File data) => Ok data
  end.

(** The names of the entries of a directory, sorted by name. *)
Definition name_le (a b : string) : Prop := Is_true (String.leb a b).

Definition child_of (q : list string) (k : list string) : option string :=
  match k with
  | n :: p => if decide (p = q) then Some n else None
  | [] => None
  end.

Definition children (fs : gmap (list string) node) (q : list string) : list string :=
  merge_sort name_le (omap (child_of q) (map_to_list fs).*1).

(** [os.ReadDir], with the names of the entries. *)
Definition ReadDir (name : string) (w : World) : result (list string) :=
  match lookup_name w name with
  | inl e => Err (PathError "open" name e)
  | inr (File _) => Err (PathError "readdirent" name ENOTDIR)
  | inr Dir => Ok (children (files w) (abspath w name))
  end.

(** [os.MkdirAll]: the missing directories on the way are created, the
    outermost first; the ones created before a failure remain. *)
Fixpoint mkdir_all (fs : gmap (list string) node) (q : list string)
    : gmap (list string) node * option Errno :=
  match q with
  | [] => (fs, None)
  | _ :: parent =>
      match mkdir_all fs parent with
      | (fs1, Some e) => (fs1, Some e)
      | (fs1, None) =>
          match fs1 !! q with
          | None => (<[q := Dir]> fs1, None)
          | Some Dir => (fs1, None)
          | Some (File _) => (fs1, Some ENOTDIR)
          end
      end
  end.

(** The parent [os.MkdirAll] turns to: the path without its trailing
    separators, its last element and the separator before that. *)
Fixpoint drop_seps (l : list ascii) : list ascii :=
  match l with
  | c :: l' => if filepath.is_sep c then drop_seps l' else l
  | [] => []
  end.

Fixpoint drop_elem (l : list ascii) : list ascii :=
  match l with
  | c :: l' => if filepath.is_sep c then l else drop_elem l'
  | [] => []
  end.

Definition parent_path (path : string) : string :=
  string_of_list_ascii
    (rev (tail (drop_elem (drop_seps (rev (list_ascii_of_string path)))))).

(** The path in the error of [os.MkdirAll]: the call looks at the path,
    then at its parent and so on, and stops at the first one that is
    found; a regular file found there is what the error names. *)
Fixpoint mkdir_path (n : nat) (path : string) (w : World) : string :=
  match lookup_name w path, n with
  | inl _, S n' =>
      let parent := parent_path path in
      if (parent =? "")%string then path else mkdir_path n' parent w
  | _, _ => path
  end.

Definition MkdirAll (name : string) (w : World) : option error * World :=
  if (name =? "")%string then (Some (PathError "mkdir" name ENOENT), w)
  else
    match mkdir_all (files w) (abspath w name) with
    | (fs1, Some e) =>
        (Some (PathError "mkdir" (mkdir_path (String.length name) name w) e),
         set_files fs1 w)
    | (fs1, None) => (None, set_files fs1 w)
    end.

(** [os.WriteFile]: the file is created or truncated, then written as far
    as the device accepts. *)
Definition write_data (q : list string) (name data : string) (w : World)
    : option error * World :=
  match space w with
  | None => (None, set_files (<[q := File data]> (files w)) w)
  | Some n =>
      if Nat.leb (String.length data) n
      then (None, set_space (Some (n - String.length data))
                    (set_files (<[q := File data]> (files w)) w))
      else (Some (PathError "write" name ENOSPC),
            set_space (Some 0)
              (set_files (<[q := File (substring 0 n data)]> (files w)) w))
  end.

Definition WriteFile (name data : string) (w : World) : option error * World :=
  if (name =? "")%string then (Some (PathError "open" name ENOENT), w)
  else
    match abspath w name with
    | [] => (Some (PathError "open" name EISDIR), w)
    | (_ :: parent) as q =>
        match locate (files w) parent with
        | inl e => (Some (PathError "open" name e), w)
        | inr (File _) => (Some (PathError "open" name ENOTDIR), w)
        | inr Dir =>
            match files w !! q with
            | Some Dir => (Some (PathError "open" name EISDIR), w)
            | _ => write_data q name data w
            end
        end
    end.

(** rename(2): a file replaces a file in one step; a directory moves with
    everything below it, onto nothing or onto an empty directory. *)
Definition below (q k : list string) : Prop := q `suffix_of` k.

Definition move_key (qo qn k : list string) : list string :=
  if decide (below qo k) then take (length k - length qo) k ++ qn else k.

Definition move_tree (qo qn : list string) (fs : gmap (list string) node)
    : gmap (list string) node :=
  list_to_map (prod_map (move_key qo qn) id <$> map_to_list fs).

Definition rename_at (qo qn : list string) (src : node) (fs : gmap (list string) node)
    : Errno + gmap (list string) node :=
  match qn with
  | [] => inl EBUSY
  | _ :: parent =>
      match locate fs parent with
      | inl e => inl e
      | inr (File _) => inl ENOTDIR
      | inr Dir =>
          if decide (qo = qn) then inr fs
          else
            match src, fs !! qn with
            | File data, Some Dir => inl EISDIR
            | File data, _ => inr (<[qn := File data]> (delete qo fs))
            | Dir, Some (File _) => inl ENOTDIR
            | Dir, _ =>
                if decide (below qo qn) then inl EINVAL
                else if decide (children fs qn = []) then
                  inr (move_tree qo qn (delete qn fs))
                else inl ENOTEMPTY
            end
      end
  end.

Definition rename (oldpath newpath : string) (w : World) : option error * World :=
  let fail e := (Some (LinkError "rename" oldpath newpath e), w) in
  if (oldpath =? "")%string || (newpath =? "")%string then fail ENOENT
  else
    match abspath w oldpath with
    | [] => fail EBUSY
    | qo =>
        match locate (files w) qo with
        | inl e => fail e
        | inr src =>
            match rename_at qo (abspath w newpath) src (files w) with
            | inl e => fail e
            | inr fs1 => (None, set_files fs1 w)
            end
        end
    end.

(** [os.Rename]: a new path that is an existing directory is refused
    before the system call, with the error of the old path if that one is
    not found, unless the two paths are two names of one directory. *)
Definition Rename (oldpath newpath : string) (w : World) : option error * World :=
  let fail e := (Some (LinkError "rename" oldpath newpath e), w) in
  match lookup_name w newpath with
  | inr Dir =>
      match lookup_name w oldpath with
      | inl e => fail e
      | inr _ =>
          if (newpath =? oldpath)%string
             || negb (bool_decide (abspath w oldpath = abspath w newpath))
          then fail EEXIST
          else rename oldpath newpath w
      end
  | _ => rename oldpath newpath w
  end.

(** [os.RemoveAll]: nothing to do for a path that does not exist; a path
    that ends in [.] is refused; one that ends in [..], and the root
    directory, are emptied but cannot be removed themselves. *)
Definition ends_with_dot (name : string) : bool :=
  match rev (list_ascii_of_string name) with
  | ["."%char] => true
  | "."%char :: c :: _ => filepath.is_sep c
  | _ => false
  end.

Definition remove_tree (q : list string) (fs : gmap (list string) node)
    : gmap (list string) node :=
  filter (λ kv : list string * node, ¬ below q (kv.1)) fs.

Definition ends_with_dotdot (name : string) : bool :=
  match rev (list_ascii_of_string name) with
  | a :: b :: before =>
      Ascii.eqb a "."%char && Ascii.eqb b "."%char
      && match before with
         | c :: _ => filepath.is_sep c
         | [] => true
         end
  | _ => false
  end.

Definition remove_below (q : list string) (fs : gmap (list string) node)
    : gmap (list string) node :=
  filter (λ kv : list string * node, ¬ (below q (kv.1) ∧ kv.1 ≠ q)) fs.

(** [splitPath] of the package: the directory and the last element of a
    path, after all but one leading separator and the trailing separators
    are dropped. The lists of the last two functions are reversed. *)
Fixpoint one_leading_sep (l : list ascii) : list ascii :=
  match l with
  | c :: ((d :: _) as l') =>
      if filepath.is_sep c && filepath.is_sep d then one_leading_sep l' else l
  | _ => l
  end.

Fixpoint no_trailing_sep (r : list ascii) : list ascii :=
  match r with
  | c :: ((_ :: _) as r') => if filepath.is_sep c then no_trailing_sep r' else r
  | _ => r
  end.

Fixpoint split_at_sep (r : list ascii) : list ascii * option (list ascii) :=
  match r with
  | [] => ([], None)
  | c :: r' =>
      if filepath.is_sep c then ([], Some r')
      else let '(b, d) := split_at_sep r' in (c :: b, d)
  end.

Definition splitPath (path : string) : string * string :=
  match no_trailing_sep (rev (one_leading_sep (list_ascii_of_string path))) with
  | [] => (".", "")
  | last :: rest =>
      let '(b, d) := split_at_sep rest in
      let base := string_of_list_ascii (rev (last :: b)) in
      match d with
      | None => (".", base)
      | Some [] => ("/", base)
      | Some d => (string_of_list_ascii (rev d), base)
      end
  end.

(** The path is removed from its parent directory, and an error of that
    step names the parent and the last element, joined again. *)
Definition RemoveAll (name : string) (w : World) : option error * World :=
  if (name =? "")%string then (None, w)
  else if ends_with_dot name then (Some (PathError "RemoveAll" name EINVAL), w)
  else
    let q := abspath w name in
    let '(parent, base) := splitPath name in
    let unlinkat e := PathError "unlinkat" (parent +:+ "/" +:+ base) e in
    match locate (files w) q with
    | inl ENOENT => (None, w)
    | inl e =>
        match lookup_name w parent with
        | inl ENOENT => (None, w)
        | inl e' => (Some (PathError "open" parent e'), w)
        | inr _ => (Some (unlinkat e), w)
        end
    | inr _ =>
        if ends_with_dotdot name then
          (Some (unlinkat ENOTEMPTY), set_files (remove_below q (files w)) w)
        else
          match q with
          | [] => (Some (unlinkat EBUSY), set_files (remove_tree q (files w)) w)
          | _ => (None, set_files (remove_tree q (files w)) w)
          end
    end.

End os.

(** ** [encoding/json] as an interface *)

(** The driver stores any value the codec accepts. [MarshalIndent v prefix
    indent] is the indented encoding or an error; [Unmarshal data target]
    decodes into the variable the caller passed and gives its new content. *)
Class Codec (value : Type) := {
  MarshalIndent : value → string → string → result string;
  Unmarshal : string → value → value * option error
}.

(** ** The logger, [github.com/jcelliott/lumber] *)

Record Logger := {
  Fatal : string → World → World;
  Error : string → World → World;
  Warn : string → World → World;
  Info : string → World → World;
  Debug : string → World → World;
  Trace : string → World → World
}.

Module lumber.
Inductive Level := TRACE | DEBUG | INFO | WARN | ERROR | FATAL.

Definition rank (l : Level) : nat :=
  match l with
  | TRACE => 0 | DEBUG => 1 | INFO => 2 | WARN => 3 | ERROR => 4 | FATAL => 5
  end.

(** A message is printed when its level is at least the logger's (the
    time stamp and the level tag of the printed line are left out). *)
Definition emit (threshold l : Level) (msg : string) (w : World) : World :=
  if Nat.leb (rank threshold) (rank l) then set_stdout (stdout w ++ [msg]) w else w.

Definition NewConsoleLogger (threshold : Level) : Logger :=
  {| Fatal := emit threshold FATAL; Error := emit threshold ERROR;
     Warn := emit threshold WARN; Info := emit threshold INFO;
     Debug := emit threshold DEBUG; Trace := emit threshold TRACE |}.
End lumber.

(** ** The driver *)

Definition Version : string := "1.0.1".

Record Options := { opt_Logger : option Logger }.

Record Driver := {
  mutex : sync.Mutex;                  (* declared, never locked *)
  mutexes : gmap string sync.Mutex;    (* collection name -> its mutex *)
  dir : string;
  log : Logger
}.

Definition set_mutexes (ms : gmap string sync.Mutex) (d : Driver) : Driver :=
  {| mutex := mutex d; mutexes := ms; dir := dir d; log := log d |}.

(** [New]: the driver is returned together with the error of the directory
    creation, if any. *)
Definition New (dir0 : string) (options : option Options) (w : World)
    : Driver * option error * World :=
  let dir1 := filepath.Clean dir0 in
  let opts := match options with
              | Some o => o
              | None => {| opt_Logger := None |}
              end in
  let logger := match opt_Logger opts with
                | Some l => l
                | None => lumber.NewConsoleLogger lumber.INFO
                end in
  let '(m, w1) := sync.new_Mutex w in
  let driver := {| mutex := m; mutexes := ∅; dir := dir1; log := logger |} in
  match os.Stat dir1 w1 with
  | Ok _ =>
      (driver, None,
       Debug logger ("Using '" +:+ dir1 +:+ "' (db already exists) " +:+ NL) w1)
  | Err _ =>
      let w2 := Debug logger ("Creating the db at '" +:+ dir1 +:+ "' ..." +:+ NL) w1 in
      let '(err, w3) := os.MkdirAll dir1 w2 in
      (driver, err, w3)
  end.

(** The methods of a driver run on the driver object and the process. A
    run that never returns (a lock that is never released) is [None]. *)
Record State := { drv : Driver; world : World }.

Definition M (A : Type) : Type := State → option (A * State).

Definition ret {A} (a : A) : M A := λ s, Some (a, s).

Definition bind {A B} (m : M A) (f : A → M B) : M B :=
  λ s, match m s with
       | Some (a, s1) => f a s1
       | None => None
       end.

Declare Scope go_scope.
Delimit Scope go_scope with go.
Notation "x <- m ;; k" := (bind m (λ x, k))
  (at level 100, m at next level, right associativity) : go_scope.
Notation "m ;;; k" := (bind m (λ _, k))
  (at level 100, right associativity) : go_scope.

(** A library call that reads the process, changes it, or may block. *)
Definition ask {A} (f : World → A) : M A :=
  λ s, Some (f (world s), s).
Definition sys {A} (f : World → A * World) : M A :=
  λ s, let '(a, w1) := f (world s) in Some (a, {| drv := drv s; world := w1 |}).
Definition run (f : World → World) : M unit :=
  λ s, Some (tt, {| drv := drv s; world := f (world s) |}).
Definition try (f : World → option World) : M unit :=
  λ s, match f (world s) with
       | Some w1 => Some (tt, {| drv := drv s; world := w1 |})
       | None => None
       end.

Definition get_drv : M Driver :=
  λ s, Some (drv s, s).
Definition modify_drv (f : Driver → Driver) : M unit :=
  λ s, Some (tt, {| drv := f (drv s); world := world s |}).

(** [defer cleanup] before [body]: the cleanup runs when the body returns. *)
Definition deferring {A} (cleanup : M unit) (body : M A) : M A :=
  (a <- body ;; cleanup ;;; ret a)%go.

Section driver.
Context {value : Type} `{!Codec value}.
Local Open Scope go_scope.

Definition getOrCreateMutex (collection : string) : M sync.Mutex :=
  d <- get_drv ;;
  match mutexes d !! collection with
  | Some m => ret m
  | None =>
      m <- sys sync.new_Mutex ;;
      modify_drv (λ d, set_mutexes (<[collection := m]> (mutexes d)) d) ;;;
      ret m
  end.

(** [stat]: the path, then the path with [.json]. An error of the first
    probe other than "does not exist" ends the search with no file
    information and no error. *)
Definition stat (path : string) : M (option os.FileInfo * option error) :=
  r <- ask (os.Stat path) ;;
  match r with
  | Ok fi => ret (Some fi, None)
  | Err err =>
      if os.IsNotExist err then
        r2 <- ask (os.Stat (path +:+ ".json")) ;;
        match r2 with
        | Err err2 =>
            run (fmt.Println ("stat func didnot find the path/path.json -> " +:+ path)) ;;;
            ret (None, Some err2)
        | Ok fi2 => ret (Some fi2, None)
        end
      else ret (None, None)
  end.

Definition Write (collection resource : string) (v : value) : M (option error) :=
  if (collection =? "")%string then
    ret (Some (Errorf "Missing collection - no place to save record!"))
  else if (resource =? "")%string then
    ret (Some (Errorf "Missing resource - no place to save record (no name)"))
  else
    mutex <- getOrCreateMutex collection ;;
    try (sync.Lock mutex) ;;;
    deferring (try (sync.Unlock mutex)) (
      d <- get_drv ;;
      let dir := filepath.Join [d.(dir); collection] in
      let fnlPath := filepath.Join [dir; resource +:+ ".json"] in
      let tmpPath := fnlPath +:+ ".tmp" in
      match MarshalIndent v "" TAB with
      | Err err =>
          run (fmt.Println ("err in write func" +:+ NL)) ;;;
          ret (Some err)
      | Ok b =>
          err <- sys (os.MkdirAll dir) ;;
          match err with
          | Some e =>
              run (fmt.Println ("err in write func while creating dir" +:+ NL)) ;;;
              ret (Some e)
          | None =>
              let b := b +:+ NL in
              err <- sys (os.WriteFile tmpPath b) ;;
              match err with
              | Some e =>
                  run (fmt.Println ("err in write func while writing onto tmpPath" +:+ NL)) ;;;
                  ret (Some e)
              | None => sys (os.Rename tmpPath fnlPath)
              end
          end
      end).

Definition Delete (collection resource : string) : M (option error) :=
  let path := filepath.Join [collection; resource] in
  mutex <- getOrCreateMutex collection ;;
  try (sync.Lock mutex) ;;;
  deferring (try (sync.Unlock mutex)) (
    d <- get_drv ;;
    let dir := filepath.Join [d.(dir); path] in
    r <- stat dir ;;
    match r with
    | (None, _) | (_, Some _) =>
        ret (Some (Errorf ("unable to find file/directory name " +:+ path)))
    | (Some fi, None) =>
        if os.IsDir (os.Mode fi) then sys (os.RemoveAll dir)
        else if os.IsRegular (os.Mode fi) then sys (os.RemoveAll (dir +:+ ".json"))
        else ret None
    end).

(** [Read] gives the content of the caller's variable [v] after the call,
    and the error. *)
Definition Read (collection resource : string) (v : value) : M (value * option error) :=
  if (collection =? "")%string then
    ret (v, Some (Errorf "Missing collection - no place to read record!"))
  else if (resource =? "")%string then
    ret (v, Some (Errorf "Missing resource - unable to read record (no name)"))
  else
    d <- get_drv ;;
    let record := filepath.Join [d.(dir); collection; resource] in
    r <- stat record ;;
    match snd r with
    | Some err => ret (v, Some err)
    | None =>
        b <- ask (os.ReadFile (record +:+ ".json")) ;;
        match b with
        | Err err => ret (v, Some err)
        | Ok b => ret (Unmarshal b v)
        end
    end.

(** The loop of [ReadAll]: the first failing read ends the call with no
    records. *)
Fixpoint ReadAll_loop (dir : string) (files : list string) (records : list string)
    : M (list string * option error) :=
  match files with
  | [] => ret (records, None)
  | file :: rest =>
      b <- ask (os.ReadFile (filepath.Join [dir; file])) ;;
      match b with
      | Err err => ret ([], Some err)
      | Ok b => ReadAll_loop dir rest (records ++ [b])
      end
  end.

Definition ReadAll (collection : string) : M (list string * option error) :=
  if (collection =? "")%string then
    ret ([], Some (Errorf "Missing collection!"))
  else
    d <- get_drv ;;
    let dir := filepath.Join [d.(dir); collection] in
    r <- stat dir ;;
    match snd r with
    | Some err => ret ([], Some err)
    | None =>
        files <- ask (os.ReadDir dir) ;;
        let files := match files with
                     | Ok names => names
                     | Err _ => []
                     end in
        ReadAll_loop dir files []
    end.

End driver.

(** ** Calls of [getOrCreateMutex] that interleave

    [getOrCreateMutex] takes no lock, so that the statements of two calls
    on the same driver can interleave. A call is at one of its statements;
    a schedule names the call that runs its next statement. *)

Inductive Call :=
  | AtLookup (collection : string)                  (* m, ok := d.mutexes[collection] *)
  | AtAlloc (collection : string)                   (* !ok: m = &sync.Mutex{} *)
  | AtStore (collection : string) (m : sync.Mutex)  (* d.mutexes[collection] = m *)
  | Returned (m : sync.Mutex).                      (* return m *)

Definition call_step (c : Call) (s : State) : Call * State :=
  match c with
  | AtLookup collection =>
      match mutexes (drv s) !! collection with
      | Some m => (Returned m, s)
      | None => (AtAlloc collection, s)
      end
  | AtAlloc collection =>
      let '(m, w1) := sync.new_Mutex (world s) in
      (AtStore collection m, {| drv := drv s; world := w1 |})
  | AtStore collection m =>
      (Returned m,
       {| drv := set_mutexes (<[collection := m]> (mutexes (drv s))) (drv s);
          world := world s |})
  | Returned m => (Returned m, s)
  end.

Fixpoint interleave (schedule : list nat) (calls : list Call) (s : State)
    : list Call * State :=
  match schedule with
  | [] => (calls, s)
  | i :: rest =>
      match calls !! i with
      | Some c =>
          let '(c1, s1) := call_step c s in
          interleave rest (<[i := c1]> calls) s1
      | None => interleave rest calls s
      end
  end.

(** ** A codec on JSON documents

    An instance of the interface, for running the driver: documents as
    trees, numbers as their literals (as [json.Number] holds them), object
    members in the order given. The encoder starts every element of an
    array or object on a new line, [prefix] then one [indent] for each
    level of nesting, as [json.MarshalIndent] does. Strings are taken as
    ASCII. *)

Module json.

#[local] Set Warnings "-register-all".

Inductive Value :=
  | Null
  | Bool (b : bool)
  | Number (lit : string)
  | Str (s : string)
  | Array (elems : list Value)
  | Object (members : list (string * Value)).

Definition is_digit (c : ascii) : bool :=
  let n := nat_of_ascii c in Nat.leb 48 n && Nat.leb n 57.

Fixpoint skip_digits (l : list ascii) : list ascii :=
  match l with
  | c :: l' => if is_digit c then skip_digits l' else l
  | [] => []
  end.

(** At least one digit, then the rest. *)
Definition digits1 (l : list ascii) : option (list ascii) :=
  match l with
  | c :: l' => if is_digit c then Some (skip_digits l') else None
  | [] => None
  end.

Definition int_part (l : list ascii) : option (list ascii) :=
  match l with
  | "0"%char :: l' => Some l'
  | _ => digits1 l
  end.

Definition frac_part (l : list ascii) : option (list ascii) :=
  match l with
  | "."%char :: l' => digits1 l'
  | _ => Some l
  end.

Definition exp_part (l : list ascii) : option (list ascii) :=
  match l with
  | "e"%char :: l' | "E"%char :: l' =>
      match l' with
      | "+"%char :: l'' | "-"%char :: l'' => digits1 l''
      | _ => digits1 l'
      end
  | _ => Some l
  end.

(** The end of the number literal a text starts with. *)
Definition number_end (l : list ascii) : option (list ascii) :=
  let l1 := match l with
            | "-"%char :: l' => l'
            | _ => l
            end in
  match int_part l1 with
  | Some l2 =>
      match frac_part l2 with
      | Some l3 => exp_part l3
      | None => None
      end
  | None => None
  end.

Definition valid_number (lit : string) : bool :=
  match number_end (list_ascii_of_string lit) with
  | Some [] => true
  | _ => false
  end.

Definition hex_digit (n : nat) : ascii :=
  ascii_of_nat (if Nat.ltb n 10 then 48 + n else 87 + n).

Definition hex_value (c : ascii) : option nat :=
  let n := nat_of_ascii c in
  if Nat.leb 48 n && Nat.leb n 57 then Some (n - 48)
  else if Nat.leb 97 n && Nat.leb n 102 then Some (n - 87)
  else if Nat.leb 65 n && Nat.leb n 70 then Some (n - 55)
  else None.

Definition escape (c : ascii) : string :=
  let n := nat_of_ascii c in
  let esc x := String "\"%char (String x "") in
  if Ascii.eqb c "034"%char then esc "034"%char
  else if Ascii.eqb c "\"%char then esc "\"%char
  else if Nat.eqb n 8 then esc "b"%char
  else if Nat.eqb n 12 then esc "f"%char
  else if Nat.eqb n 10 then esc "n"%char
  else if Nat.eqb n 13 then esc "r"%char
  else if Nat.eqb n 9 then esc "t"%char
  else if Nat.ltb n 32 || Ascii.eqb c "<"%char || Ascii.eqb c ">"%char
          || Ascii.eqb c "&"%char then
    "\u00" +:+ String (hex_digit (n / 16)) (String (hex_digit (n mod 16)) "")
  else String c "".

Fixpoint escape_all (s : string) : string :=
  match s with
  | EmptyString => ""
  | String c s' => escape c +:+ escape_all s'
  end.

Definition quote (s : string) : string :=
  String "034"%char (escape_all s +:+ String "034"%char "").

Fixpoint copies (n : nat) (s : string) : string :=
  match n with
  | 0 => ""
  | S n' => s +:+ copies n' s
  end.

Definition new_line (prefix indent : string) (depth : nat) : string :=
  NL +:+ prefix +:+ copies depth indent.

Fixpoint encode (prefix indent : string) (depth : nat) (v : Value) : option string :=
  match v with
  | Null => Some "null"
  | Bool b => Some (if b then "true" else "false")
  | Number lit =>
      if (lit =? "")%string then Some "0"
      else if valid_number lit then Some lit else None
  | Str s => Some (quote s)
  | Array elems =>
      let fix items (first : bool) (l : list Value) : option string :=
        match l with
        | [] => Some ""
        | x :: l' =>
            match encode prefix indent (S depth) x, items false l' with
            | Some sx, Some sl =>
                Some ((if first then "" else ",")
                      +:+ new_line prefix indent (S depth) +:+ sx +:+ sl)
            | _, _ => None
            end
        end in
      match elems with
      | [] => Some "[]"
      | _ =>
          match items true elems with
          | Some body => Some ("[" +:+ body +:+ new_line prefix indent depth +:+ "]")
          | None => None
          end
      end
  | Object members =>
      let fix items (first : bool) (l : list (string * Value)) : option string :=
        match l with
        | [] => Some ""
        | (k, x) :: l' =>
            match encode prefix indent (S depth) x, items false l' with
            | Some sx, Some sl =>
                Some ((if first then "" else ",")
                      +:+ new_line prefix indent (S depth)
                      +:+ quote k +:+ ": " +:+ sx +:+ sl)
            | _, _ => None
            end
        end in
      match members with
      | [] => Some "{}"
      | _ =>
          match items true members with
          | Some body => Some ("{" +:+ body +:+ new_line prefix indent depth +:+ "}")
          | None => None
          end
      end
  end.

(** The number literal the encoder stops at: the first one, in the order
    of the encoding, that is not a number. *)
Fixpoint invalid_number (v : Value) : option string :=
  match v with
  | Number lit =>
      if (lit =? "")%string || valid_number lit then None else Some lit
  | Array elems =>
      (fix first (l : list Value) : option string :=
         match l with
         | [] => None
         | x :: l' =>
             match invalid_number x with
             | Some lit => Some lit
             | None => first l'
             end
         end) elems
  | Object members =>
      (fix first (l : list (string * Value)) : option string :=
         match l with
         | [] => None
         | (_, x) :: l' =>
             match invalid_number x with
             | Some lit => Some lit
             | None => first l'
             end
         end) members
  | _ => None
  end.

(** [strconv.Quote] on ASCII text, which [%q] applies to the literal in the
    error. *)
Definition go_escape (c : ascii) : string :=
  let n := nat_of_ascii c in
  let esc x := String "\"%char (String x "") in
  if Ascii.eqb c "034"%char then esc "034"%char
  else if Ascii.eqb c "\"%char then esc "\"%char
  else if Nat.eqb n 7 then esc "a"%char
  else if Nat.eqb n 8 then esc "b"%char
  else if Nat.eqb n 12 then esc "f"%char
  else if Nat.eqb n 10 then esc "n"%char
  else if Nat.eqb n 13 then esc "r"%char
  else if Nat.eqb n 9 then esc "t"%char
  else if Nat.eqb n 11 then esc "v"%char
  else if Nat.ltb n 32 || Nat.eqb n 127 then
    "\x" +:+ String (hex_digit (n / 16)) (String (hex_digit (n mod 16)) "")
  else String c "".

Fixpoint go_quote_all (s : string) : string :=
  match s with
  | EmptyString => ""
  | String c s' => go_escape c +:+ go_quote_all s'
  end.

Definition go_quote (s : string) : string :=
  String "034"%char (go_quote_all s +:+ String "034"%char "").

Definition MarshalIndent (v : Value) (prefix indent : string) : result string :=
  match encode prefix indent 0 v with
  | Some b => Ok b
  | None =>
      Err (CodecError ("json: invalid number literal "
                       +:+ go_quote (default "" (invalid_number v))))
  end.

(** The decoder. *)
Definition is_space (c : ascii) : bool :=
  let n := nat_of_ascii c in
  Nat.eqb n 32 || Nat.eqb n 9 || Nat.eqb n 10 || Nat.eqb n 13.

Fixpoint skip_space (l : list ascii) : list ascii :=
  match l with
  | c :: l' => if is_space c then skip_space l' else l
  | [] => []
  end.

(** The text after an opening quote, up to the closing one. *)
Fixpoint parse_string (l : list ascii) : option (string * list ascii) :=
  match l with
  | [] => None
  | c :: l' =>
      if Ascii.eqb c "034"%char then Some ("", l')
      else if Ascii.eqb c "\"%char then
        match l' with
        | "u"%char :: "0"%char :: "0"%char :: h :: k :: l'' =>
            match hex_value h, hex_value k, parse_string l'' with
            | Some a, Some b, Some (s, r) => Some (String (ascii_of_nat (16 * a + b)) s, r)
            | _, _, _ => None
            end
        | e :: l'' =>
            let plain x := match parse_string l'' with
                           | Some (s, r) => Some (String x s, r)
                           | None => None
                           end in
            if Ascii.eqb e "n"%char then plain (ascii_of_nat 10)
            else if Ascii.eqb e "r"%char then plain (ascii_of_nat 13)
            else if Ascii.eqb e "t"%char then plain (ascii_of_nat 9)
            else if Ascii.eqb e "b"%char then plain (ascii_of_nat 8)
            else if Ascii.eqb e "f"%char then plain (ascii_of_nat 12)
            else if Ascii.eqb e "034"%char || Ascii.eqb e "\"%char || Ascii.eqb e "/"%char
            then plain e
            else None
        | [] => None
        end
      else if Nat.ltb (nat_of_ascii c) 32 then None
      else match parse_string l' with
           | Some (s, r) => Some (String c s, r)
           | None => None
           end
  end.

Definition parse_number (l : list ascii) : option (Value * list ascii) :=
  match number_end l with
  | Some r =>
      Some (Number (string_of_list_ascii (take (length l - length r) l)), r)
  | None => None
  end.

Definition parse_literal (word : string) (v : Value) (l : list ascii)
    : option (Value * list ascii) :=
  let n := String.length word in
  if (string_of_list_ascii (take n l) =? word)%string then Some (v, drop n l) else None.

Fixpoint parse_value (fuel : nat) (l : list ascii) : option (Value * list ascii) :=
  match fuel with
  | 0 => None
  | S fuel' =>
      match skip_space l with
      | [] => None
      | c :: l' =>
          if Ascii.eqb c "034"%char then
            match parse_string l' with
            | Some (s, r) => Some (Str s, r)
            | None => None
            end
          else if Ascii.eqb c "["%char then
            match skip_space l' with
            | "]"%char :: r => Some (Array [], r)
            | _ =>
                match parse_elems fuel' l' with
                | Some (vs, r) => Some (Array vs, r)
                | None => None
                end
            end
          else if Ascii.eqb c "{"%char then
            match skip_space l' with
            | "}"%char :: r => Some (Object [], r)
            | _ =>
                match parse_members fuel' l' with
                | Some (ms, r) => Some (Object ms, r)
                | None => None
                end
            end
          else if Ascii.eqb c "n"%char then parse_literal "null" Null (c :: l')
          else if Ascii.eqb c "t"%char then parse_literal "true" (Bool true) (c :: l')
          else if Ascii.eqb c "f"%char then parse_literal "false" (Bool false) (c :: l')
          else parse_number (c :: l')
      end
  end
with parse_elems (fuel : nat) (l : list ascii) : option (list Value * list ascii) :=
  match fuel with
  | 0 => None
  | S fuel' =>
      match parse_value fuel' l with
      | Some (v, r) =>
          match skip_space r with
          | ","%char :: r' =>
              match parse_elems fuel' r' with
              | Some (vs, r'') => Some (v :: vs, r'')
              | None => None
              end
          | "]"%char :: r' => Some ([v], r')
          | _ => None
          end
      | None => None
      end
  end
with parse_members (fuel : nat) (l : list ascii)
    : option (list (string * Value) * list ascii) :=
  match fuel with
  | 0 => None
  | S fuel' =>
      match skip_space l with
      | "034"%char :: l' =>
          match parse_string l' with
          | Some (k, r) =>
              match skip_space r with
              | ":"%char :: r' =>
                  match parse_value fuel' r' with
                  | Some (v, r'') =>
                      match skip_space r'' with
                      | ","%char :: r3 =>
                          match parse_members fuel' r3 with
                          | Some (ms, r4) => Some ((k, v) :: ms, r4)
                          | None => None
                          end
                      | "}"%char :: r3 => Some ([(k, v)], r3)
                      | _ => None
                      end
                  | None => None
                  end
              | _ => None
              end
          | None => None
          end
      | _ => None
      end
  end.

(** Decoding replaces the content of the target; on an error the target
    keeps what it had. The text of a syntax error, which in Go tells the
    byte the decoder stopped at and what it was looking for, is not
    modelled: the message here only tells the two ways to fail apart. *)
Definition Unmarshal (data : string) (target : Value) : Value * option error :=
  let l := list_ascii_of_string data in
  match parse_value (S (length l)) l with
  | Some (v, r) =>
      match skip_space r with
      | [] => (v, None)
      | _ => (target, Some (CodecError "syntax error: text after the value"))
      end
  | None => (target, Some (CodecError "syntax error: no value"))
  end.

End json.

#[export] Instance json_codec : Codec json.Value :=
  {| MarshalIndent := json.MarshalIndent; Unmarshal := json.Unmarshal |}.

(** The records of the demonstration in [main]. *)
Record Address := { City : string; State_ : string; Country : string; Pincode : string }.
Record User := {
  Name : string; Age : string; Contact : string; Company : string; Address_ : Address
}.

Definition Address_json (a : Address) : json.Value :=
  json.Object [("City", json.Str (City a)); ("State", json.Str (State_ a));
               ("Country", json.Str (Country a)); ("Pincode", json.Number (Pincode a))].

Definition User_json (u : User) : json.Value :=
  json.Object [("Name", json.Str (Name u)); ("Age", json.Number (Age u));
               ("Contact", json.Str (Contact u)); ("Company", json.Str (Company u));
               ("Address", Address_json (Address_ u))].

Definition Ashlie : User :=
  {| Name := "Ashlie"; Age := "23"; Contact := "6006567434"; Company := "Axis Bank";
     Address_ := {| City := "New Delhi"; State_ := "Delhi"; Country := "India";
                    Pincode := "781994" |} |}.

(** ** Notions used in the statements *)

Import filepath.

Implicit Types (fs : gmap (list string) node) (q k : list string).

Definition child (a n : string) : string :=
  if (a =? ".")%string then n
  else if (a =? "/")%string then "/" +:+ n
  else a +:+ "/" +:+ n.

Definition elem_ok (e : string) : Prop := no_sep e = true ∧ e ≠ "" ∧ e ≠ ".".

Definition walk_kept (start kept : list string) : list string :=
  fold_right (λ e cur, os.walk_step cur e) start kept.

(** [mkdir_all] only adds directories, on the way to [q], where there was
    nothing. *)
Definition grows (q : list string) fs fs' : Prop :=
  ∀ k, fs' !! k = fs !! k ∨ (fs !! k = None ∧ fs' !! k = Some Dir ∧ k `suffix_of` q).

(** Well-formed trees: every entry lies in a directory. *)
Definition wf_entry fs (k : list string) : bool :=
  match k with
  | _ :: ((_ :: _) as p) =>
      match fs !! p with
      | Some Dir => true
      | _ => false
      end
  | _ => true
  end.

Definition wf_files fs : bool := forallb (wf_entry fs) (map_to_list fs).*1.

Definition in_dirs fs : Prop :=
  ∀ n p x, fs !! (n :: p) = Some x → p = [] ∨ fs !! p = Some Dir.

(** Two worlds with the same tree: same entries, same working directory. *)
Definition same_tree (w w' : World) : Prop := files w' = files w ∧ cwd w' = cwd w.

Definition release (m : sync.Mutex) (s : State) : State :=
  {| drv := drv s; world := set_held (held (world s) ∖ {[m]}) (world s) |}.

(** The dual probe of [stat] on the tree. *)
Definition probe (p : string) (w : World) : option os.FileInfo * option error :=
  match os.Stat p w with
  | Ok fi => (Some fi, None)
  | Err e1 =>
      if os.IsNotExist e1 then
        match os.Stat (p +:+ ".json") w with
        | Ok fi => (Some fi, None)
        | Err e2 => (None, Some e2)
        end
      else (None, None)
  end.

(** The bytes a reader of [name] gets, if any. *)
Definition file_of (r : Errno + node) : option string :=
  match r with
  | inr (File data) => Some data
  | _ => None
  end.

Definition contents (name : string) (w : World) : option string :=
  file_of (os.lookup_name w name).

Definition fits (data : string) (w : World) : Prop :=
  match space w with
  | Some n => (String.length data ≤ n)%nat
  | None => True
  end.

Definition is_dir (name : string) (w : World) : bool :=
  match os.lookup_name w name with
  | inr Dir => true
  | _ => false
  end.

Definition is_file (name : string) (w : World) : bool :=
  match os.lookup_name w name with
  | inr (File _) => true
  | _ => false
  end.

Definition absent (name : string) (w : World) : bool :=
  match os.Stat name w with
  | Err e => os.IsNotExist e
  | Ok _ => false
  end.

(** Taking the lock of a collection, as [Write] and [Delete] start. *)
Definition acquire (c : string) : M sync.Mutex :=
  (mutex <- getOrCreateMutex c ;; try (sync.Lock mutex) ;;; ret mutex)%go.

(** The second world is the first one with more lines printed. *)
Definition only_prints (w w' : World) : Prop :=
  ∃ lines, w' = set_stdout (stdout w ++ lines) w.

(** A logger whose [Debug] prints, or not, and does nothing else; the
    console logger that [New] takes when it is given none is one. *)
Definition quiet (l : Logger) : Prop :=
  ∀ msg w, ∃ out, Debug l msg w = set_stdout out w.

Definition quiet_options (options : option Options) : Prop :=
  match options with
  | Some {| opt_Logger := Some l |} => quiet l
  | _ => True
  end.

(** The registry holds mutexes that were allocated, a different one for
    every name. *)
Definition registry_ok (s : State) : Prop :=
  (∀ c m, mutexes (drv s) !! c = Some m → (m < next_mutex (world s))%nat)
  ∧ (∀ c1 c2 m, mutexes (drv s) !! c1 = Some m → mutexes (drv s) !! c2 = Some m → c1 = c2).

(** The elements of a cleaned path, the last one first: ordinary elements,
    and [..] only at the start of a relative path. *)
Fixpoint canonical (r : bool) (kept : list string) : Prop :=
  match kept with
  | [] => True
  | e :: rest =>
      elem_ok e ∧ canonical r rest
      ∧ (e = ".." → r = false ∧ (rest = [] ∨ ∃ rest', rest = ".." :: rest'))
  end.

(** ** States of the demonstration in [main]

    The process runs in [/home/demo]; the store is opened at [./] as [main]
    does, and at [db]. *)

Definition demo_world : World :=
  {| files := <[ ["demo"; "home"] := Dir ]> (<[ ["home"] := Dir ]> ∅);
     cwd := ["demo"; "home"]; space := None; stdout := [];
     held := ∅; next_mutex := 0 |}.

Definition open_store (dir0 : string) (w : World) : State :=
  let '(d, _, w1) := New dir0 None w in {| drv := d; world := w1 |}.

(** The state after a call that returns. *)
Definition after {A} (m : M A) (s : State) : State :=
  match m s with
  | Some (_, s1) => s1
  | None => s
  end.

Definition demo_store : State := open_store "./" demo_world.

Definition demo_users : State :=
  after (Write "users" "Ashlie" (User_json Ashlie)) demo_store.

(** The same store opened at [db]. *)
Definition demo_db : State :=
  after (Write "users" "Ashlie" (User_json Ashlie)) (open_store "db" demo_world).

(** A store whose collection [users] also holds a directory. *)
Definition demo_nested : State :=
  after (Write "users/archive" "Paul" (json.Str "Paul")) demo_users.

(** A state whose device accepts [n] more bytes. *)
Definition short_of_space (n : nat) (s : State) : State :=
  {| drv := drv s; world := set_space (Some n) (world s) |}.

(** The encoding [Write] asks the codec for. *)
Definition encoded {value : Type} `{!Codec value} (v : value) : string :=
  match MarshalIndent v "" TAB with
  | Ok b => b
  | Err _ => ""
  end.

(** The state with the mutex of a collection held by somebody else. *)
Definition hold (c : string) (s : State) : State :=
  match mutexes (drv s) !! c with
  | Some m => {| drv := drv s; world := set_held ({[m]} ∪ held (world s)) (world s) |}
  | None => s
  end.

(** A state whose device has room again. *)
Definition with_room (s : State) : State :=
  {| drv := drv s; world := set_space None (world s) |}.

(** A store where the name [Ashlie] of [users] is a record and a
    directory. *)
Definition demo_clash : State :=
  after (Write "users/Ashlie" "notes" (json.Str "n")) demo_users.

(** A store where a write was cut short and has left its temporary file. *)
Definition demo_debris : State :=
  with_room (after (Write "users" "Ashlie" (json.Str "a longer record"))
               (short_of_space 10 demo_users)).


(** * Properties *)

Lemma split_cons_sep s : split (String "/" s) = "" :: split s.
Proof. unfold split. simpl. destruct (split_first s). reflexivity. Qed.

Lemma split_cons_other c s :
  is_sep c = false →
  split (String c s) = match split s with h :: t => String c h :: t | [] => [] end.
Proof. intros H. unfold split. simpl. destruct (split_first s). rewrite H. reflexivity. Qed.

Lemma split_nonnil s : split s ≠ [].
Proof. unfold split. destruct (split_first s). discriminate. Qed.

Lemma is_sep_true c : is_sep c = true → c = "/"%char.
Proof. unfold is_sep. intros H. by apply Ascii.eqb_eq in H. Qed.

Lemma app_String c a b : String c a +:+ b = String c (a +:+ b).
Proof. reflexivity. Qed.

Lemma app_empty b : "" +:+ b = b.
Proof. reflexivity. Qed.

Lemma split_app a b : split (a +:+ "/" +:+ b) = (split a ++ split b)%list.
Proof.
  induction a as [|c a IH].
  - rewrite app_empty, app_String, app_empty. apply split_cons_sep.
  - rewrite app_String. destruct (is_sep c) eqn:Hc.
    + apply is_sep_true in Hc. subst c. rewrite !split_cons_sep. by rewrite IH.
    + rewrite !split_cons_other by done. rewrite IH.
      destruct (split a) eqn:Ha; [by apply split_nonnil in Ha|]. reflexivity.
Qed.

Lemma split_no_sep n : no_sep n = true → split n = [n].
Proof.
  unfold no_sep. induction n as [|c n IH]; [done|].
  cbn [list_ascii_of_string forallb].
  intros H. apply andb_true_iff in H as [Hc Hn]. apply negb_true_iff in Hc.
  rewrite split_cons_other by done. by rewrite IH.
Qed.

Lemma no_sep_app a b : no_sep (a +:+ b) = no_sep a && no_sep b.
Proof.
  unfold no_sep. induction a as [|c a IH]; [done|].
  rewrite app_String. cbn [list_ascii_of_string forallb].
  by rewrite IH, andb_assoc.
Qed.

Lemma split_all_no_sep s : Forall (λ e, no_sep e = true) (split s).
Proof.
  induction s as [|c s IH].
  - by repeat constructor.
  - destruct (is_sep c) eqn:Hc.
    + apply is_sep_true in Hc. subst c. rewrite split_cons_sep. by constructor.
    + rewrite split_cons_other by done.
      destruct (split s) eqn:Hs; [constructor|].
      inversion IH; subst. constructor; [|done].
      unfold no_sep in *. simpl. by rewrite Hc.
Qed.

Lemma join_cons e l : l ≠ [] → join (e :: l) = e +:+ "/" +:+ join l.
Proof. destruct l; [done|]. reflexivity. Qed.

Lemma split_join l :
  l ≠ [] → Forall (λ e, no_sep e = true) l → split (join l) = l.
Proof.
  induction l as [|e l IH]; [done|]. intros _ H. inversion H; subst.
  destruct l as [|e' l'].
  - simpl. by apply split_no_sep.
  - rewrite join_cons by done. rewrite split_app, IH by done.
    by rewrite split_no_sep.
Qed.

Lemma string_app_assoc (a b c : string) : (a +:+ b) +:+ c = a +:+ (b +:+ c).
Proof. induction a; rewrite ?app_String, ?app_empty; congruence. Qed.

Lemma string_app_nil_r (a : string) : a +:+ "" = a.
Proof. induction a; rewrite ?app_String, ?app_empty; congruence. Qed.

Lemma join_snoc l n : l ≠ [] → join (l ++ [n])%list = join l +:+ "/" +:+ n.
Proof.
  induction l as [|e l IH]; [done|]. intros _.
  destruct l as [|e' l'].
  - reflexivity.
  - change ((e :: e' :: l') ++ [n])%list with (e :: ((e' :: l') ++ [n]))%list.
    rewrite join_cons by (cbn; done). rewrite IH by done.
    rewrite (join_cons e (e' :: l')) by done. by rewrite !string_app_assoc.
Qed.

Lemma rooted_app x y : x ≠ "" → rooted (x +:+ y) = rooted x.
Proof. by destruct x. Qed.

Lemma plain_spec n :
  plain n = true ↔ no_sep n = true ∧ n ≠ "" ∧ n ≠ "." ∧ n ≠ "..".
Proof.
  unfold plain. rewrite !andb_true_iff, !negb_true_iff, !String.eqb_neq. tauto.
Qed.

Lemma clean_step_plain r kept n : plain n = true → clean_step r kept n = n :: kept.
Proof.
  intros (_ & H1 & H2 & H3)%plain_spec. unfold clean_step.
  apply String.eqb_neq in H1, H2, H3. by rewrite H1, H2, H3.
Qed.

Lemma clean_step_ok r kept e :
  no_sep e = true → Forall elem_ok kept → Forall elem_ok (clean_step r kept e).
Proof.
  intros He Hk. unfold clean_step.
  destruct (String.eqb_spec e ""); [done|].
  destruct (String.eqb_spec e "."); [done|]. cbn [orb].
  assert (elem_ok e) by done.
  destruct (String.eqb_spec e "..").
  - destruct kept as [|top rest].
    + destruct r; [done|]. by constructor.
    + destruct (top =? "..")%string.
      * by constructor.
      * by inversion Hk.
  - by constructor.
Qed.

Lemma fold_clean_ok r l kept :
  Forall (λ e, no_sep e = true) l → Forall elem_ok kept →
  Forall elem_ok (fold_left (clean_step r) l kept).
Proof.
  revert kept. induction l as [|e l IH]; intros kept Hl Hk; [done|].
  inversion Hl; subst. cbn [fold_left]. apply IH; [done|]. by apply clean_step_ok.
Qed.

Lemma clean_elems_ok r x : Forall elem_ok (clean_elems r (split x)).
Proof. apply fold_clean_ok; [apply split_all_no_sep | constructor]. Qed.

Lemma clean_elems_snoc r l n :
  plain n = true → clean_elems r (l ++ [n]) = n :: clean_elems r l.
Proof.
  intros Hn. unfold clean_elems. rewrite fold_left_app. cbn [fold_left].
  by apply clean_step_plain.
Qed.

Lemma split_join_rev kept :
  kept ≠ [] → Forall elem_ok kept → split (join (rev kept)) = rev kept.
Proof.
  intros Hne Hk. apply split_join.
  - intros H. apply (f_equal (@length _)) in H. rewrite length_rev in H.
    by destruct kept.
  - apply Forall_rev. eapply Forall_impl; [exact Hk|]. by intros e [? _].
Qed.

Lemma Forall_Exists_not {A} (P : A → Prop) l :
  Forall P l → Exists (λ x, ¬ P x) l → False.
Proof.
  intros HF HE. induction HE as [x l Hbad|x l _ IH]; inversion HF; subst; auto.
Qed.

Lemma join_rev_not kept s :
  kept ≠ [] → Forall elem_ok kept → Exists (λ e, ¬ elem_ok e) (split s) →
  join (rev kept) ≠ s.
Proof.
  intros Hne Hk Hs Heq. rewrite <- Heq, split_join_rev in Hs by done.
  apply Forall_rev in Hk. eapply Forall_Exists_not; [exact Hk | exact Hs].
Qed.

Lemma render_cons r kept n :
  Forall elem_ok kept → plain n = true →
  render r (n :: kept) = child (render r kept) n.
Proof.
  intros Hk Hn. unfold render. cbn [rev].
  destruct kept as [|e kept'].
  - destruct r; reflexivity.
  - set (k := e :: kept') in *.
    assert (Hne : k ≠ []) by done.
    assert (Hr : rev k ≠ []).
    { intros H. apply (f_equal (@length _)) in H. by rewrite length_rev in H. }
    rewrite join_snoc by done.
    assert (H1 : join (rev k) ≠ ".").
    { apply join_rev_not; [done..|]. apply Exists_cons_hd. by intros (_ & _ & ?). }
    assert (H2 : join (rev k) ≠ "/").
    { apply join_rev_not; [done..|]. apply Exists_cons_hd. by intros (_ & ? & _). }
    assert (H3 : join (rev k) ≠ "").
    { apply join_rev_not; [done..|]. apply Exists_cons_hd. by intros (_ & ? & _). }
    unfold child. destruct r.
    + destruct (String.eqb_spec ("/" +:+ join (rev k)) "."); [done|].
      destruct (String.eqb_spec ("/" +:+ join (rev k)) "/") as [Heq|_].
      * exfalso. apply H3. rewrite app_String, app_empty in Heq. congruence.
      * by rewrite !string_app_assoc.
    + subst k. destruct (String.eqb_spec (join (rev (e :: kept'))) "."); [done|].
      by destruct (String.eqb_spec (join (rev (e :: kept'))) "/").
Qed.

Lemma app_not_empty (x y : string) : x ≠ "" → x +:+ y ≠ "".
Proof. by destruct x. Qed.

Lemma Clean_child x n :
  x ≠ "" → plain n = true → Clean (x +:+ "/" +:+ n) = child (Clean x) n.
Proof.
  intros Hx Hn. unfold Clean.
  destruct (String.eqb_spec (x +:+ "/" +:+ n) "") as [H|_];
    [by apply app_not_empty in H|].
  destruct (String.eqb_spec x ""); [done|].
  rewrite rooted_app by done. rewrite split_app.
  rewrite (split_no_sep n) by (by apply plain_spec in Hn as [? _]).
  rewrite clean_elems_snoc by done.
  apply render_cons; [apply clean_elems_ok | done].
Qed.

Lemma Clean_not_empty x : Clean x ≠ "".
Proof.
  unfold Clean. destruct (x =? "")%string; [done|].
  unfold render. destruct (rooted x); [done|].
  destruct (clean_elems false (split x)) as [|e k] eqn:Hk; [done|].
  pose proof (clean_elems_ok false x) as Hok. rewrite Hk in Hok.
  apply join_rev_not; [done..|]. apply Exists_cons_hd. by intros (_ & ? & _).
Qed.

(** *** Locations of cleaned paths *)

Lemma fold_walk_rev l start :
  fold_left os.walk_step l start = walk_kept start (rev l).
Proof. unfold walk_kept. by rewrite fold_left_rev_right. Qed.

Lemma walk_step_ok cur e : elem_ok e → e ≠ ".." → os.walk_step cur e = e :: cur.
Proof.
  intros (_ & H1 & H2) H3. unfold os.walk_step.
  apply String.eqb_neq in H1, H2, H3. by rewrite H1, H2, H3.
Qed.

Lemma walk_kept_cons start kept e :
  walk_kept start (e :: kept) = os.walk_step (walk_kept start kept) e.
Proof. reflexivity. Qed.

Lemma walk_clean_step r start kept e :
  (r = true → start = []) → Forall elem_ok kept →
  os.walk_step (walk_kept start kept) e = walk_kept start (clean_step r kept e).
Proof.
  intros Hr Hk. unfold clean_step.
  destruct (String.eqb_spec e "") as [->|]; [done|].
  destruct (String.eqb_spec e ".") as [->|]; [done|]. cbn [orb].
  destruct (String.eqb_spec e "..") as [->|]; [|done].
  destruct kept as [|top rest].
  - destruct r; [by rewrite Hr|done].
  - destruct (String.eqb_spec top ".."); [done|].
    inversion Hk; subst. rewrite walk_kept_cons, (walk_step_ok _ top) by done.
    reflexivity.
Qed.

Lemma walk_clean r start l kept :
  (r = true → start = []) → Forall (λ e, no_sep e = true) l → Forall elem_ok kept →
  fold_left os.walk_step l (walk_kept start kept)
  = walk_kept start (fold_left (clean_step r) l kept).
Proof.
  intros Hr. revert kept. induction l as [|e l IH]; intros kept Hl Hk; [done|].
  inversion Hl; subst. cbn [fold_left].
  rewrite (walk_clean_step r) by done. apply IH; [done|]. by apply clean_step_ok.
Qed.

Lemma rooted_elem_ok e y : elem_ok e → rooted (e +:+ y) = false.
Proof.
  intros (H1 & H2 & _). destruct e as [|c e]; [done|].
  unfold no_sep in H1. cbn [list_ascii_of_string forallb] in H1.
  apply andb_true_iff in H1 as [H1 _]. apply negb_true_iff in H1. done.
Qed.

Lemma rooted_join l : l ≠ [] → Forall elem_ok l → rooted (join l) = false.
Proof.
  destruct l as [|e l]; [done|]. intros _ H. inversion H; subst.
  destruct l.
  - rewrite <- (string_app_nil_r e). by apply rooted_elem_ok.
  - rewrite join_cons by done. by apply rooted_elem_ok.
Qed.

Lemma rev_not_nil {A} (l : list A) : l ≠ [] → rev l ≠ [].
Proof.
  intros Hl H. apply (f_equal (@length _)) in H. rewrite length_rev in H. by destruct l.
Qed.

Lemma rooted_render r kept : Forall elem_ok kept → rooted (render r kept) = r.
Proof.
  intros Hk. unfold render. destruct r; [done|].
  destruct kept as [|e k]; [done|].
  apply rooted_join; [by apply rev_not_nil | by apply Forall_rev].
Qed.

Lemma walk_render r start kept :
  Forall elem_ok kept →
  fold_left os.walk_step (split (render r kept)) start = walk_kept start kept.
Proof.
  intros Hk. unfold render. destruct kept as [|e k].
  - by destruct r.
  - destruct r.
    + rewrite app_String, app_empty, split_cons_sep, split_join_rev by done.
      cbn [fold_left]. change (os.walk_step start "") with start.
      by rewrite fold_walk_rev, rev_involutive.
    + rewrite split_join_rev by done. by rewrite fold_walk_rev, rev_involutive.
Qed.

Lemma abspath_Clean w x : x ≠ "" → os.abspath w (Clean x) = os.abspath w x.
Proof.
  intros Hx. unfold os.abspath, Clean.
  destruct (String.eqb_spec x ""); [done|].
  pose proof (clean_elems_ok (rooted x) x) as Hok.
  rewrite rooted_render, walk_render by done.
  set (start := if rooted x then [] else cwd w).
  change start with (walk_kept start []) at 2.
  rewrite (walk_clean (rooted x)); [done| |apply split_all_no_sep|constructor].
  subst start. by intros ->.
Qed.

Lemma abspath_app w x n :
  x ≠ "" → plain n = true → os.abspath w (x +:+ "/" +:+ n) = n :: os.abspath w x.
Proof.
  intros Hx Hn. unfold os.abspath.
  rewrite rooted_app by done. rewrite split_app.
  rewrite (split_no_sep n) by (by apply plain_spec in Hn as [? _]).
  rewrite fold_left_app. cbn [fold_left].
  apply plain_spec in Hn as (? & ? & ? & ?). by apply walk_step_ok.
Qed.

Lemma abspath_child w x n :
  x ≠ "" → plain n = true → os.abspath w (child (Clean x) n) = n :: os.abspath w x.
Proof.
  intros Hx Hn. rewrite <- Clean_child by done.
  rewrite abspath_Clean by (by apply app_not_empty). by apply abspath_app.
Qed.

Lemma child_app a n sfx : child a n +:+ sfx = child a (n +:+ sfx).
Proof.
  unfold child. destruct (a =? ".")%string; [done|].
  destruct (a =? "/")%string; by rewrite ?string_app_assoc.
Qed.

Lemma locate_ext fs1 fs2 k :
  (∀ k', k' `suffix_of` k → k' ≠ [] → fs1 !! k' = fs2 !! k') →
  os.locate fs1 k = os.locate fs2 k.
Proof.
  induction k as [|n p IH]; intros H; [done|].
  cbn [os.locate]. rewrite IH.
  - rewrite (H (n :: p)); [done|done|done].
  - intros k' Hk' ?. apply H; [|done]. by apply suffix_cons_r.
Qed.

Lemma suffix_cons_cases q n p : q `suffix_of` n :: p → q = n :: p ∨ q `suffix_of` p.
Proof.
  intros [[|? k] E]; [by left|]. right. simplify_eq/=. by apply suffix_app_r.
Qed.

Lemma locate_insert_other fs q x k :
  ¬ q `suffix_of` k → os.locate (<[q := x]> fs) k = os.locate fs k.
Proof.
  intros H. apply locate_ext. intros k' Hk' _.
  apply lookup_insert_ne. by intros ->.
Qed.

Lemma locate_delete_other fs q k :
  ¬ q `suffix_of` k → os.locate (delete q fs) k = os.locate fs k.
Proof.
  intros H. apply locate_ext. intros k' Hk' _.
  apply lookup_delete_ne. by intros ->.
Qed.

Lemma locate_cons_inv fs n p x :
  os.locate fs (n :: p) = inr x → os.locate fs p = inr Dir ∧ fs !! (n :: p) = Some x.
Proof.
  cbn [os.locate]. destruct (os.locate fs p) as [e|[d|]]; [done..|].
  destruct (fs !! (n :: p)); [|done]. by intros [= ->].
Qed.

Lemma locate_cons fs n p :
  os.locate fs p = inr Dir →
  os.locate fs (n :: p) = match fs !! (n :: p) with Some x => inr x | None => inl ENOENT end.
Proof. intros H. cbn [os.locate]. by rewrite H. Qed.

(** Every directory on the way to an entry is a directory. *)
Lemma locate_through fs k x q :
  os.locate fs k = inr x → q `suffix_of` k → q ≠ k → os.locate fs q = inr Dir.
Proof.
  revert x. induction k as [|n p IH]; intros x Hk Hq Hne.
  - apply suffix_nil_inv in Hq. done.
  - apply locate_cons_inv in Hk as [Hp _].
    apply suffix_cons_cases in Hq as [->|Hq]; [done|].
    destruct (decide (q = p)) as [->|]; [done|]. by eapply IH.
Qed.

Lemma locate_file_not_above fs q d k x :
  os.locate fs q = inr (File d) → os.locate fs k = inr x → q `suffix_of` k → q = k.
Proof.
  intros Hq Hk Hs. destruct (decide (q = k)); [done|].
  rewrite (locate_through fs k x q) in Hq by done. done.
Qed.

Lemma locate_insert_self fs n p x :
  os.locate fs p = inr Dir → os.locate (<[n :: p := x]> fs) (n :: p) = inr x.
Proof.
  intros Hp. rewrite locate_cons.
  - by rewrite lookup_insert_eq.
  - rewrite locate_insert_other; [done|]. apply suffix_cons_not.
Qed.

Lemma grows_refl q fs : grows q fs fs.
Proof. intros k. by left. Qed.

Lemma grows_cons n q fs fs' : grows q fs fs' → grows (n :: q) fs fs'.
Proof.
  intros H k. destruct (H k) as [?|(? & ? & ?)]; [by left|right].
  split_and!; [done..|]. by apply suffix_cons_r.
Qed.

Lemma mkdir_all_grows fs q fs' e : os.mkdir_all fs q = (fs', e) → grows q fs fs'.
Proof.
  revert fs' e. induction q as [|n p IH]; intros fs' e; cbn [os.mkdir_all].
  - intros [= <- _]. apply grows_refl.
  - destruct (os.mkdir_all fs p) as [fs1 [e1|]] eqn:Hp.
    + intros [= <- _]. apply grows_cons. by eapply IH.
    + specialize (IH _ _ eq_refl). apply (grows_cons n) in IH.
      destruct (fs1 !! (n :: p)) as [[d|]|] eqn:Hq; intros [= <- _]; [done..|].
      intros k. destruct (decide (k = n :: p)) as [->|].
      * rewrite lookup_insert_eq.
        destruct (IH (n :: p)) as [H|(_ & H & _)]; [|congruence].
        right. split_and!; [congruence|done|done].
      * rewrite lookup_insert_ne by done. apply IH.
Qed.

Lemma mkdir_all_ok fs q fs' : os.mkdir_all fs q = (fs', None) → os.locate fs' q = inr Dir.
Proof.
  revert fs'. induction q as [|n p IH]; intros fs'; cbn [os.mkdir_all]; [done|].
  destruct (os.mkdir_all fs p) as [fs1 [e1|]] eqn:Hp; [done|].
  specialize (IH _ eq_refl).
  destruct (fs1 !! (n :: p)) as [[d|]|] eqn:Hq; intros [= <-].
  - by rewrite locate_cons, Hq.
  - by apply locate_insert_self.
Qed.

Lemma mkdir_all_exists fs q : os.locate fs q = inr Dir → os.mkdir_all fs q = (fs, None).
Proof.
  induction q as [|n p IH]; [done|]. intros [Hp Hq]%locate_cons_inv.
  cbn [os.mkdir_all]. by rewrite IH, Hq.
Qed.

Lemma mkdir_all_child fs n p :
  os.locate fs p = inr Dir →
  os.mkdir_all fs (n :: p) =
    match fs !! (n :: p) with
    | None => (<[n :: p := Dir]> fs, None)
    | Some Dir => (fs, None)
    | Some (File _) => (fs, Some ENOTDIR)
    end.
Proof. intros Hp. cbn [os.mkdir_all]. by rewrite mkdir_all_exists. Qed.

Lemma locate_grows q fs fs' k x :
  grows q fs fs' → os.locate fs k = inr x → os.locate fs' k = inr x.
Proof.
  intros Hg. revert x. induction k as [|n p IH]; intros x; [done|].
  intros [Hp Hk]%locate_cons_inv. rewrite locate_cons by auto.
  destruct (Hg (n :: p)) as [->|[H _]]; [by rewrite Hk|congruence].
Qed.

Lemma wf_files_spec fs : wf_files fs = true → in_dirs fs.
Proof.
  unfold wf_files. rewrite forallb_forall. intros H n p x Hk.
  assert (Hin : In (n :: p) (map_to_list fs).*1).
  { apply list_elem_of_In, list_elem_of_fmap. exists (n :: p, x).
    split; [done|]. by apply elem_of_map_to_list. }
  apply H in Hin. destruct p as [|m p']; [by left|right].
  cbn in Hin. by destruct (fs !! (m :: p')) as [[]|].
Qed.

Lemma wf_locate fs k x : in_dirs fs → k ≠ [] → fs !! k = Some x → os.locate fs k = inr x.
Proof.
  intros Hwf. revert x. induction k as [|n p IH]; intros x Hne Hk; [done|].
  destruct (Hwf _ _ _ Hk) as [->|Hp].
  - cbn [os.locate]. by rewrite Hk.
  - rewrite locate_cons, Hk; [done|].
    destruct p; [done|]. by apply IH.
Qed.

Lemma locate_file_grows q fs fs' k d :
  in_dirs fs → grows q fs fs' →
  os.locate fs' k = inr (File d) ↔ os.locate fs k = inr (File d).
Proof.
  intros Hwf Hg. split; [|by apply (locate_grows q)].
  destruct k as [|n p]; [done|]. intros [_ Hk]%locate_cons_inv.
  apply wf_locate; [done..|]. destruct (Hg (n :: p)) as [<-|(_ & ? & _)]; [done|congruence].
Qed.

Lemma abspath_cwd w w' p : cwd w' = cwd w → os.abspath w' p = os.abspath w p.
Proof. intros H. unfold os.abspath. by rewrite H. Qed.

Lemma lookup_name_same w w' p : same_tree w w' → os.lookup_name w' p = os.lookup_name w p.
Proof.
  intros [Hf Hc]. unfold os.lookup_name. by rewrite Hf, (abspath_cwd w w').
Qed.

Lemma Stat_same w w' p : same_tree w w' → os.Stat p w' = os.Stat p w.
Proof. intros H. unfold os.Stat. by rewrite (lookup_name_same w w'). Qed.

Lemma ReadFile_same w w' p : same_tree w w' → os.ReadFile p w' = os.ReadFile p w.
Proof. intros H. unfold os.ReadFile. by rewrite (lookup_name_same w w'). Qed.

Lemma MkdirAll_frame p w e w' :
  os.MkdirAll p w = (e, w') → cwd w' = cwd w ∧ held w' = held w ∧ space w' = space w.
Proof.
  unfold os.MkdirAll. destruct (p =? "")%string; [by intros [= _ <-]|].
  destruct (os.mkdir_all _ _) as [fs1 [e1|]]; by intros [= _ <-].
Qed.

Lemma WriteFile_frame p data w e w' :
  os.WriteFile p data w = (e, w') → cwd w' = cwd w ∧ held w' = held w.
Proof.
  unfold os.WriteFile, os.write_data.
  repeat case_match; by intros [= _ <-].
Qed.

Lemma Rename_frame o n w e w' :
  os.Rename o n w = (e, w') → cwd w' = cwd w ∧ held w' = held w.
Proof.
  unfold os.Rename, os.rename. repeat case_match; by intros [= _ <-].
Qed.

Lemma RemoveAll_frame p w e w' :
  os.RemoveAll p w = (e, w') → cwd w' = cwd w ∧ held w' = held w.
Proof.
  unfold os.RemoveAll. repeat case_match; by intros [= _ <-].
Qed.

Lemma locked_run {A} c (body : M A) s :
  held (world s) = ∅ →
  (∀ s1 a s2, body s1 = Some (a, s2) → held (world s2) = held (world s1)) →
  ∃ m s1,
    same_tree (world s) (world s1) ∧ space (world s1) = space (world s)
    ∧ dir (drv s1) = dir (drv s)
    ∧ (mutex <- getOrCreateMutex c ;; try (sync.Lock mutex) ;;;
       deferring (try (sync.Unlock mutex)) body)%go s
      = match body s1 with
        | Some (a, s2) => Some (a, release m s2)
        | None => None
        end.
Proof.
  intros Hheld Hbody. unfold getOrCreateMutex.
  cbv beta iota delta [bind get_drv ret try deferring modify_drv sys sync.new_Mutex
                       sync.Lock sync.Unlock].
  destruct (mutexes (drv s) !! c) as [m|] eqn:Hm.
  - exists m, {| drv := drv s; world := set_held ({[m]} ∪ held (world s)) (world s) |}.
    split_and!; [done..|].
    rewrite decide_False by (rewrite Hheld; apply not_elem_of_empty).
    destruct (body _) as [[a s2]|] eqn:Hb; [|done].
    apply Hbody in Hb. cbn in Hb.
    rewrite decide_True by (rewrite Hb; apply elem_of_union_l, elem_of_singleton; reflexivity). done.
  - set (m := next_mutex (world s)).
    exists m, {| drv := set_mutexes (<[c := m]> (mutexes (drv s))) (drv s);
                 world := set_held ({[m]} ∪ held (world s))
                            (set_next_mutex (S m) (world s)) |}.
    split_and!; [done..|].
    cbn [drv world held set_next_mutex]. fold m.
    rewrite decide_False by (rewrite Hheld; apply not_elem_of_empty).
    destruct (body _) as [[a s2]|] eqn:Hb; [|done].
    apply Hbody in Hb. cbn in Hb.
    rewrite decide_True by (rewrite Hb; apply elem_of_union_l, elem_of_singleton; reflexivity). done.
Qed.

Lemma locked_inv {A} c (body : M A) s a s3 :
  (mutex <- getOrCreateMutex c ;; try (sync.Lock mutex) ;;;
   deferring (try (sync.Unlock mutex)) body)%go s = Some (a, s3) →
  ∃ m s1 s2,
    same_tree (world s) (world s1) ∧ space (world s1) = space (world s)
    ∧ dir (drv s1) = dir (drv s)
    ∧ body s1 = Some (a, s2) ∧ s3 = release m s2.
Proof.
  unfold getOrCreateMutex.
  cbv beta iota delta [bind get_drv ret try deferring modify_drv sys sync.new_Mutex
                       sync.Lock sync.Unlock].
  destruct (mutexes (drv s) !! c) as [m|] eqn:Hm.
  - destruct (decide (m ∈ held (world s))); [done|].
    destruct (body _) as [[a' s2]|] eqn:Hb; [|done].
    destruct (decide (m ∈ held (world s2))); [|done].
    intros [= -> <-].
    exists m, {| drv := drv s; world := set_held ({[m]} ∪ held (world s)) (world s) |}, s2.
    by split_and!.
  - cbn [drv world held set_next_mutex].
    case_decide; [done|]. cbn beta iota.
    destruct (body _) as [[a' s2]|] eqn:Hb; [|done].
    case_decide; [|done].
    intros [= -> <-]. set (m := next_mutex (world s)) in *.
    exists m, {| drv := set_mutexes (<[c := m]> (mutexes (drv s))) (drv s);
                 world := set_held ({[m]} ∪ held (world s))
                            (set_next_mutex (S m) (world s)) |}, s2.
    by split_and!.
Qed.

Section driver_facts.
Context {value : Type} `{!Codec value}.

Lemma Write_cases c r v s err s' :
  Write c r v s = Some (err, s') →
  c ≠ "" → r ≠ "" →
  let dirp := filepath.Join [dir (drv s); c] in
  let fnl := filepath.Join [dirp; r +:+ ".json"] in
  let tmp := fnl +:+ ".tmp" in
  ∃ w0, same_tree (world s) w0 ∧ space w0 = space (world s)
  ∧ dir (drv s') = dir (drv s) ∧
  ( (∃ e, MarshalIndent v "" TAB = Err e ∧ err = Some e ∧ same_tree w0 (world s'))
  ∨ ∃ b, MarshalIndent v "" TAB = Ok b ∧
     ( (∃ e w1, os.MkdirAll dirp w0 = (Some e, w1) ∧ err = Some e ∧ same_tree w1 (world s'))
     ∨ ∃ w1, os.MkdirAll dirp w0 = (None, w1) ∧
        ( (∃ e w2, os.WriteFile tmp (b +:+ NL) w1 = (Some e, w2)
                   ∧ err = Some e ∧ same_tree w2 (world s'))
        ∨ ∃ w2 w3, os.WriteFile tmp (b +:+ NL) w1 = (None, w2)
                   ∧ os.Rename tmp fnl w2 = (err, w3) ∧ same_tree w3 (world s')))).
Proof.
  intros HW Hc Hr dirp fnl tmp. unfold Write in HW.
  apply String.eqb_neq in Hc, Hr. rewrite Hc, Hr in HW.
  apply locked_inv in HW as (m & s1 & s2 & Hs1 & Hsp & Hdir & Hbody & ->).
  exists (world s1). split; [done|]. split; [done|].
  revert Hbody.
  cbv beta iota delta [bind get_drv ret sys run ask].
  rewrite Hdir. fold dirp. fold fnl. fold tmp.
  destruct (MarshalIndent v "" TAB) as [b|e].
  - destruct (os.MkdirAll dirp (world s1)) as [[e1|] w1] eqn:Hmk.
    + intros [= <- <-]. split; [done|].
      right. exists b. split; [done|]. left. by exists e1, w1.
    + cbn [world drv].
      destruct (os.WriteFile tmp (b +:+ NL) w1) as [[e2|] w2] eqn:Hwr.
      * intros [= <- <-]. split; [done|].
        right. exists b. split; [done|]. right. exists w1.
        split; [done|]. left. by exists e2, w2.
      * cbn [world drv].
        destruct (os.Rename tmp fnl w2) as [e3 w3] eqn:Hrn.
        intros [= <- <-]. split; [done|].
        right. exists b. split; [done|]. right. exists w1.
        split; [done|]. right. by exists w2, w3.
  - intros [= <- <-]. split; [done|]. left. by exists e.
Qed.

Lemma Write_empty_name c r v s :
  c = "" ∨ r = "" → ∃ e, Write c r v s = Some (Some e, s).
Proof.
  unfold Write. intros [->| ->]; [by eexists|].
  destruct (c =? "")%string; by eexists.
Qed.

(** With no mutex held, [Write] returns. *)
Lemma Write_returns c r v s :
  held (world s) = ∅ → ∃ err s', Write c r v s = Some (err, s').
Proof.
  intros Hheld.
  destruct (String.eqb_spec c "") as [->|Hc].
  { destruct (Write_empty_name "" r v s) as [e ->]; eauto. }
  destruct (String.eqb_spec r "") as [->|Hr].
  { destruct (Write_empty_name c "" v s) as [e ->]; eauto. }
  unfold Write. apply String.eqb_neq in Hc, Hr. rewrite Hc, Hr.
  match goal with
  | |- context [deferring _ ?b] =>
      destruct (locked_run c b s Hheld) as (m & s1 & _ & _ & _ & ->)
  end.
  { intros s1 a s2. cbv beta iota delta [bind get_drv ret sys run].
    destruct (MarshalIndent v "" TAB) as [b|e]; [|by intros [= _ <-]].
    destruct (os.MkdirAll _ _) as [[e1|] w1] eqn:Hmk.
    { intros [= _ <-]. cbn. by apply MkdirAll_frame in Hmk as (_ & -> & _). }
    cbn [world drv].
    destruct (os.WriteFile _ _ w1) as [[e2|] w2] eqn:Hwr.
    { intros [= _ <-]. cbn. apply MkdirAll_frame in Hmk as (_ & <- & _).
      by apply WriteFile_frame in Hwr as (_ & ->). }
    cbn [world drv].
    destruct (os.Rename _ _ w2) as [e3 w3] eqn:Hrn.
    intros [= _ <-]. cbn. apply MkdirAll_frame in Hmk as (_ & <- & _).
    apply WriteFile_frame in Hwr as (_ & <-).
    by apply Rename_frame in Hrn as (_ & ->). }
  match goal with
  | |- context [match ?t with Some _ => _ | None => None end] =>
      destruct t as [[a s2]|] eqn:Hb; [by eauto|]
  end.
  revert Hb. cbv beta iota delta [bind get_drv ret sys run].
  destruct (MarshalIndent v "" TAB) as [b|e]; [|done].
  destruct (os.MkdirAll _ _) as [[e1|] w1]; [done|]. cbn [world drv].
  destruct (os.WriteFile _ _ w1) as [[e2|] w2]; [done|]. cbn [world drv].
  by destruct (os.Rename _ _ w2).
Qed.

End driver_facts.

Lemma stat_spec p s :
  ∃ s', stat p s = Some (probe p (world s), s')
        ∧ same_tree (world s) (world s') ∧ held (world s') = held (world s)
        ∧ drv s' = drv s
        ∧ (snd (probe p (world s)) = None → s' = s).
Proof.
  unfold stat, probe. cbv beta iota delta [bind ask run ret].
  destruct (os.Stat p (world s)) as [fi|e1]; [by exists s|].
  destruct (os.IsNotExist e1); [|by exists s].
  destruct (os.Stat (p +:+ ".json") (world s)) as [fi|e2]; [by exists s|].
  eexists. split; [reflexivity|]. by split_and!.
Qed.

Lemma RemoveAll_same w w1 p e w1' :
  same_tree w w1 → os.RemoveAll p w1 = (e, w1') →
  ∃ w', os.RemoveAll p w = (e, w') ∧ same_tree w' w1'.
Proof.
  intros [Hf Hc]. unfold os.RemoveAll.
  destruct (os.splitPath p) as [parent base].
  rewrite (abspath_cwd w w1), (lookup_name_same w w1) by done. rewrite Hf.
  repeat case_match; intros [= <- <-]; eexists; (split; [reflexivity|]); by split.
Qed.

Section driver_facts2.
Context {value : Type} `{!Codec value}.

Lemma Delete_spec c r s :
  held (world s) = ∅ →
  let path := filepath.Join [c; r] in
  let dirp := filepath.Join [dir (drv s); path] in
  ∃ err s', Delete c r s = Some (err, s') ∧ dir (drv s') = dir (drv s) ∧
    match fst (probe dirp (world s)), snd (probe dirp (world s)) with
    | Some fi, None =>
        if os.IsDir (os.Mode fi) then
          ∃ w2, os.RemoveAll dirp (world s) = (err, w2) ∧ same_tree w2 (world s')
        else if os.IsRegular (os.Mode fi) then
          ∃ w2, os.RemoveAll (dirp +:+ ".json") (world s) = (err, w2)
                ∧ same_tree w2 (world s')
        else err = None ∧ same_tree (world s) (world s')
    | _, _ =>
        err = Some (Errorf ("unable to find file/directory name " +:+ path))
        ∧ same_tree (world s) (world s')
    end.
Proof.
  intros Hheld path dirp. unfold Delete. fold path.
  match goal with
  | |- context [deferring _ ?b] => destruct (locked_run c b s Hheld) as (m & s1 & Hs1 & _ & Hdir & ->)
  end.
  { intros s1 a s2. cbv beta iota delta [bind get_drv ret sys].
    destruct (stat_spec (filepath.Join [dir (drv s1); path]) s1)
      as (s1' & -> & _ & Hh & _ & _).
    destruct (probe _ _) as [[fi|] [e|]]; try (by intros [= _ <-]).
    destruct (os.IsDir _).
    - destruct (os.RemoveAll _ _) as [e w2] eqn:Hrm. intros [= _ <-].
      cbn. apply RemoveAll_frame in Hrm as [_ Hrm]. congruence.
    - destruct (os.IsRegular _); [|by intros [= _ <-]].
      destruct (os.RemoveAll _ _) as [e w2] eqn:Hrm. intros [= _ <-].
      cbn. apply RemoveAll_frame in Hrm as [_ Hrm]. congruence. }
  cbv beta iota delta [bind get_drv ret sys]. rewrite Hdir. fold dirp.
  destruct (stat_spec dirp s1) as (s1' & -> & Hs1' & _ & Hd1 & _).
  assert (Hp : probe dirp (world s1) = probe dirp (world s)).
  { unfold probe. by rewrite !(Stat_same (world s) (world s1)). }
  rewrite Hp.
  assert (Htree : same_tree (world s) (world s1')).
  { destruct Hs1, Hs1'. split; congruence. }
  destruct (probe dirp (world s)) as [[fi|] [e|]]; cbn [fst snd].
  - eexists _, _. split; [reflexivity|]. cbn. split; [congruence|]. by split.
  - destruct (os.IsDir _).
    + destruct (os.RemoveAll dirp (world s1')) as [e w2] eqn:Hrm.
      eexists _, _. split; [reflexivity|]. cbn. split; [congruence|].
      destruct (RemoveAll_same _ _ _ _ _ Htree Hrm) as (w' & Hr & Ht).
      exists w'. by split.
    + destruct (os.IsRegular _).
      * destruct (os.RemoveAll (dirp +:+ ".json") (world s1')) as [e w2] eqn:Hrm.
        eexists _, _. split; [reflexivity|]. cbn. split; [congruence|].
        destruct (RemoveAll_same _ _ _ _ _ Htree Hrm) as (w' & Hr & Ht).
        exists w'. by split.
      * eexists _, _. split; [reflexivity|]. cbn. split; [congruence|]. by split.
  - eexists _, _. split; [reflexivity|]. cbn. split; [congruence|]. by split.
  - eexists _, _. split; [reflexivity|]. cbn. split; [congruence|]. by split.
Qed.

End driver_facts2.

(** *** The file operations *)

Lemma lookup_name_locate w p :
  p ≠ "" → os.lookup_name w p = os.locate (files w) (os.abspath w p).
Proof. intros Hp%String.eqb_neq. unfold os.lookup_name. by rewrite Hp. Qed.

Lemma lookup_name_empty w : os.lookup_name w "" = inl ENOENT.
Proof. reflexivity. Qed.

Lemma MkdirAll_spec p w e w' :
  os.MkdirAll p w = (e, w') →
  cwd w' = cwd w ∧ space w' = space w
  ∧ grows (os.abspath w p) (files w) (files w')
  ∧ (e = None → p ≠ "" ∧ os.locate (files w') (os.abspath w p) = inr Dir).
Proof.
  unfold os.MkdirAll. destruct (String.eqb_spec p "").
  { intros [= <- <-]. split_and!; [done..|apply grows_refl|done]. }
  destruct (os.mkdir_all _ _) as [fs1 [e1|]] eqn:Hmk; intros [= <- <-].
  - split_and!; [done..|by eapply mkdir_all_grows|done].
  - split_and!; [done..|by eapply mkdir_all_grows|].
    intros _. split; [done|]. by eapply mkdir_all_ok.
Qed.

Lemma WriteFile_spec p data w e w' :
  os.WriteFile p data w = (e, w') →
  cwd w' = cwd w
  ∧ (files w' = files w ∨ ∃ d', files w' = <[os.abspath w p := File d']> (files w))
  ∧ (e = None → p ≠ "" ∧ os.locate (files w') (os.abspath w p) = inr (File data)).
Proof.
  assert (Hfail : ∀ e0 : error, (Some e0, w) = (e, w') →
    cwd w' = cwd w
    ∧ (files w' = files w ∨ ∃ d', files w' = <[os.abspath w p := File d']> (files w))
    ∧ (e = None → p ≠ "" ∧ os.locate (files w') (os.abspath w p) = inr (File data))).
  { intros e0 [= <- <-]. split_and!; [done|by left|done]. }
  unfold os.WriteFile. destruct (String.eqb_spec p ""); [apply Hfail|].
  destruct (os.abspath w p) as [|n0 parent] eqn:Hq; [apply Hfail|].
  destruct (os.locate (files w) parent) as [e1|[d|]] eqn:Hpar; [apply Hfail..|].
  assert (Hwd : os.write_data (n0 :: parent) p data w = (e, w') →
    cwd w' = cwd w
    ∧ (files w' = files w ∨ ∃ d', files w' = <[n0 :: parent := File d']> (files w))
    ∧ (e = None → p ≠ "" ∧ os.locate (files w') (n0 :: parent) = inr (File data))).
  { unfold os.write_data. destruct (space w) as [n1|].
    - destruct (Nat.leb _ _); intros [= <- <-]; cbn.
      + split_and!; [done|eauto|]. intros _. split; [done|]. by apply locate_insert_self.
      + split_and!; [done|eauto|done].
    - intros [= <- <-]; cbn.
      split_and!; [done|eauto|]. intros _. split; [done|]. by apply locate_insert_self. }
  destruct (files w !! (n0 :: parent)) as [[d|]|]; [done|apply Hfail|done].
Qed.

Lemma Rename_cases o n w :
  os.Rename o n w = os.rename o n w
  ∨ ∃ e, os.Rename o n w = (Some (LinkError "rename" o n e), w).
Proof.
  unfold os.Rename. repeat case_match; eauto.
Qed.

Lemma Rename_onto_other o n w :
  os.lookup_name w n ≠ inr Dir → os.Rename o n w = os.rename o n w.
Proof.
  intros H. unfold os.Rename. by destruct (os.lookup_name w n) as [|[|]].
Qed.

Lemma Rename_spec o n w e w' :
  os.Rename o n w = (e, w') →
  cwd w' = cwd w ∧ (e ≠ None → w' = w)
  ∧ (e = None → n ≠ "" ∧ ∀ d,
       os.locate (files w) (os.abspath w o) = inr (File d) →
       os.locate (files w') (os.abspath w n) = inr (File d)).
Proof.
  destruct (Rename_cases o n w) as [->|[e0 ->]]; [|by intros [= <- <-]].
  unfold os.rename.
  destruct (String.eqb_spec o "") as [|Ho]; [by intros [= <- <-]|].
  destruct (String.eqb_spec n "") as [|Hn]; [by intros [= <- <-]|]. cbn [orb].
  destruct (os.abspath w o) as [|o0 po] eqn:Hqo; [by intros [= <- <-]|].
  set (qo := o0 :: po) in *.
  destruct (os.locate (files w) qo) as [e1|src] eqn:Hsrc; [by intros [= <- <-]|].
  destruct (os.rename_at qo (os.abspath w n) src (files w)) as [e1|fs1] eqn:Hrn;
    intros [= <- <-]; [done|].
  split_and!; [done..|]. intros _. split; [done|]. intros d [= ->]. cbn [files set_files].
  revert Hrn. unfold os.rename_at.
  destruct (os.abspath w n) as [|n1 pn] eqn:Hqn; [done|].
  destruct (os.locate (files w) pn) as [e1|[d1|]] eqn:Hpar; [done..|].
  destruct (decide (qo = n1 :: pn)) as [<-|Hne]; [by intros [= <-]|].
  destruct (files w !! (n1 :: pn)) as [[d1|]|] eqn:Hdst; [|done|]; intros [= <-].
  all: rewrite locate_cons, lookup_insert_eq; [done|].
  all: rewrite locate_insert_other by apply suffix_cons_not.
  all: rewrite locate_delete_other; [done|].
  all: intros Hsuf; pose proof (locate_file_not_above _ _ _ _ _ Hsrc Hpar Hsuf); congruence.
Qed.

Lemma lookup_remove_tree q fs k :
  os.remove_tree q fs !! k = if decide (q `suffix_of` k) then None else fs !! k.
Proof.
  unfold os.remove_tree, os.below. destruct (decide (q `suffix_of` k)) as [Hs|Hs].
  - apply map_lookup_filter_None. right. intros x _. cbn. tauto.
  - destruct (fs !! k) as [x|] eqn:Hk.
    + apply map_lookup_filter_Some. by split.
    + apply map_lookup_filter_None. by left.
Qed.

Lemma RemoveAll_tree p w x :
  p ≠ "" → os.ends_with_dot p = false ∧ os.ends_with_dotdot p = false →
  os.abspath w p ≠ [] →
  os.locate (files w) (os.abspath w p) = inr x →
  os.RemoveAll p w = (None, set_files (os.remove_tree (os.abspath w p) (files w)) w).
Proof.
  intros Hp%String.eqb_neq [Hdot Hdd] Hq Hx. unfold os.RemoveAll.
  destruct (os.splitPath p) as [parent base]. rewrite Hp, Hdot, Hdd, Hx.
  by destruct (os.abspath w p).
Qed.

Lemma RemoveAll_absent p w :
  os.ends_with_dot p = false →
  os.lookup_name w p = inl ENOENT → os.RemoveAll p w = (None, w).
Proof.
  intros Hdot. unfold os.RemoveAll, os.lookup_name.
  destruct (os.splitPath p) as [parent base].
  destruct (p =? "")%string; [done|]. rewrite Hdot. by intros ->.
Qed.

(** *** The paths the driver builds *)

Lemma Join2 a b :
  Join [a; b] =
    if (a =? "")%string then (if (b =? "")%string then "" else Clean b)
    else Clean (a +:+ "/" +:+ b).
Proof. cbn [Join]. by destruct (a =? "")%string, (b =? "")%string. Qed.

Lemma Join3 a b c :
  a ≠ "" → Join [a; b; c] = Clean (a +:+ "/" +:+ b +:+ "/" +:+ c).
Proof. intros Ha%String.eqb_neq. cbn [Join]. by rewrite Ha. Qed.

Lemma Join3_empty b c : Join [""; b; c] = Join [b; c].
Proof. reflexivity. Qed.

Lemma Join2_not_empty a b : b ≠ "" → Join [a; b] ≠ "".
Proof.
  intros Hb%String.eqb_neq. rewrite Join2, Hb.
  destruct (a =? "")%string; apply Clean_not_empty.
Qed.

Lemma string_length_app (a b : string) :
  String.length (a +:+ b) = (String.length a + String.length b)%nat.
Proof. induction a as [|c a IH]; [done|]. rewrite app_String. cbn. by rewrite IH. Qed.

Lemma plain_suffix a sfx :
  no_sep a = true → no_sep sfx = true → (3 ≤ String.length sfx)%nat →
  plain (a +:+ sfx) = true.
Proof.
  intros Ha Hs Hlen. apply plain_spec. rewrite no_sep_app, Ha, Hs.
  split; [done|].
  assert (3 ≤ String.length (a +:+ sfx))%nat as Hl by (rewrite string_length_app; lia).
  split_and!; intros Heq; rewrite Heq in Hl; cbn in Hl; lia.
Qed.

Lemma plain_no_sep n : plain n = true → no_sep n = true.
Proof. by intros [? _]%plain_spec. Qed.

Lemma last_elem r :
  no_sep r = true ∨ ∃ a n, r = a +:+ "/" +:+ n ∧ no_sep n = true.
Proof.
  induction r as [|c r IH]; [by left|].
  destruct IH as [Hr|(a & n & -> & Hn)].
  - destruct (is_sep c) eqn:Hc.
    + right. exists "", r. apply is_sep_true in Hc. by subst c.
    + left. unfold no_sep in *. cbn [list_ascii_of_string forallb]. by rewrite Hc.
  - right. by exists (String c a), n.
Qed.

Lemma target_elem x r :
  x ≠ "" → ∃ a n, x +:+ "/" +:+ r = a +:+ "/" +:+ n ∧ a ≠ "" ∧ no_sep n = true.
Proof.
  intros Hx. destruct (last_elem r) as [Hr|(a & n & -> & Hn)].
  - by exists x, r.
  - exists (x +:+ "/" +:+ a), n. rewrite !string_app_assoc.
    split_and!; [done| |done]. by apply app_not_empty.
Qed.

(** The final file and the temporary file of [Write] lie side by side. *)
Lemma Write_paths w root c r :
  c ≠ "" →
  let fnl := Join [Join [root; c]; r +:+ ".json"] in
  ∃ n P, os.abspath w fnl = n :: P
         ∧ os.abspath w (fnl +:+ ".tmp") = (n +:+ ".tmp") :: P
         ∧ fnl ≠ "".
Proof.
  intros Hc fnl.
  pose proof (Join2_not_empty root c Hc) as Hd.
  assert (Hfnl : fnl = Clean (Join [root; c] +:+ "/" +:+ r +:+ ".json")).
  { unfold fnl. rewrite Join2. by apply String.eqb_neq in Hd as ->. }
  destruct (target_elem (Join [root; c]) r Hd) as (a & n & Heq & Ha & Hn).
  assert (Hj : plain (n +:+ ".json") = true) by (by apply plain_suffix; [..|cbn; lia]).
  assert (Ht : plain ((n +:+ ".json") +:+ ".tmp") = true).
  { apply plain_suffix; [|done|cbn; lia]. by apply plain_no_sep. }
  assert (Hfnl' : fnl = child (Clean a) (n +:+ ".json")).
  { rewrite <- Clean_child by done. rewrite Hfnl. f_equal.
    transitivity ((Join [root; c] +:+ "/" +:+ r) +:+ ".json");
      [by rewrite !string_app_assoc|].
    rewrite Heq. by rewrite !string_app_assoc. }
  exists (n +:+ ".json"), (os.abspath w a). split_and!.
  - rewrite Hfnl'. by apply abspath_child.
  - rewrite Hfnl', child_app. by apply abspath_child.
  - rewrite Hfnl. apply Clean_not_empty.
Qed.

Lemma abspath_Join2 w root c :
  root ≠ "" → plain c = true → os.abspath w (Join [root; c]) = c :: os.abspath w root.
Proof.
  intros Hr Hc. rewrite Join2. apply String.eqb_neq in Hr as Hr'. rewrite Hr'.
  rewrite abspath_Clean by (by apply app_not_empty). by apply abspath_app.
Qed.

Lemma abspath_Join2_sfx w root c sfx :
  root ≠ "" → plain c = true → plain (c +:+ sfx) = true →
  os.abspath w (Join [root; c] +:+ sfx) = (c +:+ sfx) :: os.abspath w root.
Proof.
  intros Hr Hc Hs. rewrite Join2. apply String.eqb_neq in Hr as Hr'. rewrite Hr'.
  rewrite Clean_child, child_app by done. by apply abspath_child.
Qed.

(** [Read] looks for the record where [Write] puts it. *)
Lemma record_path w root c r :
  c ≠ "" → plain r = true →
  os.abspath w (Join [root; c; r] +:+ ".json")
  = os.abspath w (Join [Join [root; c]; r +:+ ".json"]).
Proof.
  intros Hc Hr.
  assert (Hj : plain (r +:+ ".json") = true).
  { apply plain_suffix; [by apply plain_no_sep|done|cbn; lia]. }
  assert (∃ x, x ≠ "" ∧ Join [root; c] = Clean x
               ∧ Join [root; c; r] = Clean (x +:+ "/" +:+ r)) as (x & Hx & -> & ->).
  { destruct (String.eqb_spec root "") as [->|Hroot].
    - exists c. rewrite Join3_empty, !Join2. apply String.eqb_neq in Hc as Hc'.
      rewrite Hc'. by split_and!.
    - exists (root +:+ "/" +:+ c). rewrite Join2, Join3 by done.
      apply String.eqb_neq in Hroot as Hroot'. rewrite Hroot', !string_app_assoc.
      split_and!; [by apply app_not_empty|done..]. }
  rewrite Clean_child, child_app by done. rewrite abspath_child by done.
  rewrite Join2. pose proof (Clean_not_empty x) as Hne%String.eqb_neq. rewrite Hne.
  rewrite abspath_Clean by (apply app_not_empty, Clean_not_empty).
  rewrite abspath_app by (done || apply Clean_not_empty).
  by rewrite abspath_Clean.
Qed.

Lemma ReadFile_contents name w :
  contents name w = match os.ReadFile name w with Ok d => Some d | Err _ => None end.
Proof. unfold contents, os.ReadFile. by destruct (os.lookup_name w name) as [|[|]]. Qed.

Lemma contents_same w w' p : same_tree w w' → contents p w' = contents p w.
Proof. intros H. unfold contents. by rewrite (lookup_name_same w w'). Qed.

Lemma file_of_grows q fs fs' k :
  in_dirs fs → grows q fs fs' → file_of (os.locate fs' k) = file_of (os.locate fs k).
Proof.
  intros Hwf Hg.
  destruct (os.locate fs' k) as [e|[d|]] eqn:H1.
  - destruct (os.locate fs k) as [e'|[d'|]] eqn:H2; [done| |done].
    apply (locate_grows q _ fs') in H2; [congruence|done].
  - apply (locate_file_grows q _ _ _ _ Hwf Hg) in H1. by rewrite H1.
  - destruct (os.locate fs k) as [e'|[d'|]] eqn:H2; [done| |done].
    apply (locate_grows q _ fs') in H2; [congruence|done].
Qed.

Section claims_write.
Context {value : Type} `{!Codec value}.

Lemma Read_spec c r v s :
  c ≠ "" → r ≠ "" →
  let record := filepath.Join [dir (drv s); c; r] in
  ∃ s', same_tree (world s) (world s') ∧ drv s' = drv s
    ∧ (snd (probe record (world s)) = None → s' = s)
    ∧ Read c r v s =
        Some (match snd (probe record (world s)) with
              | Some err => (v, Some err)
              | None =>
                  match os.ReadFile (record +:+ ".json") (world s) with
                  | Err err => (v, Some err)
                  | Ok b => Unmarshal b v
                  end
              end, s').
Proof.
  intros Hc%String.eqb_neq Hr%String.eqb_neq record. unfold Read. rewrite Hc, Hr.
  cbv beta iota delta [bind get_drv ret ask]. fold record.
  destruct (stat_spec record s) as (s' & -> & Ht & _ & Hd & Hs).
  exists s'. split_and!; [done..|].
  destruct (snd (probe record (world s))); [done|].
  rewrite (ReadFile_same (world s) (world s')) by done.
  by destruct (os.ReadFile _ _).
Qed.

Lemma Write_final c r v s s' :
  Write c r v s = Some (None, s') →
  let fnl := filepath.Join [filepath.Join [dir (drv s); c]; r +:+ ".json"] in
  c ≠ "" ∧ r ≠ "" ∧ dir (drv s') = dir (drv s) ∧ cwd (world s') = cwd (world s)
  ∧ ∃ b, MarshalIndent v "" TAB = Ok b ∧ contents fnl (world s') = Some (b +:+ NL).
Proof.
  intros HW fnl.
  destruct (String.eqb_spec c "") as [->|Hc].
  { destruct (Write_empty_name "" r v s) as [e He]; [by left|congruence]. }
  destruct (String.eqb_spec r "") as [->|Hr].
  { destruct (Write_empty_name c "" v s) as [e He]; [by right|congruence]. }
  destruct (Write_cases _ _ _ _ _ _ HW Hc Hr) as (w0 & Hw0 & _ & Hdir & Hcases).
  split_and!; [done..| |].
  - destruct Hcases as [(e & _ & ? & _)|(b & _ & [(e & w1 & _ & ? & _)|(w1 & Hmk & [(e & w2 & _ & ? & _)|(w2 & w3 & Hwr & Hrn & Hs')])])]; try done.
    apply MkdirAll_spec in Hmk as (Hc1 & _). apply WriteFile_spec in Hwr as (Hc2 & _).
    apply Rename_spec in Hrn as (Hc3 & _). destruct Hw0, Hs'. congruence.
  - destruct Hcases as [(e & _ & ? & _)|(b & Hb & [(e & w1 & _ & ? & _)|(w1 & Hmk & [(e & w2 & _ & ? & _)|(w2 & w3 & Hwr & Hrn & Hs')])])]; try done.
    exists b. split; [done|].
    apply WriteFile_spec in Hwr as (Hc2 & _ & Hfile). destruct (Hfile eq_refl) as [_ Hf].
    apply Rename_spec in Hrn as (Hc3 & _ & Hren). destruct (Hren eq_refl) as [Hne Hmv].
    rewrite (contents_same w3) by done. unfold contents.
    rewrite lookup_name_locate by done. rewrite (abspath_cwd w2 w3) by done.
    unfold fnl. rewrite (Hmv (b +:+ NL)); [done|]. by rewrite (abspath_cwd w1 w2).
Qed.

End claims_write.

(** *** When the file operations succeed *)

Lemma MkdirAll_child root c w :
  root ≠ "" → plain c = true →
  os.lookup_name w root = inr Dir →
  (∀ d, os.lookup_name w (Join [root; c]) ≠ inr (File d)) →
  ∃ w1, os.MkdirAll (Join [root; c]) w = (None, w1).
Proof.
  intros Hroot Hc Hdir Hnf.
  pose proof (Join2_not_empty root c) as Hne.
  assert (c ≠ "") as Hc' by (by apply plain_spec in Hc as (_ & ? & _)).
  specialize (Hne Hc').
  rewrite lookup_name_locate in Hdir by done.
  unfold os.MkdirAll. apply String.eqb_neq in Hne as Hne'. rewrite Hne'.
  rewrite abspath_Join2 by done. rewrite mkdir_all_child by done.
  destruct (files w !! _) as [[d|]|] eqn:Hq; [|by eexists..].
  exfalso. apply (Hnf d). rewrite lookup_name_locate, abspath_Join2 by done.
  by rewrite locate_cons, Hq.
Qed.

Lemma WriteFile_ok p data w n par :
  p ≠ "" → os.abspath w p = n :: par →
  os.locate (files w) par = inr Dir →
  files w !! (n :: par) ≠ Some Dir →
  fits data w →
  ∃ w1, os.WriteFile p data w = (None, w1).
Proof.
  intros Hp%String.eqb_neq Hq Hpar Hnd Hfit. unfold os.WriteFile.
  rewrite Hp, Hq, Hpar.
  assert (∃ w1, os.write_data (n :: par) p data w = (None, w1)) as [w1 Hw].
  { unfold os.write_data, fits in *. destruct (space w) as [k|]; [|by eexists].
    apply Nat.leb_le in Hfit. rewrite Hfit. by eexists. }
  destruct (files w !! (n :: par)) as [[d|]|]; by eauto.
Qed.

Lemma Rename_ok o n w d n1 pn :
  o ≠ "" → n ≠ "" →
  os.locate (files w) (os.abspath w o) = inr (File d) →
  os.abspath w n = n1 :: pn →
  os.locate (files w) pn = inr Dir →
  files w !! (n1 :: pn) ≠ Some Dir →
  ∃ w1, os.Rename o n w = (None, w1).
Proof.
  intros Ho Hn Hsrc Hqn Hpar Hnd. rewrite Rename_onto_other.
  2: { rewrite lookup_name_locate, Hqn, locate_cons by done.
       destruct (files w !! (n1 :: pn)) as [[|]|]; congruence. }
  apply String.eqb_neq in Ho, Hn. unfold os.rename.
  rewrite Ho, Hn. cbn [orb].
  destruct (os.abspath w o) as [|o0 po] eqn:Hqo; [done|].
  rewrite Hsrc, Hqn. unfold os.rename_at. rewrite Hpar.
  destruct (decide (o0 :: po = n1 :: pn)); [by eexists|].
  destruct (files w !! (n1 :: pn)) as [[d1|]|]; by eauto.
Qed.

Lemma not_suffix_sibling (n sfx : string) (P : list string) :
  sfx ≠ "" → ¬ ((n +:+ sfx) :: P) `suffix_of` (n :: P).
Proof.
  intros Hs [Heq|Hsuf]%suffix_cons_cases.
  - injection Heq as Heq. apply (f_equal String.length) in Heq.
    rewrite string_length_app in Heq. destruct sfx; [done|]. cbn in Heq. lia.
  - by apply suffix_cons_not in Hsuf.
Qed.

Lemma not_suffix_longer {A} (k q : list A) :
  (length q < length k)%nat → ¬ k `suffix_of` q.
Proof. intros Hl Hs%suffix_length. lia. Qed.

Lemma is_dir_spec name w : is_dir name w = true ↔ os.lookup_name w name = inr Dir.
Proof. unfold is_dir. by destruct (os.lookup_name w name) as [|[|]]. Qed.

Lemma is_dir_not_empty name w : is_dir name w = true → name ≠ "".
Proof. by intros H ->. Qed.

Section claims_write2.
Context {value : Type} `{!Codec value}.

(** Claim C9. After a [Write c r v] that returns no error, the final file
    [<c>/<r>.json] holds exactly the encoding the codec gives for [v] with
    an empty prefix and one tab as the indentation, followed by one
    newline. *)
Theorem Write_persists_indented c r v s s' :
  Write c r v s = Some (None, s') →
  let fnl := filepath.Join [filepath.Join [dir (drv s); c]; r +:+ ".json"] in
  ∃ b, MarshalIndent v "" TAB = Ok b
       ∧ os.ReadFile fnl (world s') = Ok (b +:+ NL).
Proof.
  intros HW fnl. apply Write_final in HW as (_ & _ & _ & _ & b & Hb & Hc).
  exists b. split; [done|]. fold fnl in Hc. rewrite ReadFile_contents in Hc.
  destruct (os.ReadFile fnl (world s')); congruence.
Qed.

(** Claim C2. Whatever [Write c r v] returns, in a well-formed tree: when
    it returns an error (from the validation, the encoding, the directory
    creation, the write of the temporary file, which may stop half way, or
    the rename) a reader of the final path gets exactly what it got before
    the call; when it returns no error a reader gets the whole new
    encoding followed by a newline. *)
Theorem Write_atomic c r v s err s' :
  wf_files (files (world s)) = true →
  Write c r v s = Some (err, s') →
  let fnl := filepath.Join [filepath.Join [dir (drv s); c]; r +:+ ".json"] in
  (err ≠ None → contents fnl (world s') = contents fnl (world s))
  ∧ (err = None →
     ∃ b, MarshalIndent v "" TAB = Ok b ∧ contents fnl (world s') = Some (b +:+ NL)).
Proof.
  intros Hwf%wf_files_spec HW fnl. split.
  2:{ intros ->. by apply Write_final in HW as (_ & _ & _ & _ & ?). }
  intros Herr.
  destruct (String.eqb_spec c "") as [->|Hc].
  { destruct (Write_empty_name "" r v s) as [e He]; [by left|]. congruence. }
  destruct (String.eqb_spec r "") as [->|Hr].
  { destruct (Write_empty_name c "" v s) as [e He]; [by right|]. congruence. }
  destruct (Write_cases _ _ _ _ _ _ HW Hc Hr) as (w0 & Hw0 & _ & _ & Hcases).
  destruct (Write_paths w0 (dir (drv s)) c r Hc) as (n & P & Hqf & Hqt & Hne).
  fold fnl in Hqf, Hqt, Hne.
  rewrite <- (contents_same _ _ fnl Hw0).
  assert (Hmk : ∀ e w1, os.MkdirAll (filepath.Join [dir (drv s); c]) w0 = (e, w1) →
                contents fnl w1 = contents fnl w0).
  { intros e w1 (Hc1 & _ & Hg & _)%MkdirAll_spec. unfold contents.
    rewrite !lookup_name_locate, (abspath_cwd w0 w1) by done.
    destruct Hw0 as [Hf0 _]. rewrite Hf0 in Hg. rewrite Hf0.
    by eapply file_of_grows. }
  assert (Hwr : ∀ data e w1 w2, cwd w1 = cwd w0 →
                os.WriteFile (fnl +:+ ".tmp") data w1 = (e, w2) →
                contents fnl w2 = contents fnl w1).
  { intros data e w1 w2 Hc1 (Hc2 & Hf & _)%WriteFile_spec. unfold contents.
    rewrite !lookup_name_locate, (abspath_cwd w1 w2) by done.
    destruct Hf as [->|[d' ->]]; [done|].
    rewrite !(abspath_cwd w0 w1), Hqf, Hqt by done.
    by rewrite locate_insert_other by (by apply not_suffix_sibling). }
  destruct Hcases as [(e & _ & _ & Hs')|(b & _ & [(e & w1 & H1 & _ & Hs')|(w1 & H1 & [(e & w2 & H2 & _ & Hs')|(w2 & w3 & H2 & H3 & Hs')])])].
  - by apply contents_same.
  - rewrite (contents_same _ _ fnl Hs'). by eapply Hmk.
  - rewrite (contents_same _ _ fnl Hs'), <- (Hmk _ _ H1).
    eapply Hwr; [|done]. by apply MkdirAll_spec in H1 as (? & _).
  - rewrite (contents_same _ _ fnl Hs'), <- (Hmk _ _ H1).
    apply Rename_spec in H3 as (_ & -> & _); [|done].
    eapply Hwr; [|done]. by apply MkdirAll_spec in H1 as (? & _).
Qed.

End claims_write2.

Lemma grows_outside q fs fs' k : grows q fs fs' → ¬ k `suffix_of` q → fs' !! k = fs !! k.
Proof. intros Hg Hk. by destruct (Hg k) as [?|(_ & _ & ?)]. Qed.

Lemma wf_not_dir fs k :
  in_dirs fs → k ≠ [] → os.locate fs k ≠ inr Dir → fs !! k ≠ Some Dir.
Proof. intros Hwf Hk Hl Hd. apply Hl. by apply wf_locate. Qed.

Lemma json_not_empty x : x +:+ ".json" ≠ "".
Proof. by destruct x. Qed.

Lemma probe_found p w fi :
  os.Stat (p +:+ ".json") w = Ok fi → snd (probe p w) = None.
Proof.
  intros H. unfold probe. destruct (os.Stat p w) as [|e1]; [done|].
  destruct (os.IsNotExist e1); [|done]. by rewrite H.
Qed.

Section claims_write3.
Context {value : Type} `{!Codec value}.

Lemma Read_after_Write c r v out b s s1 :
  Write c r v s = Some (None, s1) →
  plain r = true →
  MarshalIndent v "" TAB = Ok b →
  Unmarshal (b +:+ NL) out = (v, None) →
  Read c r out s1 = Some ((v, None), s1).
Proof.
  intros HW Hr Hm Hrt.
  apply Write_final in HW as (Hc & Hr' & Hdir & _ & b' & Hb' & Hcont).
  assert (b' = b) as -> by congruence.
  destruct (Read_spec c r out s1 Hc Hr') as (s' & _ & _ & Hs' & ->).
  rewrite Hdir in *.
  set (record := filepath.Join [dir (drv s); c; r]) in *.
  set (fnl := filepath.Join [filepath.Join [dir (drv s); c]; r +:+ ".json"]) in *.
  assert (Hl : os.lookup_name (world s1) (record +:+ ".json") = inr (File (b +:+ NL))).
  { rewrite lookup_name_locate by apply json_not_empty.
    unfold record. rewrite record_path by done. fold fnl.
    unfold contents, os.lookup_name in Hcont.
    destruct (fnl =? "")%string; [done|].
    by destruct (os.locate _ _) as [|[|]]; simplify_eq/=. }
  assert (Hp : snd (probe record (world s1)) = None).
  { eapply probe_found. unfold os.Stat. by rewrite Hl. }
  rewrite Hp in *. rewrite (Hs' eq_refl).
  unfold os.ReadFile. by rewrite Hl, Hrt.
Qed.

Lemma Write_succeeds c r v b s :
  held (world s) = ∅ →
  wf_files (files (world s)) = true →
  is_dir (dir (drv s)) (world s) = true →
  plain c = true → plain r = true →
  let dirp := filepath.Join [dir (drv s); c] in
  let fnl := filepath.Join [dirp; r +:+ ".json"] in
  is_file dirp (world s) = false →
  is_dir fnl (world s) = false →
  is_dir (fnl +:+ ".tmp") (world s) = false →
  MarshalIndent v "" TAB = Ok b →
  fits (b +:+ NL) (world s) →
  ∃ s1, Write c r v s = Some (None, s1).
Proof.
  intros Hheld Hwf%wf_files_spec Hroot Hc Hr dirp fnl Hcoll Hfnl Htmp Hm Hfit.
  pose proof (is_dir_not_empty _ _ Hroot) as Hroot'.
  apply is_dir_spec in Hroot.
  assert (Hc' : c ≠ "") by (by apply plain_spec in Hc as (_ & ? & _)).
  assert (Hr' : r ≠ "") by (by apply plain_spec in Hr as (_ & ? & _)).
  assert (Hdne : dirp ≠ "") by (by apply Join2_not_empty).
  assert (Hj : plain (r +:+ ".json") = true).
  { apply plain_suffix; [by apply plain_no_sep|done|cbn; lia]. }
  assert (Ht : plain ((r +:+ ".json") +:+ ".tmp") = true).
  { apply plain_suffix; [by apply plain_no_sep|done|cbn; lia]. }
  destruct (Write_returns c r v s Hheld) as (err & s1 & HW).
  exists s1. rewrite HW. do 2 f_equal.
  destruct (Write_cases _ _ _ _ _ _ HW Hc' Hr') as (w0 & [Hf0 Hc0] & Hsp0 & _ & Hcases).
  fold dirp in Hcases. fold fnl in Hcases.
  set (qr := os.abspath w0 (dir (drv s))).
  assert (Hlk : ∀ p, os.lookup_name w0 p = os.lookup_name (world s) p).
  { intros p. by apply lookup_name_same. }
  assert (Hqd : os.abspath w0 dirp = c :: qr) by (by apply abspath_Join2).
  assert (Hqf : os.abspath w0 fnl = (r +:+ ".json") :: c :: qr).
  { unfold fnl. by rewrite abspath_Join2, Hqd. }
  assert (Hqt : os.abspath w0 (fnl +:+ ".tmp") = ((r +:+ ".json") +:+ ".tmp") :: c :: qr).
  { unfold fnl. by rewrite abspath_Join2_sfx, Hqd. }
  assert (Hfne : fnl ≠ "") by (by apply Join2_not_empty, json_not_empty).
  assert (Hroot0 : os.lookup_name w0 (dir (drv s)) = inr Dir) by (by rewrite Hlk).
  assert (Hmk : ∃ w1, os.MkdirAll dirp w0 = (None, w1)).
  { apply MkdirAll_child; [done..|]. intros d Hd. rewrite Hlk in Hd.
    unfold is_file in Hcoll. fold dirp in Hd. by rewrite Hd in Hcoll. }
  destruct Hmk as (w1' & Hmk).
  destruct Hcases as [(e & ? & _)|(b' & Hb' & [(e & w1 & H1 & _)|(w1 & H1 & Hcases)])];
    [congruence|congruence|].
  assert (b' = b) as -> by congruence. clear w1' Hmk.
  apply MkdirAll_spec in H1 as (Hc1 & Hsp1 & Hg & Hd1).
  destruct (Hd1 eq_refl) as [_ Hd1']. rewrite Hqd in Hg, Hd1'. rewrite Hf0 in Hg.
  assert (Hnd : ∀ p k, p ≠ "" → os.abspath w0 p = k → k ≠ [] →
                ¬ k `suffix_of` (c :: qr) →
                is_dir p (world s) = false → files w1 !! k ≠ Some Dir).
  { intros p k Hp Hk Hk0 Hsuf Hnot. rewrite (grows_outside _ _ _ _ Hg) by done.
    apply wf_not_dir; [done..|]. intros Hl. unfold is_dir in Hnot.
    rewrite <- Hlk, lookup_name_locate, Hk, Hf0, Hl in Hnot; done. }
  assert (Hwr : ∃ w2, os.WriteFile (fnl +:+ ".tmp") (b +:+ NL) w1 = (None, w2)).
  { eapply WriteFile_ok.
    - by apply app_not_empty.
    - by rewrite (abspath_cwd w0 w1).
    - done.
    - eapply Hnd; [by apply app_not_empty|done|done| |done].
      apply not_suffix_longer. cbn. lia.
    - unfold fits in *. by rewrite Hsp1, Hsp0. }
  destruct Hwr as (w2' & Hwr).
  destruct Hcases as [(e & w2 & H2 & _)|(w2 & w3 & H2 & H3 & _)]; [congruence|].
  clear w2' Hwr.
  apply WriteFile_spec in H2 as (Hc2 & Hf2 & Hfile).
  destruct (Hfile eq_refl) as [_ Hfile']. rewrite (abspath_cwd w0 w1), Hqt in Hfile', Hf2 by done.
  assert (Hrn : ∃ w3', os.Rename (fnl +:+ ".tmp") fnl w2 = (None, w3')).
  { eapply Rename_ok.
    - by apply app_not_empty.
    - done.
    - rewrite (abspath_cwd w0 w2), Hqt by congruence. done.
    - rewrite (abspath_cwd w0 w2) by congruence. done.
    - destruct Hf2 as [->|[d' ->]]; [done|].
      rewrite locate_insert_other; [done|]. apply not_suffix_longer. cbn. lia.
    - assert (files w1 !! ((r +:+ ".json") :: c :: qr) ≠ Some Dir) as Hq.
      { eapply Hnd; [exact Hfne|done|done| |done]. apply not_suffix_longer. cbn. lia. }
      destruct Hf2 as [->|[d' ->]]; [done|].
      rewrite lookup_insert_ne; [done|]. intros [= Heq].
      apply (f_equal String.length) in Heq. rewrite string_length_app in Heq.
      cbn in Heq. lia. }
  destruct Hrn as (w3' & Hrn). congruence.
Qed.

(** Claim C1, amended. In a well-formed tree whose root directory exists,
    for a collection and a resource named by single ordinary path elements,
    when nothing is in the way ([<root>/<c>] is not a regular file, neither
    the final nor the temporary path is a directory, the device has room,
    no mutex is held) and the codec encodes [v] and decodes that encoding
    back to [v]: [Write c r v] returns no error, and the [Read c r] that
    follows returns no error and leaves [v] in the caller's variable. *)
Theorem Write_then_Read c r v out b s :
  held (world s) = ∅ →
  wf_files (files (world s)) = true →
  is_dir (dir (drv s)) (world s) = true →
  plain c = true → plain r = true →
  let dirp := filepath.Join [dir (drv s); c] in
  let fnl := filepath.Join [dirp; r +:+ ".json"] in
  is_file dirp (world s) = false →
  is_dir fnl (world s) = false →
  is_dir (fnl +:+ ".tmp") (world s) = false →
  MarshalIndent v "" TAB = Ok b →
  fits (b +:+ NL) (world s) →
  Unmarshal (b +:+ NL) out = (v, None) →
  ∃ s1, Write c r v s = Some (None, s1)
        ∧ Read c r out s1 = Some ((v, None), s1).
Proof.
  intros Hheld Hwf Hroot Hc Hr dirp fnl Hcoll Hfnl Htmp Hm Hfit Hrt.
  destruct (Write_succeeds c r v b s) as (s1 & HW); [done..|].
  exists s1. split; [done|]. by eapply Read_after_Write.
Qed.

End claims_write3.

(** *** More on cleaned paths *)

Lemma Clean_trailing x : x ≠ "" → Clean (x +:+ "/" +:+ "") = Clean x.
Proof.
  intros Hx. unfold Clean.
  destruct (String.eqb_spec (x +:+ "/" +:+ "") "") as [H|_];
    [by apply app_not_empty in H|].
  destruct (String.eqb_spec x ""); [done|].
  rewrite rooted_app, split_app by done.
  unfold clean_elems. by rewrite fold_left_app.
Qed.

Lemma Clean_plain c : plain c = true → Clean c = c.
Proof.
  intros Hc. pose proof Hc as (Hns & Hne & Hd & _)%plain_spec.
  unfold Clean. destruct (String.eqb_spec c ""); [done|].
  assert (rooted c = false) as ->.
  { rewrite <- (string_app_nil_r c). by apply rooted_elem_ok. }
  rewrite split_no_sep by done. unfold clean_elems. cbn [fold_left].
  by rewrite clean_step_plain.
Qed.

Lemma chars_app a b :
  list_ascii_of_string (a +:+ b) = (list_ascii_of_string a ++ list_ascii_of_string b)%list.
Proof. induction a as [|c a IH]; [done|]. rewrite app_String. cbn. by rewrite IH. Qed.

Lemma ends_with_dot_app p e : elem_ok e → os.ends_with_dot (p +:+ e) = false.
Proof.
  intros (Hns & Hne & Hdot). unfold os.ends_with_dot.
  rewrite chars_app, rev_app_distr.
  assert (Hchars : string_of_list_ascii (list_ascii_of_string e) = e)
    by apply string_of_list_ascii_of_string.
  unfold no_sep in Hns. rewrite forallb_forall in Hns.
  destruct (rev (list_ascii_of_string e)) as [|x t] eqn:Hrev.
  { apply (f_equal (@rev _)) in Hrev. rewrite rev_involutive in Hrev. cbn in Hrev.
    rewrite Hrev in Hchars. by cbn in Hchars. }
  cbn [app]. destruct (Ascii.eqb_spec x "."%char) as [->|Hx].
  - destruct t as [|y t'].
    + apply (f_equal (@rev _)) in Hrev. rewrite rev_involutive in Hrev. cbn in Hrev.
      rewrite Hrev in Hchars. by cbn in Hchars.
    + cbn [app]. apply negb_true_iff, Hns, in_rev. rewrite Hrev. right. by left.
  - destruct x as [[] [] [] [] [] [] [] []]; try done.
    all: by destruct (t ++ rev (list_ascii_of_string p))%list.
Qed.

Lemma ends_with_dotdot_app p e :
  elem_ok e → e ≠ ".." → os.ends_with_dotdot (p +:+ e) = false.
Proof.
  intros (Hns & Hne & Hdot) Hdd. unfold os.ends_with_dotdot.
  rewrite chars_app, rev_app_distr.
  assert (Hchars : string_of_list_ascii (list_ascii_of_string e) = e)
    by apply string_of_list_ascii_of_string.
  assert (Hrev : list_ascii_of_string e = rev (rev (list_ascii_of_string e)))
    by (by rewrite rev_involutive).
  unfold no_sep in Hns. rewrite forallb_forall in Hns.
  destruct (rev (list_ascii_of_string e)) as [|x [|y [|z t]]]; rewrite Hrev in Hchars.
  - by cbn in Hchars.
  - cbn [app]. destruct (rev (list_ascii_of_string p)) as [|b q]; [done|].
    destruct (Ascii.eqb_spec x "."%char) as [->|]; [by cbn in Hchars|done].
  - cbn [app]. destruct (Ascii.eqb_spec x "."%char) as [->|]; [|done].
    destruct (Ascii.eqb_spec y "."%char) as [->|]; [by cbn in Hchars|done].
  - cbn [app]. assert (is_sep z = false) as ->; [|by rewrite andb_false_r].
    apply negb_true_iff, Hns. rewrite Hrev. apply in_rev. rewrite rev_involutive.
    right. right. by left.
Qed.

Lemma ends_with_dot_render r kept :
  Forall elem_ok kept → render r kept = "." ∨ os.ends_with_dot (render r kept) = false.
Proof.
  intros Hk. unfold render. destruct kept as [|e k].
  - destruct r; [by right|by left].
  - right. inversion Hk; subst. cbn [rev].
    destruct (rev k) as [|e' k'] eqn:Hrev.
    + cbn [app join String.concat]. destruct r; [|rewrite <- (app_empty e)];
        by apply ends_with_dot_app.
    + rewrite join_snoc by done. destruct r.
      * rewrite <- !string_app_assoc. by apply ends_with_dot_app.
      * rewrite <- !string_app_assoc. by apply ends_with_dot_app.
Qed.

Lemma ends_with_dot_Clean x : Clean x = "." ∨ os.ends_with_dot (Clean x) = false.
Proof.
  unfold Clean. destruct (x =? "")%string; [by left|].
  apply ends_with_dot_render, clean_elems_ok.
Qed.

Lemma ends_with_dot_child a n : plain n = true → os.ends_with_dot (child a n) = false.
Proof.
  intros (? & ? & ? & _)%plain_spec. unfold child.
  destruct (a =? ".")%string; [rewrite <- (app_empty n)|];
    [by apply ends_with_dot_app|].
  destruct (a =? "/")%string; [by apply ends_with_dot_app|].
  rewrite <- string_app_assoc. by apply ends_with_dot_app.
Qed.

Lemma ends_with_dotdot_child a n :
  plain n = true → os.ends_with_dotdot (child a n) = false.
Proof.
  intros (? & ? & ? & ?)%plain_spec. unfold child.
  destruct (a =? ".")%string; [rewrite <- (app_empty n)|];
    [by apply ends_with_dotdot_app|].
  destruct (a =? "/")%string; [by apply ends_with_dotdot_app|].
  rewrite <- string_app_assoc. by apply ends_with_dotdot_app.
Qed.

Lemma named_child a n :
  plain n = true →
  os.ends_with_dot (child a n) = false ∧ os.ends_with_dotdot (child a n) = false.
Proof. split; [by apply ends_with_dot_child|by apply ends_with_dotdot_child]. Qed.


Lemma canonical_ok r kept : canonical r kept → Forall elem_ok kept.
Proof.
  induction kept as [|e rest IH]; [constructor|]. intros (? & ? & _).
  constructor; auto.
Qed.

Lemma clean_step_canonical r kept e :
  no_sep e = true → canonical r kept → canonical r (clean_step r kept e).
Proof.
  intros He Hk. unfold clean_step.
  destruct (String.eqb_spec e ""); [done|].
  destruct (String.eqb_spec e "."); [done|]. cbn [orb].
  assert (elem_ok e) by done.
  destruct (String.eqb_spec e "..") as [->|Hdd].
  - destruct kept as [|top rest].
    + destruct r; [done|]. cbn. split_and!; try done. intros _. split; [done|by left].
    + destruct (String.eqb_spec top "..") as [->|Htop].
      * destruct Hk as (Hok & Hrest & Hdd). destruct (Hdd eq_refl) as [-> _].
        cbn in *. split_and!; try done.
        intros _. split; [done|]. right. by eexists.
      * by destruct Hk as (_ & ? & _).
  - cbn. split_and!; done.
Qed.

Lemma fold_clean_canonical r l kept :
  Forall (λ e, no_sep e = true) l → canonical r kept →
  canonical r (fold_left (clean_step r) l kept).
Proof.
  revert kept. induction l as [|e l IH]; intros kept Hl Hk; [done|].
  inversion Hl; subst. cbn [fold_left]. apply IH; [done|]. by apply clean_step_canonical.
Qed.

Lemma clean_elems_canonical r x : canonical r (clean_elems r (split x)).
Proof. apply fold_clean_canonical; [apply split_all_no_sep|done]. Qed.




(** *** The parents [os.MkdirAll] turns to *)

Lemma string_of_chars_app a b :
  string_of_list_ascii (a ++ b)
  = string_of_list_ascii a +:+ string_of_list_ascii b.
Proof. induction a as [|c a IH]; [done|]. cbn. by rewrite IH. Qed.

Lemma drop_seps_suffix l : ∃ a, l = (a ++ os.drop_seps l)%list.
Proof.
  induction l as [|c l [a IH]]; [by exists []|]. cbn [os.drop_seps].
  destruct (is_sep c); [|by exists []]. exists (c :: a). cbn. by f_equal.
Qed.

Lemma drop_elem_suffix l : ∃ a, l = (a ++ os.drop_elem l)%list.
Proof.
  induction l as [|c l [a IH]]; [by exists []|]. cbn [os.drop_elem].
  destruct (is_sep c); [by exists []|]. exists (c :: a). cbn. by f_equal.
Qed.

Lemma parent_path_prefix p : ∃ rest, p = os.parent_path p +:+ rest.
Proof.
  unfold os.parent_path.
  destruct (drop_seps_suffix (rev (list_ascii_of_string p))) as [a Ha].
  destruct (drop_elem_suffix (os.drop_seps (rev (list_ascii_of_string p)))) as [b Hb].
  set (T := os.drop_elem _) in *.
  assert (∃ c, T = (c ++ tail T)%list) as [c Hc].
  { destruct T as [|x T']; [by exists []|by exists [x]]. }
  exists (string_of_list_ascii (rev (a ++ b ++ c))).
  rewrite <- string_of_chars_app, <- rev_app_distr.
  rewrite <- (string_of_list_ascii_of_string p) at 1. f_equal.
  rewrite <- (rev_involutive (list_ascii_of_string p)). f_equal.
  rewrite Ha at 1. rewrite Hb at 1. rewrite Hc at 1. by rewrite <- !app_assoc.
Qed.

Lemma mkdir_path_prefix n p w : ∃ rest, p = os.mkdir_path n p w +:+ rest.
Proof.
  revert p. induction n as [|n IH]; intros p; cbn [os.mkdir_path].
  - exists "". rewrite string_app_nil_r. by destruct (os.lookup_name w p).
  - destruct (os.lookup_name w p); [|exists ""; by rewrite string_app_nil_r].
    destruct (os.parent_path p =? "")%string; [exists ""; by rewrite string_app_nil_r|].
    destruct (parent_path_prefix p) as [rest0 H0].
    destruct (IH (os.parent_path p)) as [rest1 H1].
    exists (rest1 +:+ rest0). by rewrite <- string_app_assoc, <- H1.
Qed.

Lemma mkdir_path_found n p w x :
  os.lookup_name w p = inr x → os.mkdir_path n p w = p.
Proof. intros H. destruct n; cbn [os.mkdir_path]; by rewrite H. Qed.

Lemma drop_elem_app l t :
  Forall (λ c, is_sep c = false) l →
  os.drop_elem (l ++ "/"%char :: t) = "/"%char :: t.
Proof.
  induction 1 as [|c l Hc _ IH]; [done|]. cbn [app os.drop_elem]. by rewrite Hc.
Qed.

Lemma parent_path_snoc x e :
  no_sep e = true → e ≠ "" → os.parent_path (x +:+ "/" +:+ e) = x.
Proof.
  intros Hns He. unfold os.parent_path.
  rewrite !chars_app. change (list_ascii_of_string "/") with ["/"%char].
  rewrite !rev_app_distr. cbn [rev app]. rewrite <- app_assoc. cbn [app].
  assert (Hall : Forall (λ c, is_sep c = false) (rev (list_ascii_of_string e))).
  { apply Forall_rev. unfold no_sep in Hns. rewrite forallb_forall in Hns.
    apply Forall_forall. intros c Hc%list_elem_of_In. by apply negb_true_iff, Hns. }
  assert (Hd : os.drop_seps (rev (list_ascii_of_string e) ++ "/"%char
                               :: rev (list_ascii_of_string x))
               = (rev (list_ascii_of_string e) ++ "/"%char
                    :: rev (list_ascii_of_string x))%list).
  { destruct (rev (list_ascii_of_string e)) as [|c l] eqn:Hrev.
    - apply (f_equal (@rev _)) in Hrev. rewrite rev_involutive in Hrev.
      apply (f_equal string_of_list_ascii) in Hrev.
      by rewrite string_of_list_ascii_of_string in Hrev.
    - inversion Hall as [|? ? Hc _]; subst. cbn [app os.drop_seps]. by rewrite Hc. }
  rewrite Hd, drop_elem_app by done. cbn [tail].
  by rewrite rev_involutive, string_of_list_ascii_of_string.
Qed.

Lemma render_snoc r rest e :
  rest ≠ [] → render r (e :: rest) = render r rest +:+ "/" +:+ e.
Proof.
  intros Hne. unfold render. cbn [rev].
  rewrite join_snoc by (by apply rev_not_nil).
  destruct r; [by rewrite string_app_assoc|]. by destruct rest.
Qed.

Lemma render_not_empty r kept : Forall elem_ok kept → render r kept ≠ "".
Proof.
  intros Hk. unfold render. destruct r; [done|]. destruct kept as [|e k]; [done|].
  apply join_rev_not; [done..|]. apply Exists_cons_hd. by intros (_ & ? & _).
Qed.

Lemma lookup_render w r kept :
  Forall elem_ok kept →
  os.lookup_name w (render r kept)
  = os.locate (files w) (walk_kept (if r then [] else cwd w) kept).
Proof.
  intros Hk. rewrite lookup_name_locate by (by apply render_not_empty).
  unfold os.abspath. by rewrite rooted_render, walk_render.
Qed.

Lemma suffix_tail {A} (l k : list A) : l `suffix_of` k → tail l `suffix_of` k.
Proof. destruct l; [done|]. apply suffix_cons_l. Qed.

Lemma walk_kept_up r start rest :
  canonical r (".." :: rest) → walk_kept start (".." :: rest) `suffix_of` start.
Proof.
  revert start. induction rest as [|e rest IH]; intros start (_ & Hrest & Hdd).
  - apply suffix_tail. done.
  - destruct (Hdd eq_refl) as [_ [?|[rest' [= -> ->]]]]; [done|].
    rewrite walk_kept_cons. apply suffix_tail. by apply IH.
Qed.

Lemma locate_above fs k q :
  os.locate fs k = inr Dir → q `suffix_of` k → os.locate fs q = inr Dir.
Proof.
  intros Hk Hq. destruct (decide (q = k)) as [->|]; [done|]. by eapply locate_through.
Qed.

Lemma render_length r rest e :
  rest ≠ [] →
  (String.length (render r rest) < String.length (render r (e :: rest)))%nat.
Proof.
  intros Hne. rewrite render_snoc, !string_length_app by done. cbn. lia.
Qed.

(** Below a working directory that exists, a cleaned path that runs
    through a regular file has that file among its parents, and it is the
    first of them that is found. *)
Lemma mkdir_path_file w r kept n :
  canonical r kept →
  os.locate (files w) (if r then [] else cwd w) = inr Dir →
  os.locate (files w) (walk_kept (if r then [] else cwd w) kept) = inl ENOTDIR →
  (String.length (render r kept) ≤ n)%nat →
  is_file (os.mkdir_path n (render r kept) w) w = true.
Proof.
  set (start := if r then [] else cwd w). intros Hk Hstart.
  revert n. induction kept as [|e rest IH]; intros n Hloc Hn.
  { cbn in Hloc. congruence. }
  pose proof (canonical_ok _ _ Hk) as Hok. destruct Hk as (He & Hrest & Hdd).
  destruct (decide (e = "..")) as [->|Hne].
  { rewrite (locate_above _ start) in Hloc; [done..|].
    by apply (walk_kept_up r), (conj He (conj Hrest Hdd)). }
  rewrite walk_kept_cons, walk_step_ok in Hloc by done.
  destruct rest as [|e' rest'].
  { cbn [walk_kept fold_right] in Hloc. rewrite locate_cons in Hloc by done.
    by destruct (files w !! (e :: start)). }
  set (rest := e' :: rest') in *.
  assert (Hlt := render_length r rest e ltac:(done)).
  destruct n as [|n]; [lia|]. cbn [os.mkdir_path].
  rewrite (lookup_render w r (e :: rest)) by done. fold start.
  rewrite walk_kept_cons, walk_step_ok, Hloc by done.
  rewrite render_snoc, parent_path_snoc by (done || apply He).
  pose proof Hok as [_ Hok']%Forall_cons.
  pose proof (render_not_empty r rest Hok') as Hr%String.eqb_neq. rewrite Hr.
  cbn [os.locate] in Hloc.
  destruct (os.locate (files w) (walk_kept start rest)) as [e1|[d|]] eqn:Hq.
  - assert (e1 = ENOTDIR) as -> by congruence. apply IH; [done..|lia].
  - rewrite (mkdir_path_found _ _ _ (File d)) by (by rewrite lookup_render).
    unfold is_file. rewrite lookup_render by done. fold start. by rewrite Hq.
  - by destruct (files w !! (e :: walk_kept start rest)).
Qed.

Lemma Join2_Clean a b : b ≠ "" → ∃ x, x ≠ "" ∧ Join [a; b] = Clean x.
Proof.
  intros Hb. rewrite Join2. apply String.eqb_neq in Hb as Hb'. rewrite Hb'.
  destruct (String.eqb_spec a ""); [by exists b|].
  exists (a +:+ "/" +:+ b). split; [by apply app_not_empty|done].
Qed.

Lemma is_dir_here w : is_dir "." w = true → os.locate (files w) (cwd w) = inr Dir.
Proof. by intros H%is_dir_spec. Qed.

(** The path in the error of [os.MkdirAll] for a cleaned path that is a
    regular file or runs through one. *)
Lemma mkdir_path_Clean w x :
  x ≠ "" → is_dir "." w = true →
  is_file (Clean x) w = true ∨ os.lookup_name w (Clean x) = inl ENOTDIR →
  is_file (os.mkdir_path (String.length (Clean x)) (Clean x) w) w = true.
Proof.
  intros Hx Hcwd%is_dir_here [Hf|Hthrough].
  { unfold is_file in Hf. destruct (os.lookup_name w (Clean x)) as [|[d|]] eqn:Hl; [done| |done].
    rewrite (mkdir_path_found _ _ _ (File d)) by done. unfold is_file. by rewrite Hl. }
  revert Hthrough. unfold Clean. apply String.eqb_neq in Hx as ->.
  pose proof (clean_elems_canonical (rooted x) x) as Hk.
  rewrite lookup_render by (by eapply canonical_ok). intros Hloc.
  apply mkdir_path_file; [done| |done|done]. by destruct (rooted x).
Qed.

(** *** Delete *)

Lemma probe_dir p w : is_dir p w = true → probe p w = (Some (os.info_of Dir), None).
Proof. intros H%is_dir_spec. unfold probe, os.Stat. by rewrite H. Qed.

Lemma probe_absent p w :
  absent p w = true → absent (p +:+ ".json") w = true →
  ∃ e, probe p w = (None, Some e) ∧ os.IsNotExist e = true.
Proof.
  unfold absent, probe. destruct (os.Stat p w) as [|e1]; [done|]. intros ->.
  destruct (os.Stat _ w) as [|e2]; [done|]. by exists e2.
Qed.

(** Removing a directory that exists, when it is neither [.] nor the root. *)
Lemma Delete_directory c r s :
  held (world s) = ∅ →
  let dirp := filepath.Join [dir (drv s); filepath.Join [c; r]] in
  is_dir dirp (world s) = true →
  os.ends_with_dot dirp = false ∧ os.ends_with_dotdot dirp = false →
  os.abspath (world s) dirp ≠ [] →
  ∃ s', Delete c r s = Some (None, s')
        ∧ files (world s')
          = os.remove_tree (os.abspath (world s) dirp) (files (world s)).
Proof.
  intros Hheld dirp Hdir Hdot Hq.
  destruct (Delete_spec c r s Hheld) as (err & s' & -> & _ & Hcase).
  fold dirp in Hcase. rewrite probe_dir in Hcase by done.
  cbn [fst snd os.IsDir os.Mode os.info_of] in Hcase.
  destruct Hcase as (w2 & Hrm & [Hf _]).
  pose proof (is_dir_not_empty _ _ Hdir) as Hne. apply is_dir_spec in Hdir.
  rewrite lookup_name_locate in Hdir by done.
  rewrite (RemoveAll_tree _ _ _ Hne Hdot Hq Hdir) in Hrm.
  injection Hrm as <- <-. by exists s'.
Qed.


(** Claim C10, amended. When the root of the store is an existing
    directory whose path is not [.], does not end in [..] and does not name
    the root of the file system, [Delete "" ""] returns no error;
    afterwards the root of the store and everything below it is gone, and
    every other entry is as it was. *)
Theorem Delete_root s :
  held (world s) = ∅ →
  filepath.Clean (dir (drv s)) = dir (drv s) →
  dir (drv s) ≠ "." →
  os.ends_with_dotdot (dir (drv s)) = false →
  is_dir (dir (drv s)) (world s) = true →
  os.abspath (world s) (dir (drv s)) ≠ [] →
  ∃ s', Delete "" "" s = Some (None, s')
        ∧ ∀ k, files (world s') !! k =
                 if decide (os.abspath (world s) (dir (drv s)) `suffix_of` k) then None
                 else files (world s) !! k.
Proof.
  intros Hheld Hclean Hdot Hdd Hdir Hq.
  pose proof (is_dir_not_empty _ _ Hdir) as Hne.
  assert (Hpath : filepath.Join [dir (drv s); filepath.Join [""; ""]] = dir (drv s)).
  { change (filepath.Join [""; ""]) with "". rewrite Join2.
    apply String.eqb_neq in Hne as Hne'. rewrite Hne'. by rewrite Clean_trailing. }
  destruct (Delete_directory "" "" s Hheld) as (s' & HD & Hf).
  - by rewrite Hpath.
  - rewrite Hpath. split; [|done].
    destruct (ends_with_dot_Clean (dir (drv s))) as [H|H];
      rewrite Hclean in H; done.
  - by rewrite Hpath.
  - exists s'. split; [done|]. intros k. rewrite Hf, Hpath. apply lookup_remove_tree.
Qed.

Section claims_read.
Context {value : Type} `{!Codec value}.

(** Claim C7. When neither the path [Delete] probes nor that path with
    [.json] exists, [Delete c r] returns its not-found error and the tree
    is unchanged; when neither the path [Read] probes nor that path with
    [.json] exists, [Read c r] (of non-empty names, which pass the
    validation) returns an error for which [os.IsNotExist] holds and leaves
    the caller's variable and the tree as they were. *)
Theorem not_found c r (out : value) s :
  held (world s) = ∅ →
  (let path := filepath.Join [c; r] in
   let p := filepath.Join [dir (drv s); path] in
   absent p (world s) = true → absent (p +:+ ".json") (world s) = true →
   ∃ s', Delete c r s =
           Some (Some (Errorf ("unable to find file/directory name " +:+ path)), s')
         ∧ files (world s') = files (world s))
  ∧ (let record := filepath.Join [dir (drv s); c; r] in
     c ≠ "" → r ≠ "" →
     absent record (world s) = true → absent (record +:+ ".json") (world s) = true →
     ∃ e s', Read c r out s = Some ((out, Some e), s')
             ∧ os.IsNotExist e = true
             ∧ files (world s') = files (world s)).
Proof.
  intros Hheld. split.
  - intros path p H1 H2.
    destruct (Delete_spec c r s Hheld) as (err & s' & -> & _ & Hcase).
    fold path in Hcase. fold p in Hcase.
    destruct (probe_absent _ _ H1 H2) as (e & Hp & _). rewrite Hp in Hcase.
    cbn [fst snd] in Hcase.
    destruct Hcase as [-> [Hf _]]. by exists s'.
  - intros record Hc Hr H1 H2.
    destruct (Read_spec c r out s Hc Hr) as (s' & [Hf _] & _ & _ & ->).
    fold record. destruct (probe_absent _ _ H1 H2) as (e & -> & He). cbn [fst snd].
    by exists e, s'.
Qed.

End claims_read.

(** *** Bare and suffixed resource names *)

Lemma locate_remove_tree_other q fs k :
  ¬ q `suffix_of` k → os.locate (os.remove_tree q fs) k = os.locate fs k.
Proof.
  intros Hq. apply locate_ext. intros k' Hk' _. rewrite lookup_remove_tree.
  destruct (decide (q `suffix_of` k')) as [Hs|]; [|done].
  exfalso. apply Hq. by etrans.
Qed.

Lemma RemoveAll_child p w n P :
  p ≠ "" → os.ends_with_dot p = false ∧ os.ends_with_dotdot p = false →
  os.abspath w p = n :: P → os.locate (files w) P = inr Dir →
  ∃ w2, os.RemoveAll p w = (None, w2) ∧ cwd w2 = cwd w
        ∧ files w2 !! (n :: P) = None
        ∧ ∀ k, ¬ (n :: P) `suffix_of` k → files w2 !! k = files w !! k.
Proof.
  intros Hp%String.eqb_neq [Hdot Hdd] Hq Hpar. unfold os.RemoveAll.
  destruct (os.splitPath p) as [parent base].
  rewrite Hp, Hdot, Hdd, Hq, locate_cons by done.
  destruct (files w !! (n :: P)) as [x|] eqn:Hx.
  - eexists. split_and!; [done..| |]; cbn [files set_files].
    + rewrite lookup_remove_tree. by rewrite decide_True.
    + intros k Hk. rewrite lookup_remove_tree. by rewrite decide_False.
  - by exists w.
Qed.

Lemma locate_same_outside fs fs' q k :
  (∀ k', ¬ q `suffix_of` k' → fs' !! k' = fs !! k') →
  ¬ q `suffix_of` k → os.locate fs' k = os.locate fs k.
Proof.
  intros H Hq. apply locate_ext. intros k' Hk' _. apply H.
  intros Hs. apply Hq. by etrans.
Qed.

Lemma Join_nested root c r :
  root ≠ "" → plain c = true → plain r = true →
  Join [root; Join [c; r]] = Join [root; c; r].
Proof.
  intros Hroot Hc Hr. pose proof Hc as (Hns & Hne & Hd & _)%plain_spec.
  assert (Join [c; r] = c +:+ "/" +:+ r) as ->.
  { rewrite Join2. apply String.eqb_neq in Hne as Hne'. rewrite Hne'.
    rewrite Clean_child, Clean_plain by done. unfold child.
    apply String.eqb_neq in Hd as ->.
    destruct (String.eqb_spec c "/") as [->|]; [done|]. done. }
  rewrite Join2, Join3 by done. by apply String.eqb_neq in Hroot as ->.
Qed.

Lemma regroup (root c x : string) :
  root +:+ "/" +:+ c +:+ x = (root +:+ "/" +:+ c) +:+ x.
Proof. by rewrite !string_app_assoc. Qed.

Lemma Join3_sfx root c r sfx :
  root ≠ "" → plain r = true → plain (r +:+ sfx) = true →
  Join [root; c; r +:+ sfx] = Join [root; c; r] +:+ sfx.
Proof.
  intros Hroot Hr Hs. rewrite !Join3 by done.
  rewrite !(regroup root c).
  rewrite (Clean_child _ (r +:+ sfx)), (Clean_child _ r) by (done || by apply app_not_empty).
  by rewrite child_app.
Qed.

Lemma abspath_Join3_sfx w root c r sfx :
  root ≠ "" → plain c = true → plain r = true → plain (r +:+ sfx) = true →
  os.abspath w (Join [root; c; r] +:+ sfx) = (r +:+ sfx) :: c :: os.abspath w root.
Proof.
  intros Hroot Hc Hr Hs. rewrite Join3 by done.
  rewrite (regroup root c).
  rewrite Clean_child, child_app by (done || by apply app_not_empty).
  rewrite abspath_child by (done || by apply app_not_empty).
  by rewrite abspath_app.
Qed.

Lemma abspath_Join3 w root c r :
  root ≠ "" → plain c = true → plain r = true →
  os.abspath w (Join [root; c; r]) = r :: c :: os.abspath w root.
Proof.
  intros Hroot Hc Hr. rewrite Join3 by done.
  rewrite (regroup root c).
  rewrite abspath_Clean by (by apply app_not_empty, app_not_empty).
  rewrite abspath_app by (done || by apply app_not_empty).
  by rewrite abspath_app.
Qed.

Lemma Join3_facts root c r :
  root ≠ "" → plain r = true →
  Join [root; c; r] ≠ ""
  ∧ (os.ends_with_dot (Join [root; c; r]) = false
     ∧ os.ends_with_dotdot (Join [root; c; r]) = false).
Proof.
  intros Hroot Hr. rewrite Join3, (regroup root c) by done. split.
  - apply Clean_not_empty.
  - rewrite Clean_child by (done || by apply app_not_empty).
    by apply named_child.
Qed.

Lemma probe_regular p w d :
  os.lookup_name w (p +:+ ".json") = inr (File d) →
  is_dir p w = false →
  (∀ e, os.lookup_name w p = inl e → e = ENOENT) →
  ∃ fi, probe p w = (Some fi, None) ∧ os.Mode fi = os.ModeRegular.
Proof.
  intros Hj Hnd Herr. unfold probe, os.Stat, is_dir in *.
  destruct (os.lookup_name w p) as [e|[d'|]] eqn:Hp; [|by eexists|done].
  rewrite (Herr e eq_refl). cbn. rewrite Hj. by eexists.
Qed.

Section claims_names.
Context {value : Type} `{!Codec value}.

(** Claim C3, amended. For a record stored as [<c>/<r>.json], with [c] and
    [r] single ordinary path elements and no directory [<c>/<r>]: under the
    bare name, [Delete c r] returns no error and the record is gone, and
    [Read c r] decodes the record. Under the name that already carries the
    suffix the driver appends [.json] once more: [Delete c (r.json)]
    returns no error and leaves the record in place, and [Read c (r.json)]
    gives what reading [<c>/<r>.json.json] gives. *)
Theorem bare_name_addressing c r data (out : value) s :
  held (world s) = ∅ →
  dir (drv s) ≠ "" → plain c = true → plain r = true →
  let record := filepath.Join [dir (drv s); c; r] in
  os.lookup_name (world s) (record +:+ ".json") = inr (File data) →
  is_dir record (world s) = false →
  (∃ s', Delete c r s = Some (None, s')
         ∧ absent (record +:+ ".json") (world s') = true)
  ∧ Read c r out s = Some (Unmarshal data out, s)
  ∧ (∃ s', Delete c (r +:+ ".json") s = Some (None, s')
           ∧ os.lookup_name (world s') (record +:+ ".json") = inr (File data))
  ∧ Read c (r +:+ ".json") out s
    = Some (match os.ReadFile ((record +:+ ".json") +:+ ".json") (world s) with
            | Err e => (out, Some e)
            | Ok b => Unmarshal b out
            end, s).
Proof.
  intros Hheld Hroot Hc Hr record Hst Hnd.
  set (w := world s) in *. set (root := dir (drv s)) in *.
  assert (Hc' : c ≠ "") by (by apply plain_spec in Hc as (_ & ? & _)).
  assert (Hr' : r ≠ "") by (by apply plain_spec in Hr as (_ & ? & _)).
  assert (Hj : plain (r +:+ ".json") = true).
  { apply plain_suffix; [by apply plain_no_sep|done|cbn; lia]. }
  assert (Hjj : plain ((r +:+ ".json") +:+ ".json") = true).
  { apply plain_suffix; [by apply plain_no_sep|done|cbn; lia]. }
  set (qc := c :: os.abspath w root).
  assert (Hq : os.abspath w record = r :: qc) by (by apply abspath_Join3).
  assert (Hqj : os.abspath w (record +:+ ".json") = (r +:+ ".json") :: qc).
  { by apply abspath_Join3_sfx. }
  assert (Hrec' : filepath.Join [root; c; r +:+ ".json"] = record +:+ ".json").
  { by apply Join3_sfx. }
  assert (Hqjj : os.abspath w ((record +:+ ".json") +:+ ".json")
                 = ((r +:+ ".json") +:+ ".json") :: qc).
  { rewrite <- Hrec'. by apply abspath_Join3_sfx. }
  destruct (Join3_facts root c (r +:+ ".json") Hroot Hj) as [Hne Hdot].
  rewrite Hrec' in Hne, Hdot.
  pose proof Hst as Hloc. rewrite lookup_name_locate, Hqj in Hloc by done.
  apply locate_cons_inv in Hloc as [Hpar Hent].
  assert (Hstat : os.Stat (record +:+ ".json") w = Ok (os.info_of (File data))).
  { unfold os.Stat. by rewrite Hst. }
  assert (Hfound : snd (probe record w) = None) by (by eapply probe_found).
  split_and!.
  - destruct (Delete_spec c r s Hheld) as (err & s' & -> & _ & Hcase).
    rewrite Join_nested in Hcase by done. fold root record w in Hcase.
    destruct (probe_regular record w data Hst Hnd) as (fi & Hp & Hmode).
    { intros e. rewrite lookup_name_locate by (by apply Join3_facts).
      rewrite Hq, locate_cons by done.
      destruct (files w !! (r :: qc)); [done|]. by intros [= <-]. }
    rewrite Hp in Hcase. cbn [fst snd] in Hcase. rewrite Hmode in Hcase.
    cbn [os.IsDir os.IsRegular] in Hcase. destruct Hcase as (w2 & Hrm & [Hf2 Hc2]).
    destruct (RemoveAll_child _ w _ _ Hne Hdot Hqj Hpar) as (w2' & Hrm' & Hcw & Hgone & Hsame).
    assert (w2' = w2 ∧ err = None) as [-> ->] by (split; congruence).
    exists s'. split; [done|]. unfold absent, os.Stat.
    rewrite lookup_name_locate by done. rewrite Hf2.
    rewrite (abspath_cwd w (world s')) by congruence. rewrite Hqj.
    rewrite locate_cons, Hgone; [done|].
    rewrite (locate_same_outside _ _ _ _ Hsame); [done|]. apply suffix_cons_not.
  - destruct (Read_spec c r out s Hc' Hr') as (s' & _ & _ & Hs' & ->).
    fold root record w. rewrite Hfound. rewrite (Hs' Hfound).
    unfold os.ReadFile. by rewrite Hst.
  - destruct (Delete_spec c (r +:+ ".json") s Hheld) as (err & s' & -> & _ & Hcase).
    rewrite Join_nested in Hcase by done. fold root w in Hcase. rewrite Hrec' in Hcase.
    assert (Hp : probe (record +:+ ".json") w = (Some (os.info_of (File data)), None)).
    { unfold probe. by rewrite Hstat. }
    rewrite Hp in Hcase. cbn [fst snd os.IsDir os.IsRegular os.Mode os.info_of] in Hcase.
    destruct Hcase as (w2 & Hrm & [Hf2 Hc2]).
    destruct (RemoveAll_child ((record +:+ ".json") +:+ ".json") w
                ((r +:+ ".json") +:+ ".json") qc)
      as (w2' & Hrm' & Hcw & Hgone & Hsame); [by apply app_not_empty| |done|done|].
    { rewrite <- Hrec'. rewrite <- Join3_sfx by done. by apply Join3_facts. }
    assert (w2' = w2 ∧ err = None) as [-> ->] by (split; congruence).
    exists s'. split; [done|].
    rewrite lookup_name_locate by done. rewrite Hf2.
    rewrite (abspath_cwd w (world s')) by congruence. rewrite Hqj.
    rewrite (locate_same_outside _ _ _ _ Hsame).
    + by rewrite <- Hqj, <- lookup_name_locate.
    + by apply not_suffix_sibling.
  - destruct (Read_spec c (r +:+ ".json") out s Hc' (json_not_empty r))
      as (s' & _ & _ & Hs' & ->).
    fold root w in Hs' |- *. rewrite Hrec' in Hs' |- *.
    assert (Hp : snd (probe (record +:+ ".json") w) = None).
    { unfold probe. by rewrite Hstat. }
    rewrite Hp. by rewrite (Hs' Hp).
Qed.

End claims_names.

(** *** ReadAll *)

Lemma elem_of_children fs q n : n ∈ os.children fs q ↔ is_Some (fs !! (n :: q)).
Proof.
  unfold os.children. rewrite merge_sort_Permutation, list_elem_of_omap. split.
  - intros (k & Hk & Hc). apply list_elem_of_fmap in Hk as ([k' x] & -> & Hk).
    apply elem_of_map_to_list in Hk. cbn in Hc. destruct k' as [|n' p]; [done|].
    cbn in Hc. destruct (decide (p = q)) as [->|]; [|done]. injection Hc as ->. eauto.
  - intros [x Hx]. exists (n :: q). split.
    + apply list_elem_of_fmap. exists (n :: q, x). split; [done|].
      by apply elem_of_map_to_list.
    + cbn. by rewrite decide_True.
Qed.

Lemma ReadAll_loop_ok dirp names ds acc s :
  Forall2 (λ n d, os.ReadFile (filepath.Join [dirp; n]) (world s) = Ok d) names ds →
  ReadAll_loop dirp names acc s = Some ((acc ++ ds, None), s)%list.
Proof.
  intros H. revert acc. induction H as [|n d names ds Hn _ IH]; intros acc.
  - cbn. by rewrite app_nil_r.
  - cbn [ReadAll_loop]. cbv beta iota delta [bind ask]. rewrite Hn.
    rewrite IH. by rewrite <- app_assoc.
Qed.

Lemma ReadAll_loop_fail dirp names acc s :
  Exists (λ n, ∃ e, os.ReadFile (filepath.Join [dirp; n]) (world s) = Err e) names →
  ∃ e, ReadAll_loop dirp names acc s = Some (([], Some e), s).
Proof.
  intros H. revert acc. induction names as [|n names IH]; intros acc.
  - by apply Exists_nil in H.
  - cbn [ReadAll_loop]. cbv beta iota delta [bind ask].
    destruct (os.ReadFile _ (world s)) as [d|e] eqn:Hn; [|by exists e].
    apply Exists_cons in H as [[e He]|H]; [congruence|]. by apply IH.
Qed.

(** Claim C8. For a non-empty collection name whose directory exists, with
    [names] the entries of that directory: when every entry can be read,
    [ReadAll] returns the whole content of each, in the order of the
    entries, and no error; when the read of some entry fails, [ReadAll]
    returns an error and no record at all. *)
Theorem ReadAll_all_or_nothing c s :
  c ≠ "" →
  let dirp := filepath.Join [dir (drv s); c] in
  is_dir dirp (world s) = true →
  let q := os.abspath (world s) dirp in
  let names := os.children (files (world s)) q in
  (∀ n, n ∈ names ↔ is_Some (files (world s) !! (n :: q)))
  ∧ (∀ ds,
       Forall2 (λ n d, os.ReadFile (filepath.Join [dirp; n]) (world s) = Ok d) names ds →
       ReadAll c s = Some ((ds, None), s))
  ∧ (∀ n e,
       n ∈ names → os.ReadFile (filepath.Join [dirp; n]) (world s) = Err e →
       ∃ e', ReadAll c s = Some (([], Some e'), s)).
Proof.
  intros Hc%String.eqb_neq dirp Hdir q names.
  assert (Hrun : ReadAll c s = ReadAll_loop dirp names [] s).
  { unfold ReadAll. rewrite Hc. cbv beta iota delta [bind get_drv ask]. fold dirp.
    destruct (stat_spec dirp s) as (s' & -> & _ & _ & _ & Hs').
    rewrite probe_dir in * by done. cbn [snd] in *. rewrite (Hs' eq_refl).
    unfold os.ReadDir. apply is_dir_spec in Hdir. by rewrite Hdir. }
  split_and!.
  - intros n. apply elem_of_children.
  - intros ds Hds. rewrite Hrun. by rewrite (ReadAll_loop_ok _ _ ds).
  - intros n e Hn He. rewrite Hrun. apply ReadAll_loop_fail.
    apply Exists_exists. exists n. split; [done|by exists e].
Qed.

(** *** Validation *)

Section claims_validation.
Context {value : Type} `{!Codec value}.

(** Claim C6. [Write "" "x" v] and [Write "x" "" v] return the validation
    error and leave the driver and the whole process, so also every file and
    directory, as they were. *)
Theorem Write_missing_name (v : value) s :
  Write "" "x" v s
    = Some (Some (Errorf "Missing collection - no place to save record!"), s)
  ∧ Write "x" "" v s
    = Some (Some (Errorf "Missing resource - no place to save record (no name)"), s).
Proof. by split. Qed.

End claims_validation.

(** *** The lock registry *)

Lemma getOrCreateMutex_alone c s :
  ∃ m s', getOrCreateMutex c s = Some (m, s')
          ∧ interleave [0; 0; 0] [AtLookup c] s = ([Returned m], s').
Proof.
  unfold getOrCreateMutex.
  cbv beta iota delta [bind get_drv ret sys modify_drv sync.new_Mutex].
  cbn [interleave lookup list_lookup call_step].
  destruct (mutexes (drv s) !! c) as [m|]; by eexists _, _.
Qed.

Lemma getOrCreateMutex_again c s m s1 :
  getOrCreateMutex c s = Some (m, s1) → getOrCreateMutex c s1 = Some (m, s1).
Proof.
  unfold getOrCreateMutex.
  cbv beta iota delta [bind get_drv ret sys modify_drv sync.new_Mutex].
  destruct (mutexes (drv s) !! c) as [m'|] eqn:Hm; intros [= <- <-].
  - by rewrite Hm.
  - cbn. by rewrite lookup_insert_eq.
Qed.

(** Claim C4, at the failing input. Two calls of [getOrCreateMutex] for a
    collection that has no mutex yet, their statements taken in turn, return
    two different mutexes: nothing guards the lookup and the insertion. *)
Theorem getOrCreateMutex_race c s :
  mutexes (drv s) !! c = None →
  ∃ m1 m2 s',
    interleave [0; 1; 0; 1; 0; 1] [AtLookup c; AtLookup c] s
      = ([Returned m1; Returned m2], s')
    ∧ m1 ≠ m2.
Proof.
  intros Hm. cbn [interleave lookup list_lookup call_step]. rewrite Hm.
  cbn. rewrite Hm. cbn. eexists _, _, _. split; [reflexivity|]. lia.
Qed.

(** *** Locks, and what the calls leave alone *)

Lemma only_prints_refl w : only_prints w w.
Proof. exists []. rewrite app_nil_r. by destruct w. Qed.

Lemma only_prints_Println line w : only_prints w (fmt.Println line w).
Proof. by exists [line +:+ NL]. Qed.

Lemma only_prints_same_tree w w' : only_prints w w' → same_tree w w'.
Proof. by intros [l ->]. Qed.

Lemma set_files_id w : set_files (files w) w = w.
Proof. by destruct w. Qed.

Lemma MkdirAll_world p w e w' :
  os.MkdirAll p w = (e, w') → ∃ fs1, w' = set_files fs1 w.
Proof.
  unfold os.MkdirAll. repeat case_match; intros [= _ <-]; eauto.
  exists (files w). by rewrite set_files_id.
Qed.

Lemma WriteFile_world p data w e w' :
  os.WriteFile p data w = (e, w') → ∃ fs1 sp, w' = set_space sp (set_files fs1 w).
Proof.
  assert (w = set_space (space w) (set_files (files w) w)) as Hw by (by destruct w).
  unfold os.WriteFile, os.write_data. repeat case_match; intros [= _ <-]; eauto.
Qed.

Lemma Rename_world o n w e w' :
  os.Rename o n w = (e, w') → ∃ fs1, w' = set_files fs1 w.
Proof.
  unfold os.Rename, os.rename. repeat case_match; intros [= _ <-]; eauto.
  all: exists (files w); by rewrite set_files_id.
Qed.

Lemma RemoveAll_world p w e w' :
  os.RemoveAll p w = (e, w') → ∃ fs1, w' = set_files fs1 w.
Proof.
  unfold os.RemoveAll. repeat case_match; intros [= _ <-]; eauto.
  all: exists (files w); by rewrite set_files_id.
Qed.

Lemma acquire_spec c s m s1 :
  acquire c s = Some (m, s1) →
  (m ∉ held (world s))
  ∧ (∃ n, world s1 = set_held ({[m]} ∪ held (world s)) (set_next_mutex n (world s))
          ∧ (next_mutex (world s) ≤ n)%nat)
  ∧ dir (drv s1) = dir (drv s) ∧ log (drv s1) = log (drv s)
  ∧ mutexes (drv s1) !! c = Some m
  ∧ (∀ c' m', mutexes (drv s) !! c' = Some m' → mutexes (drv s1) !! c' = Some m')
  ∧ (∀ c', c' ≠ c → mutexes (drv s1) !! c' = mutexes (drv s) !! c').
Proof.
  unfold acquire, getOrCreateMutex.
  cbv beta iota delta [bind get_drv ret try modify_drv sys sync.new_Mutex sync.Lock].
  destruct (mutexes (drv s) !! c) as [m0|] eqn:Hm.
  - case_decide; [done|]. intros [= <- <-]. cbn. split_and!; try done.
    exists (next_mutex (world s)). split; [|done]. by destruct (world s).
  - cbn [drv world held set_next_mutex]. case_decide; [done|]. intros [= <- <-].
    cbn. split_and!; try done.
    + eexists. split; [done|]. lia.
    + by rewrite lookup_insert_eq.
    + intros c' m' Hc'. rewrite lookup_insert_ne; [done|]. congruence.
    + intros c' Hc'. by rewrite lookup_insert_ne.
Qed.

Lemma acquire_blocked c s m :
  mutexes (drv s) !! c = Some m → m ∈ held (world s) → acquire c s = None.
Proof.
  intros Hm Hin. unfold acquire, getOrCreateMutex.
  cbv beta iota delta [bind get_drv ret try modify_drv sys sync.new_Mutex sync.Lock].
  rewrite Hm. by rewrite decide_True.
Qed.

Lemma locked_acquire {A} c (body : M A) s :
  (mutex <- getOrCreateMutex c ;; try (sync.Lock mutex) ;;;
   deferring (try (sync.Unlock mutex)) body)%go s
  = match acquire c s with
    | Some (m, s1) =>
        match body s1 with
        | Some (a, s2) =>
            if decide (m ∈ held (world s2)) then Some (a, release m s2) else None
        | None => None
        end
    | None => None
    end.
Proof.
  unfold acquire, getOrCreateMutex.
  cbv beta iota delta [bind get_drv ret try deferring modify_drv sys sync.new_Mutex
                       sync.Lock sync.Unlock].
  destruct (mutexes (drv s) !! c) as [m|] eqn:Hm.
  - case_decide; [done|]. destruct (body _) as [[a s2]|]; [|done].
    by case_decide.
  - cbn [drv world held set_next_mutex]. case_decide; [done|]. cbn beta iota.
    destruct (body _) as [[a s2]|]; [|done]. by case_decide.
Qed.

Section more_driver_facts.
Context {value : Type} `{!Codec value}.

(** The body of [Write], between taking and releasing the lock. *)
Lemma Write_unfold c r v s :
  c ≠ "" → r ≠ "" →
  ∃ body : M (option error),
    Write c r v s
    = match acquire c s with
      | Some (m, s1) =>
          match body s1 with
          | Some (a, s2) =>
              if decide (m ∈ held (world s2)) then Some (a, release m s2) else None
          | None => None
          end
      | None => None
      end
    ∧ ∀ s1, ∃ a w2,
        body s1 = Some (a, {| drv := drv s1; world := w2 |})
        ∧ held w2 = held (world s1) ∧ next_mutex w2 = next_mutex (world s1).
Proof.
  intros Hc%String.eqb_neq Hr%String.eqb_neq. unfold Write. rewrite Hc, Hr.
  match goal with
  | |- context [deferring _ ?b] => exists b
  end.
  split; [apply locked_acquire|].
  intros s1. cbv beta iota delta [bind get_drv ret sys run].
  destruct (MarshalIndent v "" TAB) as [b|e]; [|by eexists _, _].
  destruct (os.MkdirAll _ _) as [[e1|] w1] eqn:Hmk.
  all: apply MkdirAll_world in Hmk as [fs1 ->].
  { by eexists _, _. }
  cbn [world drv].
  destruct (os.WriteFile _ _ _) as [[e2|] w2] eqn:Hwr.
  all: apply WriteFile_world in Hwr as (fs2 & sp & ->).
  { by eexists _, _. }
  cbn [world drv].
  destruct (os.Rename _ _ _) as [e3 w3] eqn:Hrn.
  apply Rename_world in Hrn as [fs3 ->].
  by eexists _, _.
Qed.

Lemma Write_driver c r v s err s' :
  Write c r v s = Some (err, s') →
  held (world s') = held (world s)
  ∧ dir (drv s') = dir (drv s) ∧ log (drv s') = log (drv s)
  ∧ (next_mutex (world s) ≤ next_mutex (world s'))%nat
  ∧ (∀ c' m', mutexes (drv s) !! c' = Some m' → mutexes (drv s') !! c' = Some m')
  ∧ (∀ c', c' ≠ c → mutexes (drv s') !! c' = mutexes (drv s) !! c')
  ∧ (c ≠ "" → r ≠ "" → is_Some (mutexes (drv s') !! c)).
Proof.
  intros HW.
  destruct (String.eqb_spec c "") as [->|Hc].
  { destruct (Write_empty_name "" r v s) as [e He]; [by left|].
    rewrite He in HW. simplify_eq. by split_and!. }
  destruct (String.eqb_spec r "") as [->|Hr].
  { destruct (Write_empty_name c "" v s) as [e He]; [by right|].
    rewrite He in HW. simplify_eq. by split_and!. }
  destruct (Write_unfold c r v s Hc Hr) as (body & Heq & Hbody). rewrite Heq in HW.
  destruct (acquire c s) as [[m s1]|] eqn:Hacq; [|done].
  destruct (Hbody s1) as (a & w2 & Hb & Hh & Hn). rewrite Hb in HW.
  cbn [world] in HW. case_decide; [|done]. injection HW as <- <-.
  apply acquire_spec in Hacq as (Hm & (n & Hw1 & Hnm) & Hd & Hl & Hreg & Hmono & Hoth).
  cbn. rewrite Hh, Hn, Hw1. cbn. split_and!; try done. set_solver.
Qed.

Lemma Write_blocked c r v s m :
  c ≠ "" → r ≠ "" →
  mutexes (drv s) !! c = Some m → m ∈ held (world s) → Write c r v s = None.
Proof.
  intros Hc Hr Hm Hin.
  destruct (Write_unfold c r v s Hc Hr) as (body & -> & _).
  by rewrite (acquire_blocked c s m).
Qed.

End more_driver_facts.

Lemma only_prints_trans w1 w2 w3 : only_prints w1 w2 → only_prints w2 w3 → only_prints w1 w3.
Proof.
  intros [l1 ->] [l2 ->]. exists (l1 ++ l2)%list. cbn. by rewrite app_assoc.
Qed.

Lemma stat_prints p s :
  ∃ s', stat p s = Some (probe p (world s), s')
        ∧ drv s' = drv s ∧ only_prints (world s) (world s').
Proof.
  unfold stat, probe. cbv beta iota delta [bind ask run ret].
  destruct (os.Stat p (world s)) as [fi|e1].
  { exists s. split_and!; [done..|apply only_prints_refl]. }
  destruct (os.IsNotExist e1).
  2:{ exists s. split_and!; [done..|apply only_prints_refl]. }
  destruct (os.Stat (p +:+ ".json") (world s)) as [fi|e2].
  { exists s. split_and!; [done..|apply only_prints_refl]. }
  eexists. split; [reflexivity|]. split; [done|]. apply only_prints_Println.
Qed.

Lemma RemoveAll_subset p w e w' : os.RemoveAll p w = (e, w') → files w' ⊆ files w.
Proof.
  unfold os.RemoveAll. repeat case_match; intros [= _ <-]; try done.
  all: apply map_filter_subseteq.
Qed.

Lemma RemoveAll_files p w e w' :
  os.RemoveAll p w = (e, w') →
  ∃ fs2, w' = set_files fs2 w
         ∧ (fs2 = files w ∨ ∃ q, fs2 = os.remove_tree q (files w)
                                 ∨ fs2 = os.remove_below q (files w)).
Proof.
  unfold os.RemoveAll. repeat case_match; intros [= _ <-]; eauto 6.
  all: exists (files w); rewrite set_files_id; eauto.
Qed.

Lemma ReadAll_loop_state dirp names acc s :
  ∃ res, ReadAll_loop dirp names acc s = Some (res, s).
Proof.
  revert acc. induction names as [|n names IH]; intros acc; [by eexists|].
  cbn [ReadAll_loop]. cbv beta iota delta [bind ask].
  destruct (os.ReadFile _ _); [apply IH|by eexists].
Qed.

Section more_driver_facts2.
Context {value : Type} `{!Codec value}.

Lemma Delete_unfold c r s :
  ∃ body : M (option error),
    Delete c r s
    = match acquire c s with
      | Some (m, s1) =>
          match body s1 with
          | Some (a, s2) =>
              if decide (m ∈ held (world s2)) then Some (a, release m s2) else None
          | None => None
          end
      | None => None
      end
    ∧ ∀ s1, ∃ a w2 fs2,
        body s1 = Some (a, {| drv := drv s1; world := set_files fs2 w2 |})
        ∧ only_prints (world s1) w2
        ∧ (fs2 = files (world s1)
           ∨ ∃ q, fs2 = os.remove_tree q (files (world s1))
                  ∨ fs2 = os.remove_below q (files (world s1))).
Proof.
  unfold Delete.
  match goal with
  | |- context [deferring _ ?b] => exists b
  end.
  split; [apply locked_acquire|].
  intros s1. cbv beta iota delta [bind get_drv ret sys].
  destruct (stat_prints (filepath.Join [dir (drv s1); filepath.Join [c; r]]) s1)
    as (s1' & -> & Hd & Hp).
  assert (Hsame : files (world s1') = files (world s1)).
  { by apply only_prints_same_tree in Hp as [? _]. }
  assert (Hid : ∀ a : option error,
             ∃ a' w2 fs2, Some (a, s1') = Some (a', {| drv := drv s1; world := set_files fs2 w2 |})
                          ∧ only_prints (world s1) w2
                          ∧ (fs2 = files (world s1)
                             ∨ ∃ q, fs2 = os.remove_tree q (files (world s1))
                                    ∨ fs2 = os.remove_below q (files (world s1)))).
  { intros a. exists a, (world s1'), (files (world s1')).
    rewrite set_files_id, <- Hd. split_and!; [by destruct s1'|done|by left]. }
  destruct (probe _ _) as [[fi|] [e|]]; try apply Hid.
  destruct (os.IsDir _).
  - destruct (os.RemoveAll _ _) as [e w2] eqn:Hrm.
    apply RemoveAll_files in Hrm as (fs2 & -> & Hfs). rewrite Hsame in Hfs.
    exists e, (world s1'), fs2. by rewrite Hd.
  - destruct (os.IsRegular _); [|apply Hid].
    destruct (os.RemoveAll _ _) as [e w2] eqn:Hrm.
    apply RemoveAll_files in Hrm as (fs2 & -> & Hfs). rewrite Hsame in Hfs.
    exists e, (world s1'), fs2. by rewrite Hd.
Qed.

Lemma Delete_driver c r s err s' :
  Delete c r s = Some (err, s') →
  held (world s') = held (world s)
  ∧ cwd (world s') = cwd (world s) ∧ space (world s') = space (world s)
  ∧ files (world s') ⊆ files (world s)
  ∧ dir (drv s') = dir (drv s) ∧ log (drv s') = log (drv s)
  ∧ (next_mutex (world s) ≤ next_mutex (world s'))%nat
  ∧ (∀ c' m', mutexes (drv s) !! c' = Some m' → mutexes (drv s') !! c' = Some m')
  ∧ (∀ c', c' ≠ c → mutexes (drv s') !! c' = mutexes (drv s) !! c')
  ∧ is_Some (mutexes (drv s') !! c).
Proof.
  intros HD.
  destruct (Delete_unfold c r s) as (body & Heq & Hbody). rewrite Heq in HD.
  destruct (acquire c s) as [[m s1]|] eqn:Hacq; [|done].
  destruct (Hbody s1) as (a & w2 & fs2 & Hb & [lines ->] & Hfs). rewrite Hb in HD.
  cbn [world] in HD. case_decide; [|done]. injection HD as <- <-.
  apply acquire_spec in Hacq as (Hm & (n & Hw1 & Hnm) & Hd & Hl & Hreg & Hmono & Hoth).
  rewrite Hw1 in Hfs. cbn in Hfs.
  cbn. rewrite Hw1. cbn. split_and!; try done; [set_solver|].
  destruct Hfs as [->|[q [->| ->]]]; [done|apply map_filter_subseteq..].
Qed.

Lemma Delete_tree c r s err s' :
  Delete c r s = Some (err, s') →
  files (world s') = files (world s)
  ∨ ∃ q, files (world s') = os.remove_tree q (files (world s))
         ∨ files (world s') = os.remove_below q (files (world s)).
Proof.
  intros HD.
  destruct (Delete_unfold c r s) as (body & Heq & Hbody). rewrite Heq in HD.
  destruct (acquire c s) as [[m s1]|] eqn:Hacq; [|done].
  destruct (Hbody s1) as (a & w2 & fs2 & Hb & [lines ->] & Hfs). rewrite Hb in HD.
  cbn [world] in HD. case_decide; [|done]. injection HD as <- <-.
  apply acquire_spec in Hacq as (_ & (n & Hw1 & _) & _).
  rewrite Hw1 in Hfs. by cbn in *.
Qed.

Lemma Delete_blocked c r s m :
  mutexes (drv s) !! c = Some m → m ∈ held (world s) → Delete c r s = None.
Proof.
  intros Hm Hin.
  destruct (Delete_unfold c r s) as (body & -> & _).
  by rewrite (acquire_blocked c s m).
Qed.

Lemma Read_prints c r out s :
  ∃ res s', Read c r out s = Some (res, s')
            ∧ drv s' = drv s ∧ only_prints (world s) (world s').
Proof.
  unfold Read. destruct (c =? "")%string.
  { eexists _, _. split_and!; [done..|apply only_prints_refl]. }
  destruct (r =? "")%string.
  { eexists _, _. split_and!; [done..|apply only_prints_refl]. }
  cbv beta iota delta [bind get_drv ret ask].
  destruct (stat_prints (filepath.Join [dir (drv s); c; r]) s) as (s' & -> & Hd & Hp).
  destruct (snd _); [by eexists _, _|].
  destruct (os.ReadFile _ _); by eexists _, _.
Qed.

Lemma ReadAll_prints c s :
  ∃ res s', ReadAll c s = Some (res, s')
            ∧ drv s' = drv s ∧ only_prints (world s) (world s').
Proof.
  unfold ReadAll. destruct (c =? "")%string.
  { eexists _, _. split_and!; [done..|apply only_prints_refl]. }
  cbv beta iota delta [bind get_drv ret ask].
  destruct (stat_prints (filepath.Join [dir (drv s); c]) s) as (s' & -> & Hd & Hp).
  destruct (snd _); [by eexists _, _|].
  match goal with
  | |- context [ReadAll_loop ?d ?n ?a s'] =>
      destruct (ReadAll_loop_state d n a s') as [res ->]
  end.
  by eexists _, _.
Qed.

End more_driver_facts2.

Section locks_and_frames.
Context {value : Type} `{!Codec value}.

(** Property X1. [Write] returns with the mutexes held as they were, on every
    path, and it never removes or replaces a registered mutex; after a call
    that passed the validation the collection has one. *)
Theorem Write_releases_its_lock c r v s err s' :
  Write c r v s = Some (err, s') →
  held (world s') = held (world s)
  ∧ (∀ c' m, mutexes (drv s) !! c' = Some m → mutexes (drv s') !! c' = Some m)
  ∧ (c ≠ "" → r ≠ "" → is_Some (mutexes (drv s') !! c)).
Proof. intros (? & _ & _ & _ & ? & _ & ?)%Write_driver. by split_and!. Qed.

(** Property X2. [Delete] returns with the mutexes held as they were and never
    removes a registered mutex: the mutex of a collection stays in the
    registry, also when the collection itself is deleted. *)
Theorem Delete_releases_its_lock c r s err s' :
  Delete c r s = Some (err, s') →
  held (world s') = held (world s)
  ∧ (∀ c' m, mutexes (drv s) !! c' = Some m → mutexes (drv s') !! c' = Some m)
  ∧ is_Some (mutexes (drv s') !! c).
Proof. intros (? & _ & _ & _ & _ & _ & _ & ? & _ & ?)%Delete_driver. by split_and!. Qed.

(** Property X3. While the mutex of a collection is held, a [Write] that
    passed the validation and a [Delete] on that collection do not return;
    [Read] and [ReadAll] take no lock and return. *)
Theorem held_lock_blocks_writers_only c r v (out : value) s m :
  mutexes (drv s) !! c = Some m → m ∈ held (world s) →
  (c ≠ "" → r ≠ "" → Write c r v s = None)
  ∧ Delete c r s = None
  ∧ (∃ res s', Read c r out s = Some (res, s'))
  ∧ (∃ res s', ReadAll c s = Some (res, s')).
Proof.
  intros Hm Hin. split_and!.
  - intros Hc Hr. by eapply Write_blocked.
  - by eapply Delete_blocked.
  - destruct (Read_prints c r out s) as (res & s' & ? & _). by exists res, s'.
  - destruct (ReadAll_prints c s) as (res & s' & ? & _). by exists res, s'.
Qed.

(** Property X4. [Read] and [ReadAll] return for every input and every state,
    and change nothing: the driver, the tree and the mutexes are as before,
    and the console only has more lines. *)
Theorem Read_and_ReadAll_change_nothing c r (out : value) s :
  (∃ res s', Read c r out s = Some (res, s')
             ∧ drv s' = drv s ∧ only_prints (world s) (world s'))
  ∧ (∃ res s', ReadAll c s = Some (res, s')
               ∧ drv s' = drv s ∧ only_prints (world s) (world s')).
Proof. split; [apply Read_prints|apply ReadAll_prints]. Qed.

(** Property X5. Whatever its arguments and whatever it returns, [Delete] adds
    and changes no entry: every entry of the tree after the call was there
    before, with the same content. *)
Theorem Delete_only_removes c r s err s' :
  Delete c r s = Some (err, s') → files (world s') ⊆ files (world s).
Proof. by intros (_ & _ & _ & ? & _)%Delete_driver. Qed.

End locks_and_frames.

(** *** What [Read] and [ReadAll] return *)

Lemma ReadAll_loop_inv dirp names acc s ds s' :
  ReadAll_loop dirp names acc s = Some ((ds, None), s') →
  ∃ ds', ds = (acc ++ ds')%list
         ∧ Forall2 (λ n d, os.ReadFile (filepath.Join [dirp; n]) (world s) = Ok d) names ds'.
Proof.
  revert acc. induction names as [|n names IH]; intros acc.
  - cbn. intros [= <- <-]. exists []. split; [by rewrite app_nil_r|constructor].
  - cbn [ReadAll_loop]. cbv beta iota delta [bind ask].
    destruct (os.ReadFile _ _) as [d|e] eqn:Hn; [|done].
    intros (ds' & -> & Hds)%IH. exists (d :: ds'). split.
    + by rewrite <- app_assoc.
    + by constructor.
Qed.

Lemma probe_passes p w :
  absent p w = false ∨ (∃ fi, os.Stat (p +:+ ".json") w = Ok fi) →
  snd (probe p w) = None.
Proof.
  unfold absent, probe. intros [H|[fi H]].
  - destruct (os.Stat p w) as [|e]; [done|]. by rewrite H.
  - destruct (os.Stat p w) as [|e]; [done|]. destruct (os.IsNotExist e); [|done].
    by rewrite H.
Qed.

Section read_side.
Context {value : Type} `{!Codec value}.

Lemma ReadAll_unfold c s :
  c ≠ "" →
  let dirp := filepath.Join [dir (drv s); c] in
  snd (probe dirp (world s)) = None →
  ReadAll c s
  = ReadAll_loop dirp (match os.ReadDir dirp (world s) with
                       | Ok names => names
                       | Err _ => []
                       end) [] s.
Proof.
  intros Hc%String.eqb_neq dirp Hp. unfold ReadAll. rewrite Hc.
  cbv beta iota delta [bind get_drv ask]. fold dirp.
  destruct (stat_spec dirp s) as (s' & -> & _ & _ & _ & Hs').
  rewrite Hp. by rewrite (Hs' Hp).
Qed.

(** Property X6. A [Read] that returns no error has decoded the file
    [<root>/<c>/<r>.json], whatever [stat] found, and has changed and printed
    nothing. *)
Theorem Read_decodes_record c r (out v : value) s s' :
  Read c r out s = Some ((v, None), s') →
  c ≠ "" ∧ r ≠ "" ∧ s' = s
  ∧ ∃ data,
      os.ReadFile (filepath.Join [dir (drv s); c; r] +:+ ".json") (world s) = Ok data
      ∧ Unmarshal data out = (v, None).
Proof.
  intros HR.
  destruct (String.eqb_spec c "") as [->|Hc]; [done|].
  destruct (String.eqb_spec r "") as [->|Hr].
  { unfold Read in HR. apply String.eqb_neq in Hc. by rewrite Hc in HR. }
  destruct (Read_spec c r out s Hc Hr) as (s1 & _ & _ & Hs1 & Heq).
  rewrite Heq in HR.
  destruct (snd (probe _ _)) as [e|]; [done|].
  rewrite (Hs1 eq_refl) in HR.
  destruct (os.ReadFile _ _) as [data|e] eqn:Hrf; [|done].
  injection HR as HU <-. split_and!; [done..|]. by exists data.
Qed.

(** Property X7. For a non-empty collection name, when neither [<root>/<c>]
    nor [<root>/<c>.json] exists, [ReadAll c] returns no record and an error
    for which [os.IsNotExist] holds, and changes nothing but the console. *)
Theorem ReadAll_missing_collection c s :
  c ≠ "" →
  let dirp := filepath.Join [dir (drv s); c] in
  absent dirp (world s) = true → absent (dirp +:+ ".json") (world s) = true →
  ∃ e s', ReadAll c s = Some (([], Some e), s')
          ∧ os.IsNotExist e = true
          ∧ drv s' = drv s ∧ only_prints (world s) (world s').
Proof.
  intros Hc%String.eqb_neq dirp H1 H2. unfold ReadAll. rewrite Hc.
  cbv beta iota delta [bind get_drv ret ask]. fold dirp.
  destruct (stat_prints dirp s) as (s' & -> & Hd & Hp).
  destruct (probe_absent _ _ H1 H2) as (e & -> & He). cbn [snd].
  by exists e, s'.
Qed.

(** Property X8. For a non-empty collection name, when [<root>/<c>] is not a
    directory and yet [stat] is satisfied (something else is found there, or
    the lookup fails otherwise than by absence, or [<root>/<c>.json] exists),
    [ReadAll c] returns no record and no error: the error of [os.ReadDir] is
    dropped. *)
Theorem ReadAll_not_a_directory c s :
  c ≠ "" →
  let dirp := filepath.Join [dir (drv s); c] in
  is_dir dirp (world s) = false →
  absent dirp (world s) = false ∨ (∃ fi, os.Stat (dirp +:+ ".json") (world s) = Ok fi) →
  ReadAll c s = Some (([], None), s).
Proof.
  intros Hc dirp Hnd Hp%probe_passes.
  rewrite ReadAll_unfold by done. fold dirp.
  unfold os.ReadDir, is_dir in *.
  by destruct (os.lookup_name (world s) dirp) as [e|[d|]].
Qed.

(** Property X9. A directory inside the directory of a collection makes
    [ReadAll] fail: it tries to read every entry as a file. *)
Theorem ReadAll_fails_on_subdirectory c n s :
  c ≠ "" →
  let dirp := filepath.Join [dir (drv s); c] in
  is_dir dirp (world s) = true →
  plain n = true →
  files (world s) !! (n :: os.abspath (world s) dirp) = Some Dir →
  ∃ e, ReadAll c s = Some (([], Some e), s).
Proof.
  intros Hc dirp Hdir Hn Hsub.
  pose proof (is_dir_not_empty _ _ Hdir) as Hne.
  rewrite ReadAll_unfold; [|done|by rewrite probe_dir]. fold dirp.
  pose proof Hdir as Hl%is_dir_spec.
  unfold os.ReadDir. rewrite Hl.
  apply ReadAll_loop_fail, Exists_exists. exists n. split.
  - apply elem_of_children. by eexists.
  - exists (PathError "read" (filepath.Join [dirp; n]) EISDIR).
    unfold os.ReadFile.
    rewrite lookup_name_locate by (apply Join2_not_empty; by apply plain_spec in Hn as (_ & ? & _)).
    rewrite abspath_Join2 by done.
    rewrite lookup_name_locate in Hl by done.
    by rewrite locate_cons, Hsub.
Qed.

(** Property X10. After a [Write c r v] that returned no error, for names that
    are single ordinary path elements, every [ReadAll c] that returns no error
    returns the encoding of [v], followed by a newline, among its records. *)
Theorem Write_then_ReadAll c r v s s1 ds s2 :
  plain c = true → plain r = true →
  Write c r v s = Some (None, s1) →
  ReadAll c s1 = Some ((ds, None), s2) →
  ∃ b, MarshalIndent v "" TAB = Ok b ∧ (b +:+ NL) ∈ ds.
Proof.
  intros Hc Hr HW HRA.
  apply Write_final in HW as (Hc' & Hr' & Hdir & _ & b & Hb & Hcont).
  exists b. split; [done|].
  set (dirp := filepath.Join [dir (drv s); c]) in *.
  set (fnl := filepath.Join [dirp; r +:+ ".json"]) in *.
  assert (Hj : plain (r +:+ ".json") = true).
  { apply plain_suffix; [by apply plain_no_sep|done|cbn; lia]. }
  assert (Hdne : dirp ≠ "") by (by apply Join2_not_empty).
  assert (Hfne : fnl ≠ "") by (by apply Join2_not_empty, json_not_empty).
  assert (Hqf : os.abspath (world s1) fnl = (r +:+ ".json") :: os.abspath (world s1) dirp).
  { by apply abspath_Join2. }
  assert (Hfile : os.locate (files (world s1)) ((r +:+ ".json") :: os.abspath (world s1) dirp)
                  = inr (File (b +:+ NL))).
  { unfold contents in Hcont. rewrite lookup_name_locate, Hqf in Hcont by done.
    by destruct (os.locate _ _) as [|[|]]; simplify_eq/=. }
  pose proof Hfile as [Hpar Hent]%locate_cons_inv.
  assert (Hisdir : is_dir dirp (world s1) = true).
  { apply is_dir_spec. by rewrite lookup_name_locate. }
  rewrite ReadAll_unfold in HRA; [|done|rewrite Hdir; by rewrite probe_dir].
  rewrite Hdir in HRA. fold dirp in HRA.
  unfold os.ReadDir in HRA. apply is_dir_spec in Hisdir as Hl. rewrite Hl in HRA.
  apply ReadAll_loop_inv in HRA as (ds' & -> & Hall). cbn [app].
  assert (Hin : (r +:+ ".json") ∈ os.children (files (world s1)) (os.abspath (world s1) dirp)).
  { apply elem_of_children. by eexists. }
  apply list_elem_of_lookup_1 in Hin as [i Hi].
  destruct (Forall2_lookup_l _ _ _ _ _ Hall Hi) as (d & Hd & Hread).
  apply list_elem_of_lookup_2 in Hd.
  unfold os.ReadFile in Hread. fold fnl in Hread.
  rewrite lookup_name_locate, Hqf, Hfile in Hread by done. by injection Hread as <-.
Qed.

End read_side.

(** *** The tree, entry by entry *)

(** *** Well-formed trees *)

Lemma wf_files_intro fs : in_dirs fs → wf_files fs = true.
Proof.
  intros Hwf. unfold wf_files. apply forallb_forall. intros k Hin.
  apply list_elem_of_In, list_elem_of_fmap in Hin as ([k' x] & -> & Hk).
  apply elem_of_map_to_list in Hk. cbn.
  destruct k' as [|n [|m p]]; [done..|]. cbn.
  destruct (Hwf _ _ _ Hk) as [? | ->]; done.
Qed.

Lemma locate_dir_lookup fs q : os.locate fs q = inr Dir → q = [] ∨ fs !! q = Some Dir.
Proof. destruct q as [|n p]; [by left|]. intros [_ ?]%locate_cons_inv. by right. Qed.

Lemma in_dirs_insert_file fs n par d :
  in_dirs fs → os.locate fs par = inr Dir → fs !! (n :: par) ≠ Some Dir →
  in_dirs (<[n :: par := File d]> fs).
Proof.
  intros Hwf Hpar Hnd n' p' x Hk.
  destruct (decide (n' :: p' = n :: par)) as [[= -> ->]|Hne].
  - destruct (locate_dir_lookup _ _ Hpar) as [?|Hp]; [by left|right].
    rewrite lookup_insert_ne; [done|]. intros Heq.
    apply (f_equal length) in Heq. cbn in Heq. lia.
  - rewrite lookup_insert_ne in Hk by done.
    destruct (Hwf _ _ _ Hk) as [?|Hp]; [by left|right].
    rewrite lookup_insert_ne; [done|]. by intros <-.
Qed.

Lemma in_dirs_delete_file fs q d :
  in_dirs fs → fs !! q = Some (File d) → in_dirs (delete q fs).
Proof.
  intros Hwf Hq n' p' x Hk.
  apply lookup_delete_Some in Hk as [Hne Hk].
  destruct (Hwf _ _ _ Hk) as [?|Hp]; [by left|right].
  rewrite lookup_delete_ne; [done|]. intros <-. congruence.
Qed.

Lemma in_dirs_remove_tree fs q : in_dirs fs → in_dirs (os.remove_tree q fs).
Proof.
  intros Hwf n' p' x Hk. rewrite lookup_remove_tree in Hk.
  destruct (decide (q `suffix_of` n' :: p')) as [|Hns]; [done|].
  destruct (Hwf _ _ _ Hk) as [?|Hp]; [by left|right].
  rewrite lookup_remove_tree. rewrite decide_False; [done|].
  intros Hs. apply Hns. by apply suffix_cons_r.
Qed.

Lemma lookup_remove_below q fs k :
  os.remove_below q fs !! k
  = if decide (q `suffix_of` k ∧ k ≠ q) then None else fs !! k.
Proof.
  unfold os.remove_below, os.below. destruct (decide (q `suffix_of` k ∧ k ≠ q)) as [Hs|Hs].
  - apply map_lookup_filter_None. right. intros x _. cbn. tauto.
  - destruct (fs !! k) as [x|] eqn:Hk.
    + apply map_lookup_filter_Some. by split.
    + apply map_lookup_filter_None. by left.
Qed.

Lemma in_dirs_remove_below fs q : in_dirs fs → in_dirs (os.remove_below q fs).
Proof.
  intros Hwf n' p' x Hk. rewrite lookup_remove_below in Hk.
  destruct (decide (q `suffix_of` n' :: p' ∧ n' :: p' ≠ q)) as [|Hns]; [done|].
  destruct (Hwf _ _ _ Hk) as [?|Hp]; [by left|right].
  rewrite lookup_remove_below. rewrite decide_False; [done|].
  intros [Hs Hne]. apply Hns. split; [by apply suffix_cons_r|].
  intros <-. by apply suffix_cons_not in Hs.
Qed.

Lemma in_dirs_mkdir_all fs q fs' e :
  in_dirs fs → os.mkdir_all fs q = (fs', e) →
  in_dirs fs' ∧ (e = None → q = [] ∨ fs' !! q = Some Dir).
Proof.
  intros Hwf. revert fs' e. induction q as [|n p IH]; intros fs' e; cbn [os.mkdir_all].
  - intros [= <- <-]. split; [done|]. by left.
  - destruct (os.mkdir_all fs p) as [fs1 [e1|]] eqn:Hp.
    + intros [= <- <-]. destruct (IH _ _ eq_refl) as [H1 _]. done.
    + destruct (IH _ _ eq_refl) as [H1 H2]. specialize (H2 eq_refl).
      destruct (fs1 !! (n :: p)) as [[d|]|] eqn:Hq; intros [= <- <-].
      * done.
      * split; [done|]. by right.
      * split; [|intros _; right; by rewrite lookup_insert_eq].
        intros n' p' x Hk.
        destruct (decide (n' :: p' = n :: p)) as [[= -> ->]|Hne].
        -- destruct H2 as [?|H2]; [by left|right].
           rewrite lookup_insert_ne; [done|]. intros Heq.
           apply (f_equal length) in Heq. cbn in Heq. lia.
        -- rewrite lookup_insert_ne in Hk by done.
           destruct (H1 _ _ _ Hk) as [?|Hp']; [by left|right].
           rewrite lookup_insert_ne; [done|]. intros <-. congruence.
Qed.

(** *** The file operations, entry by entry *)

Lemma WriteFile_cases p data w e w' :
  os.WriteFile p data w = (e, w') →
  cwd w' = cwd w
  ∧ ((files w' = files w ∧ e ≠ None)
     ∨ ∃ n par d',
         p ≠ "" ∧ os.abspath w p = n :: par
         ∧ os.locate (files w) par = inr Dir
         ∧ files w !! (n :: par) ≠ Some Dir
         ∧ files w' = <[n :: par := File d']> (files w)
         ∧ (e = None → d' = data)).
Proof.
  unfold os.WriteFile. destruct (String.eqb_spec p ""); [intros [= <- <-]; naive_solver|].
  destruct (os.abspath w p) as [|n0 parent] eqn:Hq; [intros [= <- <-]; naive_solver|].
  destruct (os.locate (files w) parent) as [e1|[d|]] eqn:Hpar;
    [intros [= <- <-]; naive_solver..|].
  assert (Hwd : files w !! (n0 :: parent) ≠ Some Dir →
    os.write_data (n0 :: parent) p data w = (e, w') →
    cwd w' = cwd w
    ∧ ((files w' = files w ∧ e ≠ None)
     ∨ ∃ n par d',
         p ≠ "" ∧ n0 :: parent = n :: par
         ∧ os.locate (files w) par = inr Dir
         ∧ files w !! (n :: par) ≠ Some Dir
         ∧ files w' = <[n :: par := File d']> (files w)
         ∧ (e = None → d' = data))).
  { intros Hnd. unfold os.write_data. destruct (space w) as [n1|].
    - destruct (Nat.leb _ _); intros [= <- <-]; cbn.
      + split; [done|]. right. by eexists _, _, _.
      + split; [done|]. right. by eexists _, _, _.
    - intros [= <- <-]; cbn. split; [done|]. right. by eexists _, _, _. }
  destruct (files w !! (n0 :: parent)) as [[d|]|] eqn:Hent.
  - by apply Hwd.
  - intros [= <- <-]; naive_solver.
  - by apply Hwd.
Qed.

Lemma Rename_file o n w e w' d :
  os.Rename o n w = (e, w') →
  os.locate (files w) (os.abspath w o) = inr (File d) →
  cwd w' = cwd w
  ∧ ((e ≠ None ∧ w' = w)
     ∨ (e = None ∧ ∃ n1 pn,
          os.abspath w n = n1 :: pn
          ∧ os.locate (files w) pn = inr Dir
          ∧ files w !! (n1 :: pn) ≠ Some Dir
          ∧ files w' = <[n1 :: pn := File d]> (delete (os.abspath w o) (files w)))).
Proof.
  destruct (Rename_cases o n w) as [->|[e0 ->]]; [|intros [= <- <-]; naive_solver].
  unfold os.rename.
  destruct (String.eqb_spec o "") as [|Ho]; [intros [= <- <-]; naive_solver|].
  destruct (String.eqb_spec n "") as [|Hn]; [intros [= <- <-]; naive_solver|]. cbn [orb].
  destruct (os.abspath w o) as [|o0 po] eqn:Hqo; [intros [= <- <-]; naive_solver|].
  set (qo := o0 :: po) in *. intros HR Hsrc. rewrite Hsrc in HR.
  destruct (os.rename_at qo (os.abspath w n) (File d) (files w)) as [e1|fs1] eqn:Hrn;
    injection HR as <- <-; [naive_solver|].
  split; [done|]. right. split; [done|].
  revert Hrn. unfold os.rename_at.
  destruct (os.abspath w n) as [|n1 pn] eqn:Hqn; [done|].
  destruct (os.locate (files w) pn) as [e1|[d1|]] eqn:Hpar; [done..|].
  pose proof Hsrc as [_ Hent]%locate_cons_inv. subst qo.
  destruct (decide (o0 :: po = n1 :: pn)) as [[= <- <-]|Hne].
  - intros [= <-]. exists o0, po. split_and!; [done..|congruence|].
    cbn. rewrite insert_delete_eq. by rewrite insert_id.
  - destruct (files w !! (n1 :: pn)) as [[d1|]|] eqn:Hdst; [|done|]; intros [= <-].
    + exists n1, pn. split_and!; [done..|congruence|done].
    + exists n1, pn. split_and!; [done..|congruence|done].
Qed.

Section write_tree.
Context {value : Type} `{!Codec value}.

(** The tree after a [Write] that passed the validation. *)
Lemma Write_tree c r v s err s' :
  Write c r v s = Some (err, s') → c ≠ "" → r ≠ "" →
  let dirp := filepath.Join [dir (drv s); c] in
  let fnl := filepath.Join [dirp; r +:+ ".json"] in
  let qd := os.abspath (world s) dirp in
  let qf := os.abspath (world s) fnl in
  let qt := os.abspath (world s) (fnl +:+ ".tmp") in
  cwd (world s') = cwd (world s)
  ∧ ∃ fs1 e1,
      os.mkdir_all (files (world s)) qd = (fs1, e1)
      ∧ ((files (world s') = files (world s) ∧ err ≠ None)
         ∨ (files (world s') = fs1 ∧ err ≠ None)
         ∨ (∃ n P, qt = n :: P ∧ os.locate fs1 qd = inr Dir ∧ os.locate fs1 P = inr Dir
              ∧ fs1 !! qt ≠ Some Dir
              ∧ ((∃ d', files (world s') = <[qt := File d']> fs1 ∧ err ≠ None)
                 ∨ ∃ b n' P',
                     MarshalIndent v "" TAB = Ok b ∧ err = None
                     ∧ qf = n' :: P' ∧ os.locate (<[qt := File (b +:+ NL)]> fs1) P' = inr Dir
                     ∧ <[qt := File (b +:+ NL)]> fs1 !! qf ≠ Some Dir
                     ∧ files (world s')
                       = <[qf := File (b +:+ NL)]> (delete qt (<[qt := File (b +:+ NL)]> fs1))))).
Proof.
  intros HW Hc Hr dirp fnl qd qf qt.
  destruct (Write_cases _ _ _ _ _ _ HW Hc Hr) as (w0 & [Hf0 Hc0] & _ & _ & Hcases).
  fold dirp fnl in Hcases.
  assert (Hdne : dirp ≠ "") by (by apply Join2_not_empty).
  destruct (os.mkdir_all (files (world s)) qd) as [fs1 e1] eqn:Hmkd.
  assert (Hmk : ∀ e w1, os.MkdirAll dirp w0 = (e, w1) →
            files w1 = fs1 ∧ cwd w1 = cwd (world s)
            ∧ (e = None → os.locate fs1 qd = inr Dir)).
  { intros e w1. unfold os.MkdirAll. apply String.eqb_neq in Hdne as ->.
    rewrite (abspath_cwd (world s) w0), Hf0 by done. fold qd. rewrite Hmkd.
    destruct e1; intros [= <- <-]; cbn; split_and!; try done.
    intros _. by eapply mkdir_all_ok. }
  destruct Hcases as [(e & _ & -> & [Hfs Hcs])
                     |(b & Hb & [(e & w1 & H1 & -> & [Hfs Hcs])
                                |(w1 & H1 & [(e & w2 & H2 & -> & [Hfs Hcs])
                                            |(w2 & w3 & H2 & H3 & [Hfs Hcs])])])].
  - split; [congruence|]. exists fs1, e1. split; [done|]. left. split; [congruence|done].
  - apply Hmk in H1 as (Hf1 & Hc1 & _).
    split; [congruence|]. exists fs1, e1. split; [done|]. right. left.
    split; [congruence|done].
  - apply Hmk in H1 as (Hf1 & Hc1 & Hd1). specialize (Hd1 eq_refl).
    apply WriteFile_cases in H2 as (Hc2 & H2).
    split; [congruence|]. exists fs1, e1. split; [done|].
    destruct H2 as [[Hf2 _]|(n & P & d' & _ & Hq & Hpar & Hnd & Hf2 & _)].
    + right. left. split; [congruence|done].
    + right. right. rewrite (abspath_cwd (world s) w1) in Hq by done. fold qt in Hq.
      rewrite Hf1 in *. exists n, P. split_and!; [done..|by rewrite Hq|].
      left. exists d'. split; [|done]. rewrite Hfs, Hf2. by rewrite Hq.
  - apply Hmk in H1 as (Hf1 & Hc1 & Hd1). specialize (Hd1 eq_refl).
    pose proof H2 as H2'.
    apply WriteFile_cases in H2 as (Hc2 & H2).
    apply WriteFile_spec in H2' as (_ & _ & Hfile). destruct (Hfile eq_refl) as [_ Hfile'].
    destruct H2 as [[_ ?]|(n & P & d' & _ & Hq & Hpar & Hnd & Hf2 & Hd')]; [done|].
    specialize (Hd' eq_refl) as ->.
    rewrite (abspath_cwd (world s) w1) in Hq, Hfile' by done. fold qt in Hq, Hfile'.
    rewrite Hf1 in *.
    apply (Rename_file _ _ _ _ _ (b +:+ NL)) in H3 as (Hc3 & H3);
      [|by rewrite (abspath_cwd (world s) w2) by congruence].
    split; [congruence|]. exists fs1, e1. split; [done|]. right. right.
    exists n, P. split_and!; [done..|by rewrite Hq|].
    destruct H3 as [[He ->]|(-> & n1 & pn & Hqn & Hpn & Hndn & Hf3)].
    + left. exists (b +:+ NL). split; [|done]. rewrite Hfs, Hf2. by rewrite Hq.
    + right. rewrite !(abspath_cwd (world s) w2) in * by congruence.
      fold qf in Hqn. fold qt in Hf3. rewrite Hf2 in *. rewrite <- Hq in *.
      exists b, n1, pn. split_and!; [done..|by rewrite Hqn|].
      rewrite Hfs, Hf3. by rewrite Hqn.
Qed.

End write_tree.

(** *** Where [Write] fails, and what it leaves *)

Lemma mkdir_all_blocked fs q :
  os.locate fs q = inl ENOTDIR ∨ (∃ d, os.locate fs q = inr (File d)) →
  os.mkdir_all fs q = (fs, Some ENOTDIR).
Proof.
  induction q as [|n p IH]; [by intros [|[? ?]]|].
  destruct (os.locate fs p) as [e|[d|]] eqn:Hp.
  - intros [H|[d H]]; cbn [os.locate] in H; rewrite Hp in H; [|done].
    injection H as ->. cbn [os.mkdir_all]. rewrite IH; [done|by left].
  - intros _. cbn [os.mkdir_all]. rewrite IH; [done|]. right. by exists d.
  - rewrite mkdir_all_child, locate_cons by done.
    destruct (fs !! (n :: p)) as [[d|]|]; [done|by intros [|[? ?]]..].
Qed.

Lemma not_above fs qd q :
  os.locate fs qd = inr Dir → q ≠ [] → fs !! q ≠ Some Dir → ¬ q `suffix_of` qd.
Proof.
  intros Hd Hq Hnd Hs. destruct (decide (q = qd)) as [->|Hne].
  - by destruct (locate_dir_lookup _ _ Hd).
  - pose proof (locate_through _ _ _ _ Hd Hs Hne) as H.
    by destruct (locate_dir_lookup _ _ H).
Qed.

Section write_side.
Context {value : Type} `{!Codec value}.

(** Property X11. Whatever it returns, [Write c r v] leaves every entry of the
    tree as it was, apart from the final file and the temporary file of the
    record and from the directories it creates on the way to the collection,
    where there was nothing. *)
Theorem Write_touches_only_its_record c r v s err s' k :
  Write c r v s = Some (err, s') →
  let dirp := filepath.Join [dir (drv s); c] in
  let fnl := filepath.Join [dirp; r +:+ ".json"] in
  k ≠ os.abspath (world s) fnl → k ≠ os.abspath (world s) (fnl +:+ ".tmp") →
  files (world s') !! k = files (world s) !! k
  ∨ (files (world s) !! k = None ∧ files (world s') !! k = Some Dir
     ∧ k `suffix_of` os.abspath (world s) dirp).
Proof.
  intros HW dirp fnl Hkf Hkt.
  destruct (String.eqb_spec c "") as [->|Hc].
  { destruct (Write_empty_name "" r v s) as [e He]; [by left|]. left. congruence. }
  destruct (String.eqb_spec r "") as [->|Hr].
  { destruct (Write_empty_name c "" v s) as [e He]; [by right|]. left. congruence. }
  destruct (Write_tree _ _ _ _ _ _ HW Hc Hr) as (_ & fs1 & e1 & Hmk & Hcases).
  fold dirp fnl in Hmk, Hcases.
  apply mkdir_all_grows in Hmk. specialize (Hmk k).
  destruct Hcases as [[-> _]|[[-> _]|(n & P & Hqt & _ & _ & _ & [(d' & -> & _)|(b & n' & P' & _ & _ & Hqf & _ & _ & ->)])]].
  - by left.
  - done.
  - by rewrite lookup_insert_ne.
  - by rewrite lookup_insert_ne, lookup_delete_ne, lookup_insert_ne.
Qed.

(** Property X12. After a [Write] that returned no error the directory of the
    collection exists and no temporary file is left, whatever was there
    before. *)
Theorem Write_leaves_no_temporary_file c r v s s' :
  Write c r v s = Some (None, s') →
  let dirp := filepath.Join [dir (drv s); c] in
  let fnl := filepath.Join [dirp; r +:+ ".json"] in
  is_dir dirp (world s') = true ∧ absent (fnl +:+ ".tmp") (world s') = true.
Proof.
  intros HW dirp fnl.
  pose proof (Write_final _ _ _ _ _ HW) as (Hc & Hr & _ & Hcwd & _).
  destruct (Write_tree _ _ _ _ _ _ HW Hc Hr) as (_ & fs1 & e1 & Hmk & Hcases).
  fold dirp fnl in Hmk, Hcases.
  destruct (Write_paths (world s) (dir (drv s)) c r Hc) as (nn & PP & Hqf & Hqt & Hfne).
  fold dirp fnl in Hqf, Hqt, Hfne.
  assert (Hdne : dirp ≠ "") by (by apply Join2_not_empty).
  destruct Hcases as [[_ ?]|[[_ ?]|(n & P & Hqt' & Hd & HP & Hnt & [(d' & _ & ?)|(b & n' & P' & _ & _ & Hqf' & HP' & Hnf & Hfs)])]];
    [done..|].
  rewrite Hqt, Hqf in *. injection Hqt' as <- <-. injection Hqf' as <- <-.
  assert (Hne : nn :: PP ≠ (nn +:+ ".tmp") :: PP).
  { intros [= Heq]. apply (f_equal String.length) in Heq.
    rewrite string_length_app in Heq. cbn in Heq. lia. }
  rewrite lookup_insert_ne in Hnf by done.
  rewrite delete_insert_eq in Hfs.
  split.
  - apply is_dir_spec. rewrite lookup_name_locate by done.
    rewrite (abspath_cwd (world s)), Hfs by done.
    rewrite locate_insert_other by (by eapply not_above).
    rewrite locate_delete_other by (by eapply not_above). done.
  - unfold absent, os.Stat. rewrite lookup_name_locate by (by apply app_not_empty).
    rewrite (abspath_cwd (world s)), Hqt, Hfs by done.
    rewrite locate_cons.
    + rewrite lookup_insert_ne by done. by rewrite lookup_delete_eq.
    + rewrite locate_insert_other by apply suffix_cons_not.
      rewrite locate_delete_other by apply suffix_cons_not. done.
Qed.

(** With no lock held, a [Write] that passed the validation and whose
    value the codec encodes depends on the three file operations. *)
Lemma Write_steps c r v b s :
  held (world s) = ∅ → c ≠ "" → r ≠ "" →
  MarshalIndent v "" TAB = Ok b →
  let dirp := filepath.Join [dir (drv s); c] in
  let fnl := filepath.Join [dirp; r +:+ ".json"] in
  ∃ err s' w0, Write c r v s = Some (err, s')
    ∧ same_tree (world s) w0 ∧ space w0 = space (world s)
    ∧ ( (∃ e w1, os.MkdirAll dirp w0 = (Some e, w1) ∧ err = Some e ∧ same_tree w1 (world s'))
      ∨ ∃ w1, os.MkdirAll dirp w0 = (None, w1) ∧
         ( (∃ e w2, os.WriteFile (fnl +:+ ".tmp") (b +:+ NL) w1 = (Some e, w2)
                    ∧ err = Some e ∧ same_tree w2 (world s'))
         ∨ ∃ w2 w3, os.WriteFile (fnl +:+ ".tmp") (b +:+ NL) w1 = (None, w2)
                    ∧ os.Rename (fnl +:+ ".tmp") fnl w2 = (err, w3)
                    ∧ same_tree w3 (world s'))).
Proof.
  intros Hheld Hc Hr Hb dirp fnl.
  destruct (Write_returns c r v s Hheld) as (err & s' & HW).
  destruct (Write_cases _ _ _ _ _ _ HW Hc Hr) as (w0 & Hw0 & Hsp & _ & Hcases).
  exists err, s', w0. split_and!; [done..|].
  destruct Hcases as [(e & ? & _)|(b' & Hb' & Hcases)]; [congruence|].
  by assert (b' = b) as -> by congruence.
Qed.

Lemma mkdir_path_same w w' n p :
  same_tree w w' → os.mkdir_path n p w' = os.mkdir_path n p w.
Proof.
  intros Hs. revert p. induction n as [|n IH]; intros p; cbn [os.mkdir_path];
    rewrite (lookup_name_same w w') by done; [done|].
  destruct (os.lookup_name w p); [|done]. by rewrite IH.
Qed.

Lemma Write_blocked_by_file c r v s :
  held (world s) = ∅ → c ≠ "" → r ≠ "" →
  let dirp := filepath.Join [dir (drv s); c] in
  is_file dirp (world s) = true ∨ os.lookup_name (world s) dirp = inl ENOTDIR →
  ∃ e s', Write c r v s = Some (Some e, s')
          ∧ files (world s') = files (world s)
          ∧ (∀ b, MarshalIndent v "" TAB = Ok b →
               e = PathError "mkdir"
                     (os.mkdir_path (String.length dirp) dirp (world s)) ENOTDIR).
Proof.
  intros Hheld Hc Hr dirp Hfile.
  assert (Hdne : dirp ≠ "") by (by apply Join2_not_empty).
  assert (Hmk : ∀ w0, same_tree (world s) w0 →
            os.MkdirAll dirp w0
            = (Some (PathError "mkdir"
                       (os.mkdir_path (String.length dirp) dirp (world s)) ENOTDIR), w0)).
  { intros w0 [Hf0 Hc0]. unfold os.MkdirAll. apply String.eqb_neq in Hdne as Hdne'.
    rewrite Hdne', (abspath_cwd (world s) w0), Hf0 by done.
    rewrite (mkdir_path_same (world s) w0) by done.
    rewrite mkdir_all_blocked; [by rewrite <- Hf0, set_files_id|].
    unfold is_file in Hfile. rewrite lookup_name_locate in Hfile by done.
    destruct Hfile as [Hfile|Hfile]; [right|by left].
    destruct (os.locate _ _) as [|[d|]]; [done| |done]. by exists d. }
  destruct (MarshalIndent v "" TAB) as [b|e] eqn:Hb.
  - destruct (Write_steps c r v b s Hheld Hc Hr Hb)
      as (err & s' & w0 & HW & Hw0 & _ & Hcases).
    fold dirp in Hcases. rewrite (Hmk w0 Hw0) in Hcases.
    destruct Hcases as [(e & w1 & [= <- <-] & -> & [Hfs _])|(w1 & ? & _)]; [|done].
    eexists _, s'. split; [done|]. destruct Hw0 as [Hf0 _]. split; [congruence|done].
  - destruct (Write_returns c r v s Hheld) as (err & s' & HW).
    destruct (Write_cases _ _ _ _ _ _ HW Hc Hr) as (w0 & [Hf0 _] & _ & _ & Hcases).
    destruct Hcases as [(e' & _ & -> & [Hfs _])|(b & ? & _)]; [|congruence].
    exists e', s'. split; [done|]. split; [congruence|done].
Qed.

(** Property X13. Below a working directory that exists, when the path of
    the collection is a regular file, or runs through one, [Write] fails at
    the creation of the directory and the tree is as it was; the error of
    [os.MkdirAll] names the regular file in the way, which is the path of
    the collection or a path that one starts with. *)
Theorem Write_collection_path_is_file c r v s :
  held (world s) = ∅ → c ≠ "" → r ≠ "" →
  is_dir "." (world s) = true →
  let dirp := filepath.Join [dir (drv s); c] in
  is_file dirp (world s) = true ∨ os.lookup_name (world s) dirp = inl ENOTDIR →
  ∃ path rest e s',
    Write c r v s = Some (Some e, s')
    ∧ files (world s') = files (world s)
    ∧ dirp = path +:+ rest
    ∧ is_file path (world s) = true
    ∧ (is_file dirp (world s) = true → path = dirp)
    ∧ (∀ b, MarshalIndent v "" TAB = Ok b → e = PathError "mkdir" path ENOTDIR).
Proof.
  intros Hheld Hc Hr Hcwd dirp Hfile.
  destruct (Write_blocked_by_file c r v s Hheld Hc Hr Hfile) as (e & s' & HW & Hf & He).
  fold dirp in He.
  destruct (mkdir_path_prefix (String.length dirp) dirp (world s)) as [rest Hrest].
  exists (os.mkdir_path (String.length dirp) dirp (world s)), rest, e, s'.
  split_and!; [done..| | |done].
  - destruct (Join2_Clean (dir (drv s)) c Hc) as (x & Hx & Heq).
    unfold dirp in *. rewrite Heq in *. by apply mkdir_path_Clean.
  - unfold is_file. destruct (os.lookup_name (world s) dirp) as [|[d|]] eqn:Hl; [done| |done].
    intros _. by apply (mkdir_path_found _ _ _ (File d)).
Qed.




End write_side.

(** *** What [Delete] removes *)

Lemma in_dirs_below_file fs q d k :
  in_dirs fs → q ≠ [] → fs !! q = Some (File d) → q `suffix_of` k → k ≠ q →
  fs !! k = None.
Proof.
  intros Hwf Hq0 Hq. induction k as [|n p IH]; intros Hs Hne.
  - apply suffix_nil_inv in Hs. done.
  - apply suffix_cons_cases in Hs as [->|Hs]; [done|].
    destruct (fs !! (n :: p)) as [x|] eqn:Hk; [|done]. exfalso.
    destruct (Hwf _ _ _ Hk) as [->|Hp].
    + apply suffix_nil_inv in Hs. done.
    + destruct (decide (p = q)) as [->|Hpq]; [congruence|].
      rewrite IH in Hp; done.
Qed.

Lemma remove_tree_file fs q d :
  in_dirs fs → q ≠ [] → fs !! q = Some (File d) → os.remove_tree q fs = delete q fs.
Proof.
  intros Hwf Hq0 Hq. apply map_eq. intros k. rewrite lookup_remove_tree.
  destruct (decide (q `suffix_of` k)) as [Hs|Hs].
  - destruct (decide (k = q)) as [->|Hne]; [by rewrite lookup_delete_eq|].
    rewrite lookup_delete_ne by done. symmetry. by eapply in_dirs_below_file.
  - rewrite lookup_delete_ne; [done|]. by intros <-.
Qed.

Section delete_side.
Context {value : Type} `{!Codec value}.

(** The record of [c] and [r] and its location, for ordinary names. *)
Lemma record_facts w root c r :
  root ≠ "" → plain c = true → plain r = true →
  let record := filepath.Join [root; c; r] in
  let qc := c :: os.abspath w root in
  filepath.Join [root; filepath.Join [c; r]] = record
  ∧ record ≠ ""
  ∧ (os.ends_with_dot record = false ∧ os.ends_with_dotdot record = false)
  ∧ (os.ends_with_dot (record +:+ ".json") = false
     ∧ os.ends_with_dotdot (record +:+ ".json") = false)
  ∧ os.abspath w record = r :: qc
  ∧ os.abspath w (record +:+ ".json") = (r +:+ ".json") :: qc.
Proof.
  intros Hroot Hc Hr record qc.
  assert (Hj : plain (r +:+ ".json") = true).
  { apply plain_suffix; [by apply plain_no_sep|done|cbn; lia]. }
  destruct (Join3_facts root c r Hroot Hr) as [Hne Hdot].
  destruct (Join3_facts root c (r +:+ ".json") Hroot Hj) as [_ Hdotj].
  rewrite Join3_sfx in Hdotj by done.
  split; [by apply Join_nested|]. split; [done|]. split; [done|]. split; [done|].
  split; [by apply abspath_Join3|by apply abspath_Join3_sfx].
Qed.

(** Property X15. For a record stored as [<c>/<r>.json] in a well-formed tree
    (names that are single ordinary path elements, no directory [<c>/<r>]),
    [Delete c r] removes that one entry and nothing else. *)
Theorem Delete_removes_only_the_record c r data s :
  held (world s) = ∅ → wf_files (files (world s)) = true →
  dir (drv s) ≠ "" → plain c = true → plain r = true →
  let record := filepath.Join [dir (drv s); c; r] in
  os.lookup_name (world s) (record +:+ ".json") = inr (File data) →
  is_dir record (world s) = false →
  ∃ s', Delete c r s = Some (None, s')
        ∧ files (world s')
          = delete (os.abspath (world s) (record +:+ ".json")) (files (world s)).
Proof.
  intros Hheld Hwf%wf_files_spec Hroot Hc Hr record Hst Hnd.
  destruct (record_facts (world s) (dir (drv s)) c r Hroot Hc Hr)
    as (Hnest & Hne & Hdot & Hdotj & Hq & Hqj).
  fold record in Hnest, Hne, Hdot, Hdotj, Hq, Hqj.
  set (w := world s) in *. set (qc := c :: os.abspath w (dir (drv s))) in *.
  pose proof Hst as Hloc. rewrite lookup_name_locate, Hqj in Hloc by apply json_not_empty.
  apply locate_cons_inv in Hloc as [Hpar Hent].
  destruct (Delete_spec c r s Hheld) as (err & s' & -> & _ & Hcase).
  rewrite Hnest in Hcase. fold w in Hcase.
  destruct (probe_regular record w data Hst Hnd) as (fi & Hp & Hmode).
  { intros e. rewrite lookup_name_locate by done.
    rewrite Hq, locate_cons by done.
    destruct (files w !! (r :: qc)); [done|]. by intros [= <-]. }
  rewrite Hp in Hcase. cbn [fst snd] in Hcase. rewrite Hmode in Hcase.
  cbn [os.IsDir os.IsRegular] in Hcase. destruct Hcase as (w2 & Hrm & [Hf2 Hc2]).
  rewrite (RemoveAll_tree _ w (File data)) in Hrm;
    [|apply json_not_empty|done|by rewrite Hqj|by rewrite Hqj, locate_cons, Hent].
  injection Hrm as <- <-. exists s'. split; [done|].
  rewrite Hf2. cbn [files set_files]. rewrite Hqj. by eapply remove_tree_file.
Qed.

(** Property X16. After [Delete c r] has removed the record [<c>/<r>.json]
    (ordinary names, nothing else named [<c>/<r>]), a [Read c r] fails with an
    error for which [os.IsNotExist] holds and a second [Delete c r] returns
    its not-found error. *)
Theorem Delete_then_not_found c r data (out : value) s :
  held (world s) = ∅ →
  dir (drv s) ≠ "" → plain c = true → plain r = true →
  let record := filepath.Join [dir (drv s); c; r] in
  os.lookup_name (world s) (record +:+ ".json") = inr (File data) →
  absent record (world s) = true →
  ∃ s1, Delete c r s = Some (None, s1)
    ∧ (∃ e s2, Read c r out s1 = Some ((out, Some e), s2) ∧ os.IsNotExist e = true)
    ∧ (∃ s2, Delete c r s1
             = Some (Some (Errorf ("unable to find file/directory name "
                                   +:+ filepath.Join [c; r])), s2)).
Proof.
  intros Hheld Hroot Hc Hr record Hst Habs.
  destruct (record_facts (world s) (dir (drv s)) c r Hroot Hc Hr)
    as (Hnest & Hne & Hdot & Hdotj & Hq & Hqj).
  fold record in Hnest, Hne, Hdot, Hdotj, Hq, Hqj.
  assert (Hc' : c ≠ "") by (by apply plain_spec in Hc as (_ & ? & _)).
  assert (Hr' : r ≠ "") by (by apply plain_spec in Hr as (_ & ? & _)).
  set (w := world s) in *. set (qc := c :: os.abspath w (dir (drv s))) in *.
  pose proof Hst as Hloc. rewrite lookup_name_locate, Hqj in Hloc by apply json_not_empty.
  apply locate_cons_inv in Hloc as [Hpar Hent].
  assert (Hbare : files w !! (r :: qc) = None).
  { unfold absent, os.Stat in Habs. rewrite lookup_name_locate, Hq, locate_cons in Habs by done.
    by destruct (files w !! (r :: qc)). }
  assert (Hnd : is_dir record w = false).
  { unfold is_dir. by rewrite lookup_name_locate, Hq, locate_cons, Hbare. }
  destruct (Delete_spec c r s Hheld) as (err & s1 & HD & Hdir & Hcase).
  rewrite Hnest in Hcase. fold w in Hcase.
  destruct (probe_regular record w data Hst Hnd) as (fi & Hp & Hmode).
  { intros e. rewrite lookup_name_locate by done.
    rewrite Hq, locate_cons, Hbare by done. by intros [= <-]. }
  rewrite Hp in Hcase. cbn [fst snd] in Hcase. rewrite Hmode in Hcase.
  cbn [os.IsDir os.IsRegular] in Hcase. destruct Hcase as (w2 & Hrm & [Hf2 Hc2]).
  destruct (RemoveAll_child _ w _ _ (json_not_empty record) Hdotj Hqj Hpar)
    as (w2' & Hrm' & Hcw & Hgone & Hsame).
  assert (w2' = w2 ∧ err = None) as [-> ->] by (split; congruence).
  exists s1. split; [done|].
  pose proof (Delete_driver _ _ _ _ _ HD) as (Hheld1 & _).
  fold w in Hheld1. rewrite Hheld in Hheld1.
  assert (Hq1 : ∀ p, os.abspath (world s1) p = os.abspath w p).
  { intros p. apply abspath_cwd. congruence. }
  assert (Hpar1 : os.locate (files (world s1)) qc = inr Dir).
  { rewrite Hf2, (locate_same_outside _ _ _ _ Hsame); [done|]. apply suffix_cons_not. }
  assert (Ha1 : absent record (world s1) = true).
  { unfold absent, os.Stat. rewrite lookup_name_locate, Hq1, Hq, locate_cons by done.
    rewrite Hf2, Hsame, Hbare; [done|]. intros [Heq|Hs]%suffix_cons_cases.
    - injection Heq as Heq. apply (f_equal String.length) in Heq.
      rewrite string_length_app in Heq. cbn in Heq. lia.
    - by apply suffix_cons_not in Hs. }
  assert (Ha2 : absent (record +:+ ".json") (world s1) = true).
  { unfold absent, os.Stat.
    rewrite lookup_name_locate, Hq1, Hqj, locate_cons by (done || apply json_not_empty).
    by rewrite Hf2, Hgone. }
  split.
  - destruct (Read_spec c r out s1 Hc' Hr') as (s2 & _ & _ & _ & ->).
    rewrite Hdir. fold record.
    destruct (probe_absent _ _ Ha1 Ha2) as (e & -> & He). cbn [snd]. by exists e, s2.
  - destruct (Delete_spec c r s1 Hheld1) as (err & s2 & -> & _ & Hcase).
    rewrite Hdir, Hnest in Hcase.
    destruct (probe_absent _ _ Ha1 Ha2) as (e & Hpe & He). rewrite Hpe in Hcase.
    cbn [fst snd] in Hcase. destruct Hcase as [-> _]. by exists s2.
Qed.

(** Property X17. When [<c>/<r>] is a directory and [<c>/<r>.json] a record,
    both under the same name, [Delete c r] removes the directory with
    everything in it and keeps the record. *)
Theorem Delete_prefers_the_directory c r data s :
  held (world s) = ∅ →
  dir (drv s) ≠ "" → plain c = true → plain r = true →
  let record := filepath.Join [dir (drv s); c; r] in
  is_dir record (world s) = true →
  os.lookup_name (world s) (record +:+ ".json") = inr (File data) →
  ∃ s', Delete c r s = Some (None, s')
        ∧ absent record (world s') = true
        ∧ os.lookup_name (world s') (record +:+ ".json") = inr (File data).
Proof.
  intros Hheld Hroot Hc Hr record Hdir Hst.
  destruct (record_facts (world s) (dir (drv s)) c r Hroot Hc Hr)
    as (Hnest & Hne & Hdot & Hdotj & Hq & Hqj).
  fold record in Hnest, Hne, Hdot, Hdotj, Hq, Hqj.
  set (w := world s) in *. set (qc := c :: os.abspath w (dir (drv s))) in *.
  destruct (Delete_directory c r s Hheld) as (s' & HD & Hf).
  { by rewrite Hnest. }
  { by rewrite Hnest. }
  { rewrite Hnest. fold w. by rewrite Hq. }
  rewrite Hnest in Hf. fold w in Hf. rewrite Hq in Hf.
  pose proof (Delete_driver _ _ _ _ _ HD) as (_ & Hcwd & _).
  assert (Hq1 : ∀ p, os.abspath (world s') p = os.abspath w p).
  { intros p. by apply abspath_cwd. }
  apply is_dir_spec in Hdir. rewrite lookup_name_locate, Hq in Hdir by done.
  apply locate_cons_inv in Hdir as [Hpar Hent].
  assert (Hpar' : os.locate (files (world s')) qc = inr Dir).
  { rewrite Hf, locate_remove_tree_other; [done|]. apply suffix_cons_not. }
  exists s'. split_and!; [done| |].
  - unfold absent, os.Stat. rewrite lookup_name_locate, Hq1, Hq, locate_cons by done.
    by rewrite Hf, lookup_remove_tree, decide_True.
  - rewrite lookup_name_locate, Hq1, Hqj by apply json_not_empty.
    rewrite Hf, locate_remove_tree_other.
    + by rewrite <- Hqj, <- lookup_name_locate by apply json_not_empty.
    + intros [Heq|Hs]%suffix_cons_cases.
      * injection Heq as Heq. apply (f_equal String.length) in Heq.
        rewrite string_length_app in Heq. cbn in Heq. lia.
      * by apply suffix_cons_not in Hs.
Qed.

(** Property X18. A regular file named [<c>/<r>] itself, without the suffix (a
    temporary file left behind, for one), cannot be deleted by its name:
    [Delete c r] returns no error, removes [<c>/<r>.json] if there is one, and
    leaves the file in place. *)
Theorem Delete_keeps_unsuffixed_file c r data s :
  held (world s) = ∅ →
  dir (drv s) ≠ "" → plain c = true → plain r = true →
  let record := filepath.Join [dir (drv s); c; r] in
  os.lookup_name (world s) record = inr (File data) →
  ∃ s', Delete c r s = Some (None, s')
        ∧ os.lookup_name (world s') record = inr (File data)
        ∧ absent (record +:+ ".json") (world s') = true.
Proof.
  intros Hheld Hroot Hc Hr record Hst.
  destruct (record_facts (world s) (dir (drv s)) c r Hroot Hc Hr)
    as (Hnest & Hne & Hdot & Hdotj & Hq & Hqj).
  fold record in Hnest, Hne, Hdot, Hdotj, Hq, Hqj.
  set (w := world s) in *. set (qc := c :: os.abspath w (dir (drv s))) in *.
  pose proof Hst as Hloc. rewrite lookup_name_locate, Hq in Hloc by done.
  apply locate_cons_inv in Hloc as [Hpar Hent].
  destruct (Delete_spec c r s Hheld) as (err & s' & HD & _ & Hcase).
  rewrite Hnest in Hcase. fold w in Hcase.
  assert (Hp : probe record w = (Some (os.info_of (File data)), None)).
  { unfold probe, os.Stat. by rewrite Hst. }
  rewrite Hp in Hcase. cbn [fst snd os.IsDir os.IsRegular os.Mode os.info_of] in Hcase.
  destruct Hcase as (w2 & Hrm & [Hf2 Hc2]).
  destruct (RemoveAll_child _ w _ _ (json_not_empty record) Hdotj Hqj Hpar)
    as (w2' & Hrm' & Hcw & Hgone & Hsame).
  assert (w2' = w2 ∧ err = None) as [-> ->] by (split; congruence).
  exists s'. split; [done|].
  assert (Hq1 : ∀ p, os.abspath (world s') p = os.abspath w p).
  { intros p. apply abspath_cwd. congruence. }
  assert (Hns : ¬ ((r +:+ ".json") :: qc) `suffix_of` (r :: qc)).
  { by apply not_suffix_sibling. }
  split.
  - rewrite lookup_name_locate, Hq1, Hq, Hf2 by done.
    rewrite (locate_same_outside _ _ _ _ Hsame) by done.
    by rewrite locate_cons, Hent.
  - unfold absent, os.Stat.
    rewrite lookup_name_locate, Hq1, Hqj by (apply json_not_empty).
    rewrite locate_cons.
    + by rewrite Hf2, Hgone.
    + rewrite Hf2, (locate_same_outside _ _ _ _ Hsame); [done|]. apply suffix_cons_not.
Qed.

End delete_side.

(** *** Opening a store *)

Lemma locate_below_error fs n p e : os.locate fs p = inl e → os.locate fs (n :: p) = inl e.
Proof. intros H. cbn [os.locate]. by rewrite H. Qed.

Lemma quiet_console threshold : quiet (lumber.NewConsoleLogger threshold).
Proof.
  intros msg w. cbn. unfold lumber.emit. destruct (Nat.leb _ _); [by eexists|].
  exists (stdout w). by destruct w.
Qed.

Lemma New_logger d o w driver err w' :
  New d o w = (driver, err, w') → quiet_options o → quiet (log driver).
Proof.
  intros HN Hq.
  assert (log driver = match o with
                    | Some {| opt_Logger := Some l |} => l
                    | _ => lumber.NewConsoleLogger lumber.INFO
                    end) as ->.
  { revert HN. unfold New, sync.new_Mutex. cbv zeta.
    destruct (os.Stat _ _); [|destruct (os.MkdirAll _ _)]; intros [= <- _ _];
      by destruct o as [[[l|]]|]. }
  destruct o as [[[l|]]|]; [done|apply quiet_console..].
Qed.

Lemma New_spec d o w driver err w' :
  New d o w = (driver, err, w') → quiet (log driver) →
  dir driver = Clean d ∧ mutexes driver = ∅
  ∧ held w' = held w ∧ cwd w' = cwd w ∧ space w' = space w
  ∧ match os.Stat (Clean d) w with
    | Ok _ => err = None ∧ files w' = files w
    | Err _ =>
        ∃ fs1 e1, os.mkdir_all (files w) (os.abspath w (Clean d)) = (fs1, e1)
                  ∧ files w' = fs1
                  ∧ err = PathError "mkdir"
                            (os.mkdir_path (String.length (Clean d)) (Clean d) w) <$> e1
    end.
Proof.
  unfold New, sync.new_Mutex. cbv zeta.
  match goal with
  | |- context [{| mutex := _; mutexes := _; dir := _; log := ?l |}] =>
      generalize l; intros logger
  end.
  assert (Hst : ∀ x, os.Stat (Clean d) (set_next_mutex x w) = os.Stat (Clean d) w) by done.
  rewrite Hst. destruct (os.Stat (Clean d) w) as [fi|e0].
  - intros [= <- <- <-] Hq. cbn in Hq.
    destruct (Hq ("Using '" +:+ Clean d +:+ "' (db already exists) " +:+ NL)
                (set_next_mutex (S (next_mutex w)) w)) as [out ->].
    by split_and!.
  - destruct (os.MkdirAll _ _) as [e w3] eqn:Hmk. intros [= <- <- <-] Hq. cbn in Hq.
    destruct (Hq ("Creating the db at '" +:+ Clean d +:+ "' ..." +:+ NL)
                (set_next_mutex (S (next_mutex w)) w)) as [out Hout].
    rewrite Hout in Hmk. revert Hmk. unfold os.MkdirAll.
    pose proof (Clean_not_empty d) as Hne%String.eqb_neq. rewrite Hne.
    change (os.abspath (set_stdout out (set_next_mutex (S (next_mutex w)) w)) (Clean d))
      with (os.abspath w (Clean d)).
    cbn [files set_stdout set_next_mutex].
    rewrite (mkdir_path_same w) by done.
    destruct (os.mkdir_all _ _) as [fs1 [e1|]]; intros [= <- <-]; cbn;
      split_and!; try done; by eexists _, _.
Qed.

Section opening.
Context {value : Type} `{!Codec value}.

(** Property X19. When [New] returns no error the root of the store exists
    afterwards, as a directory if [New] had to create it; every entry that
    existed is as it was, and only directories on the way to the root were
    added; the registry of the driver is empty. *)
Theorem New_opens_the_root d o w driver w' :
  New d o w = (driver, None, w') → quiet_options o →
  (∃ fi, os.Stat (dir driver) w' = Ok fi)
  ∧ (absent (dir driver) w = true → is_dir (dir driver) w' = true)
  ∧ grows (os.abspath w (dir driver)) (files w) (files w')
  ∧ mutexes driver = ∅.
Proof.
  intros HN Hq. pose proof (New_logger _ _ _ _ _ _ HN Hq) as Hl.
  apply New_spec in HN as (Hd & Hm & _ & Hc & _ & Hcase); [|done].
  rewrite Hd. pose proof (Clean_not_empty d) as Hne.
  unfold absent. destruct (os.Stat (Clean d) w) as [fi|e0] eqn:Hst.
  - destruct Hcase as [_ Hf]. split_and!; [|done|rewrite Hf; apply grows_refl|done].
    exists fi. rewrite <- Hst. apply Stat_same. by split.
  - destruct Hcase as (fs1 & e1 & Hmk & Hf & He). destruct e1; [done|].
    pose proof (mkdir_all_ok _ _ _ Hmk) as Hdir.
    assert (Hlk : os.lookup_name w' (Clean d) = inr Dir).
    { rewrite lookup_name_locate, (abspath_cwd w w'), Hf by done. done. }
    split_and!; [| |rewrite Hf; by eapply mkdir_all_grows|done].
    + unfold os.Stat. rewrite Hlk. by eexists.
    + intros _. by apply is_dir_spec.
Qed.

(** Property X20. [New] does not check that the root is a directory: on a
    regular file it returns no error and changes nothing, and every [Write]
    through the driver it returns then fails and creates nothing. *)
Theorem New_on_a_regular_file d o w data driver err w' c r v :
  os.lookup_name w (Clean d) = inr (File data) →
  New d o w = (driver, err, w') → quiet_options o →
  err = None ∧ files w' = files w
  ∧ (held w = ∅ → plain c = true → r ≠ "" →
     ∃ e s', Write c r v {| drv := driver; world := w' |} = Some (Some e, s')
             ∧ files (world s') = files w).
Proof.
  intros Hfile HN Hq. pose proof (New_logger _ _ _ _ _ _ HN Hq) as Hl.
  apply New_spec in HN as (Hd & Hm & Hh & Hc & _ & Hcase); [|done].
  unfold os.Stat in Hcase. rewrite Hfile in Hcase. destruct Hcase as [-> Hf].
  split_and!; [done..|]. intros Hheld Hpc Hr.
  assert (Hc' : c ≠ "") by (by apply plain_spec in Hpc as (_ & ? & _)).
  pose proof (Clean_not_empty d) as Hne.
  destruct (Write_blocked_by_file c r v {| drv := driver; world := w' |})
    as (e & s' & HW & Hfs & _); [by rewrite <- Hheld|done..| |].
  - right. cbn [world drv]. rewrite Hd.
    rewrite lookup_name_locate by (by apply Join2_not_empty).
    rewrite abspath_Join2 by done. cbn [os.locate].
    rewrite (abspath_cwd w w'), Hf by done.
    rewrite lookup_name_locate in Hfile by done. by rewrite Hfile.
  - exists e, s'. split; [done|]. cbn in Hfs. congruence.
Qed.

(** Property X21. A store opened by [New] at a path that did not exist, in a
    well-formed tree, accepts a first record: for names that are single
    ordinary path elements and a value the codec encodes and decodes back,
    with room on the device, [Write] returns no error and the [Read] that
    follows returns the value. *)
Theorem fresh_store_round_trip d o w driver w' c r v (out : value) b :
  held w = ∅ → wf_files (files w) = true →
  absent (Clean d) w = true →
  New d o w = (driver, None, w') → quiet_options o →
  plain c = true → plain r = true →
  MarshalIndent v "" TAB = Ok b → fits (b +:+ NL) w →
  Unmarshal (b +:+ NL) out = (v, None) →
  ∃ s1, Write c r v {| drv := driver; world := w' |} = Some (None, s1)
        ∧ Read c r out s1 = Some ((v, None), s1).
Proof.
  intros Hheld Hwf%wf_files_spec Habs HN Hq Hc Hr Hb Hfit Hrt.
  pose proof (New_logger _ _ _ _ _ _ HN Hq) as Hl.
  apply New_spec in HN as (Hd & Hm & Hh & Hcw & Hsp & Hcase); [|done].
  pose proof (Clean_not_empty d) as Hne.
  set (q0 := os.abspath w (Clean d)) in *.
  assert (Hmiss : os.locate (files w) q0 = inl ENOENT).
  { unfold absent, os.Stat in Habs. rewrite lookup_name_locate in Habs by done.
    fold q0 in Habs. by destruct (os.locate (files w) q0) as [[]|]. }
  unfold os.Stat in Hcase. rewrite lookup_name_locate in Hcase by done.
  fold q0 in Hcase. rewrite Hmiss in Hcase.
  destruct Hcase as (fs1 & e1 & Hmk & Hf & He). destruct e1; [done|].
  pose proof (mkdir_all_ok _ _ _ Hmk) as Hdir.
  pose proof (mkdir_all_grows _ _ _ _ Hmk) as Hg.
  destruct (in_dirs_mkdir_all _ _ _ _ Hwf Hmk) as [Hwf1 _].
  assert (Hq0 : q0 ≠ []) by (by intros Heq; rewrite Heq in Hmiss).
  assert (Hnone : files w !! q0 = None).
  { destruct (files w !! q0) as [x|] eqn:Hx; [|done].
    by rewrite (wf_locate _ _ x) in Hmiss. }
  assert (Hbelow : ∀ n, fs1 !! (n :: q0) = None).
  { intros n. rewrite (grows_outside _ _ _ _ Hg) by apply suffix_cons_not.
    destruct (files w !! (n :: q0)) as [x|] eqn:Hx; [|done].
    destruct (Hwf _ _ _ Hx); [done|congruence]. }
  set (s := {| drv := driver; world := w' |}).
  assert (Hj : plain (r +:+ ".json") = true).
  { apply plain_suffix; [by apply plain_no_sep|done|cbn; lia]. }
  assert (Ht : plain ((r +:+ ".json") +:+ ".tmp") = true).
  { apply plain_suffix; [by apply plain_no_sep|done|cbn; lia]. }
  assert (Hc' : c ≠ "") by (by apply plain_spec in Hc as (_ & ? & _)).
  set (dirp := filepath.Join [Clean d; c]).
  set (fnl := filepath.Join [dirp; r +:+ ".json"]).
  assert (Hdne : dirp ≠ "") by (by apply Join2_not_empty).
  assert (Hfne : fnl ≠ "") by (by apply Join2_not_empty, json_not_empty).
  assert (Hqd : os.abspath w' dirp = c :: q0).
  { unfold dirp. by rewrite abspath_Join2, (abspath_cwd w w'). }
  assert (Hld : os.locate (files w') (c :: q0) = inl ENOENT).
  { rewrite Hf, locate_cons, Hbelow; done. }
  destruct (Write_succeeds c r v b s) as (s1 & HW); subst s; cbn [world drv]; try done.
  - congruence.
  - rewrite Hf. by apply wf_files_intro.
  - apply is_dir_spec. rewrite Hd, lookup_name_locate, (abspath_cwd w w'), Hf by done. done.
  - rewrite Hd. fold dirp. unfold is_file. by rewrite lookup_name_locate, Hqd, Hld.
  - rewrite Hd. fold dirp fnl. unfold is_dir. rewrite lookup_name_locate by done.
    unfold fnl. rewrite abspath_Join2, Hqd by done.
    by rewrite (locate_below_error _ _ _ ENOENT).
  - rewrite Hd. fold dirp fnl. unfold is_dir.
    rewrite lookup_name_locate by (by apply app_not_empty).
    unfold fnl. rewrite abspath_Join2_sfx, Hqd by done.
    by rewrite (locate_below_error _ _ _ ENOENT).
  - unfold fits in *. by rewrite Hsp.
  - exists s1. split; [done|]. by eapply Read_after_Write.
Qed.

(** Property X22. [New], [Write] and [Delete] keep the tree well formed,
    whatever they return: every entry still lies in a directory. *)
Theorem tree_stays_well_formed s :
  wf_files (files (world s)) = true →
  (∀ d o driver err w', New d o (world s) = (driver, err, w') → quiet_options o →
                     wf_files (files w') = true)
  ∧ (∀ c r v err s', Write c r v s = Some (err, s') → wf_files (files (world s')) = true)
  ∧ (∀ c r err s', Delete c r s = Some (err, s') → wf_files (files (world s')) = true).
Proof.
  intros Hwf. pose proof (wf_files_spec _ Hwf) as Hin. split_and!.
  - intros d o driver err w' HN Hq. pose proof (New_logger _ _ _ _ _ _ HN Hq) as Hl.
    apply New_spec in HN as (_ & _ & _ & _ & _ & Hcase); [|done].
    destruct (os.Stat _ _).
    + destruct Hcase as [_ ->]. done.
    + destruct Hcase as (fs1 & e1 & Hmk & -> & _).
      apply wf_files_intro. by eapply in_dirs_mkdir_all.
  - intros c r v err s' HW.
    destruct (String.eqb_spec c "") as [->|Hc].
    { destruct (Write_empty_name "" r v s) as [e He]; [by left|]. congruence. }
    destruct (String.eqb_spec r "") as [->|Hr].
    { destruct (Write_empty_name c "" v s) as [e He]; [by right|]. congruence. }
    destruct (Write_tree _ _ _ _ _ _ HW Hc Hr) as (_ & fs1 & e1 & Hmk & Hcases).
    destruct (in_dirs_mkdir_all _ _ _ _ Hin Hmk) as [Hin1 _].
    apply wf_files_intro.
    destruct Hcases as [[-> _]|[[-> _]|(n & P & Hqt & _ & HP & Hnt & [(d' & -> & _)|(b & n' & P' & _ & _ & Hqf & HP' & Hnf & ->)])]];
      [done..| |]; rewrite Hqt in *.
    + by apply in_dirs_insert_file.
    + rewrite Hqf in *.
      set (fs2 := <[n :: P := File (b +:+ NL)]> fs1) in *.
      assert (Hin2 : in_dirs fs2) by (by apply in_dirs_insert_file).
      assert (Hl2 : os.locate fs2 (n :: P) = inr (File (b +:+ NL))).
      { by apply locate_insert_self. }
      apply in_dirs_insert_file.
      * eapply in_dirs_delete_file; [done|]. apply lookup_insert_eq.
      * rewrite locate_delete_other; [done|]. intros Hs.
        pose proof (locate_file_not_above _ _ _ _ _ Hl2 HP' Hs) as <-. congruence.
      * intros Hent. apply lookup_delete_Some in Hent as [_ Hent]. done.
  - intros c r err s' HD. apply wf_files_intro.
    destruct (Delete_tree _ _ _ _ _ HD) as [->|[q [->| ->]]]; [done| |].
    + by apply in_dirs_remove_tree.
    + by apply in_dirs_remove_below.
Qed.

End opening.

(** Property X23. Called one after the other, two calls of [getOrCreateMutex]
    return the same mutex exactly when the collection names are the same, and
    the registry stays sound. *)
Theorem one_mutex_per_collection c1 c2 s m1 s1 m2 s2 :
  registry_ok s →
  getOrCreateMutex c1 s = Some (m1, s1) →
  getOrCreateMutex c2 s1 = Some (m2, s2) →
  (m1 = m2 ↔ c1 = c2) ∧ registry_ok s2.
Proof.
  assert (Hstep : ∀ c s m s', registry_ok s → getOrCreateMutex c s = Some (m, s') →
            registry_ok s' ∧ mutexes (drv s') !! c = Some m).
  { clear. intros c s m s' [Hlt Hinj]. unfold getOrCreateMutex.
    cbv beta iota delta [bind get_drv ret sys modify_drv sync.new_Mutex].
    destruct (mutexes (drv s) !! c) as [m'|] eqn:Hm; intros [= <- <-]; [done|].
    unfold registry_ok. cbn. split; [|by rewrite lookup_insert_eq]. split.
    - intros c' m. destruct (decide (c' = c)) as [->|Hne].
      + rewrite lookup_insert_eq. intros [= <-]. lia.
      + rewrite lookup_insert_ne by done. intros H%Hlt. lia.
    - intros c1 c2 m. destruct (decide (c1 = c)) as [->|Hn1], (decide (c2 = c)) as [->|Hn2];
        rewrite ?lookup_insert_eq, ?lookup_insert_ne by done; try done.
      + intros [= <-] H%Hlt. lia.
      + intros H%Hlt [= <-]. lia.
      + apply Hinj. }
  intros Hok H1 H2.
  destruct (Hstep _ _ _ _ Hok H1) as [Hok1 Hm1].
  destruct (Hstep _ _ _ _ Hok1 H2) as [Hok2 Hm2].
  split; [|done]. split.
  - intros <-. destruct Hok2 as [_ Hinj]. apply (Hinj c1 c2 m1); [|done].
    revert H2. unfold getOrCreateMutex.
    cbv beta iota delta [bind get_drv ret sys modify_drv sync.new_Mutex].
    destruct (mutexes (drv s1) !! c2) as [m'|] eqn:Hm; intros [= <- <-]; [done|].
    cbn. destruct (decide (c1 = c2)) as [->|Hne]; [congruence|].
    by rewrite lookup_insert_ne.
  - intros <-. apply (getOrCreateMutex_again c1 s m1 s1) in H1. congruence.
Qed.

(** *** Names that leave the store *)


Section escape.
Context {value : Type} `{!Codec value}.



End escape.

(** *** The root of a store is a cleaned path *)


(** * The demonstration, and the statements at concrete inputs *)

(** A closed goal is settled by evaluation. *)
Ltac run := vm_compute; first [reflexivity | discriminate | exact I].

Example Write_demo :
  contents "users/Ashlie.json" (world demo_users)
  = Some (encoded (User_json Ashlie) +:+ NL).
Proof. run. Qed.

Example ReadAll_demo :
  fst <$> ReadAll "users" demo_users = Some ([encoded (User_json Ashlie) +:+ NL], None).
Proof. run. Qed.

Example ReadAll_nested :
  fst <$> ReadAll "users" demo_nested
  = Some ([], Some (PathError "read" "users/archive" EISDIR)).
Proof. run. Qed.

(** C1: the resource name [.] is not empty, [Write] accepts it and stores
    [users/..json], and the [Read] that follows looks for [users.json]. *)
Lemma Write_then_Read_dot :
  fst <$> Write "users" "." (User_json Ashlie) demo_store = Some None
  ∧ fst <$> Read "users" "." json.Null
              (after (Write "users" "." (User_json Ashlie)) demo_store)
    = Some (json.Null, Some (PathError "open" "users.json" ENOENT)).
Proof. split; run. Qed.

Lemma Write_then_Read_witness :
  ∃ s1, Write "users" "Ashlie" (User_json Ashlie) demo_store = Some (None, s1)
        ∧ Read "users" "Ashlie" json.Null s1 = Some ((User_json Ashlie, None), s1).
Proof.
  apply (Write_then_Read "users" "Ashlie" (User_json Ashlie) json.Null
           (encoded (User_json Ashlie)) demo_store);
    run.
Defined.

(** C2: the device accepts ten more bytes, the write of the temporary file
    stops there, and the record is as it was. *)
Lemma Write_atomic_witness :
  let s := short_of_space 10 demo_users in
  let s' := after (Write "users" "Ashlie" (json.Str "a longer record")) s in
  contents "users/Ashlie.json.tmp" (world s') = Some (String "034"%char "a longer ")
  ∧ contents "users/Ashlie.json" (world s') = contents "users/Ashlie.json" (world s).
Proof.
  split; [run|].
  apply (Write_atomic "users" "Ashlie" (json.Str "a longer record")
           (short_of_space 10 demo_users)
           (Some (PathError "write" "users/Ashlie.json.tmp" ENOSPC))
           (after (Write "users" "Ashlie" (json.Str "a longer record"))
              (short_of_space 10 demo_users))).
  - run.
  - run.
  - discriminate.
Defined.

(** C3: [Delete] returns no error for both names, and removes the record
    for the bare name only; [Read] finds the record for the bare name
    only. *)
Lemma suffixed_name_differs :
  fst <$> Delete "users" "Ashlie" demo_users = Some None
  ∧ is_file "users/Ashlie.json" (world (after (Delete "users" "Ashlie") demo_users)) = false
  ∧ fst <$> Delete "users" "Ashlie.json" demo_users = Some None
  ∧ is_file "users/Ashlie.json"
      (world (after (Delete "users" "Ashlie.json") demo_users)) = true
  ∧ fst <$> Read "users" "Ashlie" json.Null demo_users = Some (User_json Ashlie, None)
  ∧ fst <$> Read "users" "Ashlie.json" json.Null demo_users
    = Some (json.Null, Some (PathError "open" "users/Ashlie.json.json" ENOENT)).
Proof. split_and!; run. Qed.

Lemma bare_name_addressing_witness :
  (∃ s', Delete "users" "Ashlie" demo_users = Some (None, s')
         ∧ absent "users/Ashlie.json" (world s') = true)
  ∧ (∃ s', Delete "users" "Ashlie.json" demo_users = Some (None, s')
           ∧ is_file "users/Ashlie.json" (world s') = true).
Proof.
  destruct (bare_name_addressing "users" "Ashlie" (encoded (User_json Ashlie) +:+ NL)
              json.Null demo_users) as (H1 & _ & H3 & _);
    [run..|].
  split; [exact H1|].
  destruct H3 as (s' & HD & Hl). exists s'. split; [exact HD|].
  unfold is_file. change (filepath.Join [dir (drv demo_users); "users"; "Ashlie"] +:+ ".json")
    with "users/Ashlie.json" in Hl. by rewrite Hl.
Defined.

Lemma getOrCreateMutex_race_witness :
  ∃ m1 m2 s',
    interleave [0; 1; 0; 1; 0; 1] [AtLookup "users"; AtLookup "users"] demo_store
      = ([Returned m1; Returned m2], s')
    ∧ m1 ≠ m2.
Proof. apply (getOrCreateMutex_race "users" demo_store). run. Defined.


Lemma not_found_witness :
  (∃ s', Delete "users" "Sam" demo_users
         = Some (Some (Errorf "unable to find file/directory name users/Sam"), s')
         ∧ files (world s') = files (world demo_users))
  ∧ (∃ e s', Read "users" "Sam" json.Null demo_users = Some ((json.Null, Some e), s')
             ∧ os.IsNotExist e = true
             ∧ files (world s') = files (world demo_users)).
Proof.
  destruct (not_found "users" "Sam" json.Null demo_users) as [HD HR];
    [run|].
  split.
  - apply HD; run.
  - apply HR; run.
Defined.

Lemma ReadAll_all_or_nothing_witness :
  ReadAll "users" demo_users
  = Some (([encoded (User_json Ashlie) +:+ NL], None), demo_users)
  ∧ ∃ e, ReadAll "users" demo_nested = Some (([], Some e), demo_nested).
Proof.
  split.
  - destruct (ReadAll_all_or_nothing "users" demo_users) as (_ & Hok & _); [run..|].
    apply Hok.
    replace (os.children _ _) with ["Ashlie.json"] by run.
    constructor; [run|constructor].
  - destruct (ReadAll_all_or_nothing "users" demo_nested) as (_ & _ & Hfail); [run..|].
    apply (Hfail "archive" (PathError "read" "users/archive" EISDIR)).
    + replace (os.children _ _) with ["Ashlie.json"; "archive"] by run.
      apply list_elem_of_In. right. by left.
    + run.
Defined.

Lemma Write_persists_indented_witness :
  ∃ b, MarshalIndent (User_json Ashlie) "" TAB = Ok b
       ∧ os.ReadFile "users/Ashlie.json" (world demo_users) = Ok (b +:+ NL).
Proof.
  apply (Write_persists_indented "users" "Ashlie" (User_json Ashlie) demo_store demo_users).
  run.
Defined.

(** C10: the store of [main] is opened at [./]; [os.RemoveAll] refuses the
    path [.], so that [Delete "" ""] returns an error and removes nothing. *)
Lemma Delete_root_dot :
  dir (drv demo_users) = "."
  ∧ fst <$> Delete "" "" demo_users = Some (Some (PathError "RemoveAll" "." EINVAL))
  ∧ is_dir "users" (world (after (Delete "" "") demo_users)) = true
  ∧ is_file "users/Ashlie.json" (world (after (Delete "" "") demo_users)) = true.
Proof. split_and!; run. Qed.

(** A store opened at [..]: [os.RemoveAll] empties that directory and
    cannot remove it, and [Delete "" ""] returns the error. *)
Example Delete_root_dotdot :
  dir (drv (open_store ".." demo_world)) = ".."
  ∧ fst <$> Delete "" "" (open_store ".." demo_world)
    = Some (Some (PathError "unlinkat" "./.." ENOTEMPTY))
  ∧ files (world (after (Delete "" "") (open_store ".." demo_world))) !! ["home"]
    = Some Dir
  ∧ files (world (after (Delete "" "") (open_store ".." demo_world))) !! ["demo"; "home"]
    = None.
Proof. split_and!; run. Qed.

Lemma Delete_root_witness :
  ∃ s', Delete "" "" demo_db = Some (None, s')
        ∧ files (world s') !! ["Ashlie.json"; "users"; "db"; "demo"; "home"] = None
        ∧ files (world s') !! ["db"; "demo"; "home"] = None
        ∧ files (world s') !! ["demo"; "home"] = Some Dir.
Proof.
  destruct (Delete_root demo_db) as (s' & HD & Hf);
    [run..|].
  exists s'. split; [exact HD|]. rewrite !Hf. split_and!; run.
Defined.

Lemma after_eq {A} (m : M A) s a : fst <$> m s = Some a → m s = Some (a, after m s).
Proof. unfold after. destruct (m s) as [[a' s']|]; cbn; congruence. Qed.

Lemma New_opens_the_root_witness :
  (∃ fi, os.Stat "db" (world (open_store "db" demo_world)) = Ok fi)
  ∧ is_dir "db" (world (open_store "db" demo_world)) = true
  ∧ files (world (open_store "db" demo_world)) !! ["home"] = Some Dir.
Proof.
  destruct (New_opens_the_root "db" None demo_world
              (drv (open_store "db" demo_world)) (world (open_store "db" demo_world)))
    as (H1 & H2 & H3 & _).
  - run.
  - exact I.
  - split; [exact H1|]. split; [apply H2; run|].
    destruct (H3 ["home"]) as [->|(? & _)]; [run|discriminate].
Defined.

Lemma New_on_a_regular_file_witness :
  ∃ e s', Write "x" "y" json.Null
            {| drv := drv (open_store "users/Ashlie.json" (world demo_users));
               world := world (open_store "users/Ashlie.json" (world demo_users)) |}
          = Some (Some e, s')
          ∧ files (world s') = files (world demo_users).
Proof.
  destruct (New_on_a_regular_file "users/Ashlie.json" None (world demo_users)
              (encoded (User_json Ashlie) +:+ NL)
              (drv (open_store "users/Ashlie.json" (world demo_users))) None
              (world (open_store "users/Ashlie.json" (world demo_users)))
              "x" "y" json.Null) as (_ & _ & H).
  - run.
  - run.
  - exact I.
  - apply H; run.
Defined.


Lemma fresh_store_round_trip_witness :
  ∃ s1, Write "users" "Ashlie" (User_json Ashlie)
          {| drv := drv (open_store "db" demo_world);
             world := world (open_store "db" demo_world) |}
        = Some (None, s1)
        ∧ Read "users" "Ashlie" json.Null s1 = Some ((User_json Ashlie, None), s1).
Proof.
  apply (fresh_store_round_trip "db" None demo_world
           (drv (open_store "db" demo_world)) (world (open_store "db" demo_world))
           "users" "Ashlie" (User_json Ashlie) json.Null (encoded (User_json Ashlie)));
    run.
Defined.

Lemma tree_stays_well_formed_witness :
  wf_files (files (world (after (Write "users/archive" "Paul" (json.Str "Paul"))
                            demo_users))) = true
  ∧ wf_files (files (world (after (Delete "users" "") demo_users))) = true.
Proof.
  destruct (tree_stays_well_formed demo_users) as (_ & HW & HD); [run|]. split.
  - apply (HW "users/archive" "Paul" (json.Str "Paul") None
             (after (Write "users/archive" "Paul" (json.Str "Paul")) demo_users)).
    apply (after_eq (Write "users/archive" "Paul" (json.Str "Paul")) demo_users None). run.
  - apply (HD "users" "" None (after (Delete "users" "") demo_users)).
    apply (after_eq (Delete "users" "") demo_users None). run.
Defined.

Lemma one_mutex_per_collection_witness :
  (1 = 2 ↔ "users" = "orders")
  ∧ registry_ok (after (getOrCreateMutex "orders") (after (getOrCreateMutex "users") demo_store)).
Proof.
  apply (one_mutex_per_collection "users" "orders" demo_store 1
           (after (getOrCreateMutex "users") demo_store) 2
           (after (getOrCreateMutex "orders") (after (getOrCreateMutex "users") demo_store))).
  - split; intros ?; intros; discriminate.
  - apply (after_eq (getOrCreateMutex "users") demo_store 1). run.
  - apply (after_eq (getOrCreateMutex "orders") (after (getOrCreateMutex "users") demo_store) 2).
    run.
Defined.

Lemma Write_releases_its_lock_witness :
  held (world (after (Write "users" "Paul" (json.Str "Paul")) demo_users))
  = held (world demo_users)
  ∧ is_Some (mutexes (drv (after (Write "users" "Paul" (json.Str "Paul")) demo_users))
               !! "users").
Proof.
  destruct (Write_releases_its_lock "users" "Paul" (json.Str "Paul") demo_users None
              (after (Write "users" "Paul" (json.Str "Paul")) demo_users))
    as (H1 & _ & H3).
  - apply (after_eq (Write "users" "Paul" (json.Str "Paul")) demo_users None). run.
  - split; [exact H1|]. apply H3; discriminate.
Defined.

Lemma Delete_releases_its_lock_witness :
  held (world (after (Delete "users" "") demo_users)) = held (world demo_users)
  ∧ is_Some (mutexes (drv (after (Delete "users" "") demo_users)) !! "users").
Proof.
  destruct (Delete_releases_its_lock "users" "" demo_users None
              (after (Delete "users" "") demo_users)) as (H1 & _ & H3).
  - apply (after_eq (Delete "users" "") demo_users None). run.
  - split; [exact H1|exact H3].
Defined.

Lemma held_lock_blocks_writers_only_witness :
  Write "users" "Ashlie" (json.Str "new") (hold "users" demo_users) = None
  ∧ Delete "users" "Ashlie" (hold "users" demo_users) = None
  ∧ (∃ res s', Read "users" "Ashlie" json.Null (hold "users" demo_users) = Some (res, s')).
Proof.
  destruct (held_lock_blocks_writers_only "users" "Ashlie" (json.Str "new") json.Null
              (hold "users" demo_users) 1) as (HW & HD & HR & _).
  - run.
  - run.
  - split; [apply HW; discriminate|]. split; [exact HD|exact HR].
Defined.

Lemma Read_decodes_record_witness :
  ∃ data,
    os.ReadFile (filepath.Join [dir (drv demo_users); "users"; "Ashlie"] +:+ ".json")
      (world demo_users) = Ok data
    ∧ Unmarshal data json.Null = (User_json Ashlie, None).
Proof.
  destruct (Read_decodes_record "users" "Ashlie" json.Null (User_json Ashlie) demo_users
              (after (Read "users" "Ashlie" json.Null) demo_users)) as (_ & _ & _ & H).
  - apply (after_eq (Read "users" "Ashlie" json.Null) demo_users (User_json Ashlie, None)).
    run.
  - exact H.
Defined.

Lemma ReadAll_missing_collection_witness :
  ∃ e s', ReadAll "orders" demo_users = Some (([], Some e), s')
          ∧ os.IsNotExist e = true
          ∧ drv s' = drv demo_users ∧ only_prints (world demo_users) (world s').
Proof. apply (ReadAll_missing_collection "orders" demo_users); run. Defined.

Lemma ReadAll_not_a_directory_witness :
  ReadAll "users/Ashlie.json" demo_users = Some (([], None), demo_users)
  ∧ ReadAll "users/Ashlie" demo_users = Some (([], None), demo_users).
Proof.
  split.
  - apply (ReadAll_not_a_directory "users/Ashlie.json" demo_users); [run..|]. left. run.
  - apply (ReadAll_not_a_directory "users/Ashlie" demo_users); [run..|]. right.
    exists (os.info_of (File (encoded (User_json Ashlie) +:+ NL))). run.
Defined.

Lemma ReadAll_fails_on_subdirectory_witness :
  ∃ e, ReadAll "users" demo_nested = Some (([], Some e), demo_nested).
Proof. apply (ReadAll_fails_on_subdirectory "users" "archive" demo_nested); run. Defined.

Lemma Write_then_ReadAll_witness :
  ∃ b, MarshalIndent (User_json Ashlie) "" TAB = Ok b
       ∧ (b +:+ NL) ∈ [encoded (User_json Ashlie) +:+ NL].
Proof.
  apply (Write_then_ReadAll "users" "Ashlie" (User_json Ashlie) demo_store
           (after (Write "users" "Ashlie" (User_json Ashlie)) demo_store)
           [encoded (User_json Ashlie) +:+ NL]
           (after (ReadAll "users") (after (Write "users" "Ashlie" (User_json Ashlie)) demo_store))).
  - run.
  - run.
  - apply (after_eq (Write "users" "Ashlie" (User_json Ashlie)) demo_store None). run.
  - apply (after_eq (ReadAll "users") (after (Write "users" "Ashlie" (User_json Ashlie)) demo_store)
             ([encoded (User_json Ashlie) +:+ NL], None)). run.
Defined.

Lemma Write_touches_only_its_record_witness :
  files (world (after (Write "users" "Paul" (json.Str "Paul")) demo_users))
    !! ["Ashlie.json"; "users"; "demo"; "home"]
  = files (world demo_users) !! ["Ashlie.json"; "users"; "demo"; "home"].
Proof.
  destruct (Write_touches_only_its_record "users" "Paul" (json.Str "Paul") demo_users None
              (after (Write "users" "Paul" (json.Str "Paul")) demo_users)
              ["Ashlie.json"; "users"; "demo"; "home"]) as [H|(H & _)].
  - apply (after_eq (Write "users" "Paul" (json.Str "Paul")) demo_users None). run.
  - run.
  - run.
  - exact H.
  - exfalso. revert H. run.
Defined.

Lemma Write_leaves_no_temporary_file_witness :
  is_file "users/Ashlie.json.tmp" (world demo_debris) = true
  ∧ absent (filepath.Join [filepath.Join [dir (drv demo_debris); "users"]; "Ashlie" +:+ ".json"]
            +:+ ".tmp")
      (world (after (Write "users" "Ashlie" (json.Str "new")) demo_debris)) = true.
Proof.
  split; [run|].
  apply (Write_leaves_no_temporary_file "users" "Ashlie" (json.Str "new") demo_debris
           (after (Write "users" "Ashlie" (json.Str "new")) demo_debris)).
  apply (after_eq (Write "users" "Ashlie" (json.Str "new")) demo_debris None). run.
Defined.

Lemma Write_collection_path_is_file_witness :
  ∃ path e s',
    Write "users/Ashlie.json/cache" "x" json.Null demo_users = Some (Some e, s')
    ∧ files (world s') = files (world demo_users)
    ∧ is_file path (world demo_users) = true
    ∧ e = PathError "mkdir" path ENOTDIR.
Proof.
  destruct (Write_collection_path_is_file "users/Ashlie.json/cache" "x" json.Null
              demo_users) as (path & rest & e & s' & H1 & H2 & _ & H4 & _ & H6).
  - run.
  - discriminate.
  - discriminate.
  - run.
  - right. run.
  - exists path, e, s'. split; [exact H1|]. split; [exact H2|]. split; [exact H4|].
    apply (H6 "null"). run.
Defined.

(** The error names the record in the way, not the path that was asked
    for. *)
Example Write_through_a_record :
  fst <$> Write "users/Ashlie.json/cache" "x" json.Null demo_users
  = Some (Some (PathError "mkdir" "users/Ashlie.json" ENOTDIR)).
Proof. run. Qed.



Lemma Delete_only_removes_witness :
  files (world (after (Delete "users" "Ashlie") demo_users)) ⊆ files (world demo_users).
Proof.
  apply (Delete_only_removes "users" "Ashlie" demo_users None
           (after (Delete "users" "Ashlie") demo_users)).
  apply (after_eq (Delete "users" "Ashlie") demo_users None). run.
Defined.

Lemma Delete_removes_only_the_record_witness :
  ∃ s', Delete "users" "Ashlie" demo_users = Some (None, s').
Proof.
  destruct (Delete_removes_only_the_record "users" "Ashlie"
              (encoded (User_json Ashlie) +:+ NL) demo_users) as (s' & H & _); [run..|].
  exists s'. exact H.
Defined.

Lemma Delete_then_not_found_witness :
  ∃ s1, Delete "users" "Ashlie" demo_users = Some (None, s1)
    ∧ (∃ e s2, Read "users" "Ashlie" json.Null s1 = Some ((json.Null, Some e), s2)
               ∧ os.IsNotExist e = true).
Proof.
  destruct (Delete_then_not_found "users" "Ashlie" (encoded (User_json Ashlie) +:+ NL)
              json.Null demo_users) as (s1 & H1 & H2 & _); [run..|].
  exists s1. split; [exact H1|exact H2].
Defined.

Lemma Delete_prefers_the_directory_witness :
  ∃ s', Delete "users" "Ashlie" demo_clash = Some (None, s').
Proof.
  destruct (Delete_prefers_the_directory "users" "Ashlie"
              (encoded (User_json Ashlie) +:+ NL) demo_clash) as (s' & H & _); [run..|].
  exists s'. exact H.
Defined.

Lemma Delete_keeps_unsuffixed_file_witness :
  ∃ s', Delete "users" "Ashlie.json.tmp" demo_debris = Some (None, s').
Proof.
  destruct (Delete_keeps_unsuffixed_file "users" "Ashlie.json.tmp"
              (String "034"%char "a longer ") demo_debris) as (s' & H & _); [run..|].
  exists s'. exact H.
Defined.
